(** * ACP bridge: session and message pipeline

    A shallow embedding of the parts of the bridge that decide its observable
    protocol behaviour: the circuit breaker ([circuit-breaker.ts]), the
    context monitor ([context-monitor.ts]), the JSON-RPC connection
    ([protocol.ts]) and the agent facade ([agent.ts]): the prompt turn,
    inline permission markers, plan synthesis, the permission broker.
    With them come the parts they rest on: the configuration read from the
    environment, the resource manager ([resource-manager.ts]), the analysis
    of tool calls ([ToolEnhancer]) and the reading of files for the host.

    Conventions.
    - A JavaScript [number] that holds a count or a millisecond time stamp is a
      [Z]; a ratio is a [Q]; what [parseInt] returns is a [Js.number], an
      integer rounded as a double is, [NaN] or an infinity.
    - A promise that is awaited has settled before the next step.  The
      writes chained on the write queue of a connection run after the call
      that chains them has returned: the queue running is a step of its
      own, [Protocol.drain].
    - A JavaScript string is a [string]; each [ascii] stands for one UTF-16
      code unit in the range 0..255, so [String.length] is [.length].
    - [Date.now()] is not a function of the program state: every read of the
      clock is an explicit argument of the operation that performs it.
    - [throw] is a value of a sum or of a dedicated result type. *)

From Stdlib Require Import ZArith QArith Qround Qminmax String Ascii List Bool Lia.
From stdpp Require Import base option gmap strings pretty.
Import ListNotations.

Set Warnings "-register-all".

Local Open Scope string_scope.
Local Open Scope Z_scope.

(** ** JavaScript string primitives *)

Module Js.

(** [hay.startsWith(needle)] *)
Definition startsWith (needle hay : string) : bool := String.prefix needle hay.

(** [hay.includes(needle)]: [needle] occurs at some offset of [hay]. *)
Fixpoint includes (needle hay : string) : bool :=
  if String.prefix needle hay then true
  else match hay with
       | EmptyString => false
       | String _ rest => includes needle rest
       end.

(** [needle] occurs in [hay] at some offset. *)
Definition occursIn (needle hay : string) : Prop :=
  exists before rest, hay = before ++ needle ++ rest.

(** Truthiness of a string: [s || d]. *)
Definition truthy_string (s : string) : bool :=
  match s with EmptyString => false | _ => true end.

(** White space and line terminators among the code units 0..255: TAB, LF,
    VT, FF, CR, SP and NBSP.  This is the class [\s] and what [trim] strips. *)
Definition isWhiteSpace (c : ascii) : bool :=
  let n := nat_of_ascii c in
  ((9 <=? n) && (n <=? 13) || (n =? 32) || (n =? 160))%nat.

Fixpoint trimStart (s : string) : string :=
  match s with
  | EmptyString => EmptyString
  | String c rest => if isWhiteSpace c then trimStart rest else s
  end.

Fixpoint trimEnd (s : string) : string :=
  match s with
  | EmptyString => EmptyString
  | String c rest =>
      match trimEnd rest with
      | EmptyString => if isWhiteSpace c then EmptyString else String c EmptyString
      | kept => String c kept
      end
  end.

(** [s.trim()] *)
Definition trim (s : string) : string := trimEnd (trimStart s).

(** [s.split(sep)] for a separator of one code unit: never empty. *)
Fixpoint split (sep : ascii) (s : string) : list string :=
  match s with
  | EmptyString => [EmptyString]
  | String c rest =>
      if Ascii.eqb c sep then EmptyString :: split sep rest
      else match split sep rest with
           | piece :: pieces => String c piece :: pieces
           | [] => [String c EmptyString]
           end
  end.

(** [pieces.join(sep)] *)
Fixpoint join (sep : string) (pieces : list string) : string :=
  match pieces with
  | [] => EmptyString
  | [piece] => piece
  | piece :: rest => piece ++ sep ++ join sep rest
  end.

(** [s.toLowerCase()] on the code units 0..255: A-Z, and the Latin-1 capitals
    192..222 except the multiplication sign 215. *)
Definition toLowerCaseUnit (c : ascii) : ascii :=
  let n := nat_of_ascii c in
  if ((65 <=? n) && (n <=? 90)
      || (192 <=? n) && (n <=? 222) && negb (n =? 215))%nat
  then ascii_of_nat (n + 32) else c.

Fixpoint toLowerCase (s : string) : string :=
  match s with
  | EmptyString => EmptyString
  | String c rest => String (toLowerCaseUnit c) (toLowerCase rest)
  end.

(** [s.substring(0, n)] *)
Definition substring0 (n : nat) (s : string) : string := String.substring 0 n s.

(** Every code unit of [s] satisfies [p]. *)
Fixpoint every (p : ascii -> bool) (s : string) : bool :=
  match s with
  | EmptyString => true
  | String c rest => p c && every p rest
  end.

(** The class [\d]. *)
Definition isDigit (c : ascii) : bool :=
  let n := nat_of_ascii c in ((48 <=? n) && (n <=? 57))%nat.

Definition digitValue (c : ascii) : Z := Z.of_nat (nat_of_ascii c) - 48.

(** The value of the longest prefix of decimal digits, as [parseInt] reads
    it after [acc]; [seen] tells that a digit has been read. *)
Fixpoint digitsPrefix (s : string) (acc : Z) (seen : bool) : option Z :=
  match s with
  | EmptyString => if seen then Some acc else None
  | String c rest =>
      if isDigit c then digitsPrefix rest (10 * acc + digitValue c) true
      else if seen then Some acc else None
  end.

(** A number as [parseInt] returns it: [NaN], an integer that is a double,
    or an infinity.  [Finite 0] stands for both zeros, which [isNaN], [<],
    [>] and [===] do not tell apart. *)
Inductive number :=
  | NaN
  | Finite (n : Z)
  | PosInfinity
  | NegInfinity.

(** The Number value for an integer: the double nearest to it, the one
    with the even significand when two are as near.  Below 2^53 that is the
    integer itself; an integer that rounds to 2^1024 or beyond becomes an
    infinity. *)
Definition toDouble (n : Z) : number :=
  let a := Z.abs n in
  if a <? 2 ^ 53 then Finite n
  else
    let e := Z.log2 a - 52 in               (* [a] has 53 + e bits *)
    let q := Z.shiftr a e in                (* the leading 53 bits *)
    let r := a - Z.shiftl q e in            (* the bits cut off *)
    let half := 2 ^ (e - 1) in
    let q' := if (half <? r) || (r =? half) && Z.odd q then q + 1 else q in
    let m := Z.shiftl q' e in
    if 2 ^ 1024 <=? m then (if n <? 0 then NegInfinity else PosInfinity)
    else Finite (Z.sgn n * m).

(** [isNaN(x)] *)
Definition isNaN (x : number) : bool :=
  match x with NaN => true | _ => false end.

(** [x < 0] *)
Definition negative (x : number) : bool :=
  match x with
  | Finite n => n <? 0
  | NegInfinity => true
  | _ => false
  end.

(** [x > 0] *)
Definition positive (x : number) : bool :=
  match x with
  | Finite n => 0 <? n
  | PosInfinity => true
  | _ => false
  end.

(** [parseInt(s, 10)]: the Number value for the integer that the sign and
    the longest prefix of digits denote, after leading white space; [NaN]
    when there is no digit.  (Node reads the digits with its correctly
    rounding [strtod], and none of them is dropped.) *)
Definition parseInt (s : string) : number :=
  let read (negated : bool) (digits : string) :=
    match digitsPrefix digits 0 false with
    | Some n => toDouble (if negated then - n else n)
    | None => NaN
    end in
  match trimStart s with
  | String "-" rest => read true rest
  | String "+" rest => read false rest
  | t => read false t
  end.

(** The number a string of decimal digits denotes. *)
Definition decimal (s : string) : Z :=
  fold_left (fun acc c => 10 * acc + digitValue c) (list_ascii_of_string s) 0.

(** [sep] does not occur in [s]. *)
Definition free_of (sep : ascii) (s : string) : bool :=
  every (fun c => negb (Ascii.eqb c sep)) s.

(** A JSON value.  Numbers are integers: the bridge reads request ids and
    counters only. *)
Inductive json :=
  | JNull
  | JBool (b : bool)
  | JNum (n : Z)
  | JStr (s : string)
  | JArr (items : list json)
  | JObj (fields : gmap string json).

(** The [error] member of a JSON-RPC response.  A [RequestError] has the
    same three fields. *)
Record ErrorResponse := {
  code : Z;
  message : string;
  data : option json
}.

(** What a [throw] can carry, as far as the bridge tells values apart. *)
Inductive thrown :=
  | RequestError (e : ErrorResponse)
  | ZodError (message formatted : string)    (* its message; JSON.stringify(error.format(), undefined, 2) *)
  | Error (message : string)                 (* any other instance of Error *)
  | MessageObject (message : string)         (* not an Error, string [message] *)
  | Other (shown : string).                  (* anything else; [String(v)] *)

(** [error instanceof Error ? error.message : String(error)] *)
Definition errorMessage (t : thrown) : string :=
  match t with
  | RequestError e => message e
  | ZodError m _ => m
  | Error m => m
  | MessageObject _ => "[object Object]"
  | Other shown => shown
  end.

End Js.

(** ** protocol.ts: [RequestError], [Connection] (unnamed/part_005) *)

Module Protocol.
Import Js.

Inductive Result :=
  | result (value : json)
  | error (e : ErrorResponse).

(** A JSON-RPC message as the connection writes it. *)
Inductive AnyMessage :=
  | Request (id : json) (method : string) (params : option json)
  | Response (id : json) (r : Result)
  | Notification (method : string) (params : option json).

(** The constructor of [RequestError]: [data] is set for truthy details. *)
Definition newRequestError (code : Z) (message : string) (details : option string)
  : ErrorResponse :=
  {| code := code; message := message;
     data := match details with
             | Some d =>
                 if truthy_string d then Some (JObj {[ "details" := JStr d ]})
                 else None
             | None => None
             end |}.

Definition or_unknown (s : option string) : string :=
  match s with
  | Some v => if truthy_string v then v else "unknown"
  | None => "unknown"
  end.

Definition parseError (details : option string) : ErrorResponse :=
  newRequestError (-32700) "Parse error" details.
Definition invalidRequest (details : option string) : ErrorResponse :=
  newRequestError (-32600) "Invalid request" details.
Definition methodNotFound (method : option string) : ErrorResponse :=
  newRequestError (-32601) ("Method not found: " ++ or_unknown method) method.
Definition invalidParams (details : option string) : ErrorResponse :=
  newRequestError (-32602) "Invalid params" details.
Definition internalError (details : option string) : ErrorResponse :=
  newRequestError (-32603) "Internal error" details.
Definition authRequired (details : option string) : ErrorResponse :=
  newRequestError (-32000) "Authentication required" details.
Definition sessionNotFound (sessionId : option string) : ErrorResponse :=
  newRequestError (-32001) ("Session not found: " ++ or_unknown sessionId) sessionId.
Definition sessionBusy (sessionId : option string) : ErrorResponse :=
  newRequestError (-32002) ("Session busy: " ++ or_unknown sessionId) sessionId.
Definition resourceExhausted (details : option string) : ErrorResponse :=
  newRequestError (-32003) "Resource exhausted" details.

(** [toResult] of a [RequestError]. *)
Definition toResult (e : ErrorResponse) : Result := error e.

(** The [catch] block of [#tryCallHandler]. *)
Definition caught (t : thrown) : Result :=
  match t with
  | RequestError e => toResult e
  | ZodError _ formatted => toResult (invalidParams (Some formatted))
  | Error m => toResult (internalError (Some m))
  | MessageObject m => toResult (internalError (Some m))
  | Other _ => toResult (internalError None)
  end.

(** Identifiers of outbound requests are numbers; a host may answer with a
    string. *)
Definition key_of (id : json) : option (Z + string) :=
  match id with
  | JNum n => Some (inl n)
  | JStr s => Some (inr s)
  | _ => None
  end.

(** How a pending outbound request was settled. *)
Inductive settled :=
  | resolved (value : json)
  | rejected (e : json).

Section Connection.

(** The state of whatever the method handler closes over. *)
Context {A : Type}.

Record connection := {
  pendingResponses : gset (Z + string);
  settlements : list ((Z + string) * settled);
  nextRequestId : Z;
  isDestroyed : bool;
  writeQueue : list AnyMessage;  (* [#writeQueue]: the writes chained on it
                                    that have not run, in order *)
  written : list AnyMessage;     (* frames handed to the peer, in order *)
  app : A
}.

Definition with_written (c : connection) (w : list AnyMessage) : connection :=
  {| pendingResponses := pendingResponses c; settlements := settlements c;
     nextRequestId := nextRequestId c; isDestroyed := isDestroyed c;
     writeQueue := writeQueue c; written := w; app := app c |}.

Definition with_writeQueue (c : connection) (q : list AnyMessage) : connection :=
  {| pendingResponses := pendingResponses c; settlements := settlements c;
     nextRequestId := nextRequestId c; isDestroyed := isDestroyed c;
     writeQueue := q; written := written c; app := app c |}.

(** [#sendMessage], up to the promise it returns: the write is chained on
    [#writeQueue].  Nothing is tested and nothing is written yet. *)
Definition sendMessage (m : AnyMessage) (c : connection) : connection :=
  with_writeQueue c (writeQueue c ++ [m]).

(** A chained write, when the queue comes to it: it is skipped on a
    connection that is destroyed by then; otherwise the frame is handed to
    [writer.write].  What the stream makes of the frame does not reach the
    connection: a write that fails is caught and logged where it was chained,
    and the writes chained after it run all the same. *)
Definition runWrite (m : AnyMessage) (c : connection) : connection :=
  if isDestroyed c then c else with_written c (written c ++ [m]).

(** The queue runs: every write chained so far runs, in order, and nothing
    else runs in between.  When [await this.#writeQueue] returns, this has
    happened. *)
Definition drain (c : connection) : connection :=
  fold_left (fun c m => runWrite m c) (writeQueue c) (with_writeQueue c []).

(** [await this.#sendMessage(m)] *)
Definition awaitSendMessage (m : AnyMessage) (c : connection) : connection :=
  drain (sendMessage m c).

(** [sendNotification] up to its first suspension: on a live connection the
    write is chained. *)
Definition sendNotification (method : string) (params : option json)
    (c : connection) : connection :=
  if isDestroyed c then c else sendMessage (Notification method params) c.

(** [sendRequest] up to its first suspension: the identifier taken and the
    write chained, or the [throw] on a destroyed connection. *)
Definition sendRequest (method : string) (params : option json)
    (c : connection) : (thrown + Z) * connection :=
  if isDestroyed c then (inl (Error "Connection is destroyed"), c)
  else
    let id := nextRequestId c in
    let c1 :=
      {| pendingResponses := {[ inl id ]} ∪ pendingResponses c;
         settlements := settlements c;
         nextRequestId := id + 1; isDestroyed := isDestroyed c;
         writeQueue := writeQueue c; written := written c; app := app c |} in
    (inr id, sendMessage (Request (JNum id) method params) c1).

(** [#sendParseError] *)
Definition sendParseError (e : thrown) (c : connection) : connection :=
  awaitSendMessage
    (Response (JStr "parse-error")
       (error {| code := -32700; message := "Parse error";
                 data := Some (JStr (errorMessage e)) |})) c.

(** [#handleResponse] *)
Definition handleResponse (fields : gmap string json) (c : connection)
  : connection :=
  match fields !! "id" ≫= key_of with
  | Some k =>
      if decide (k ∈ pendingResponses c) then
        let outcome :=
          match fields !! "result", fields !! "error" with
          | Some v, _ => [(k, resolved v)]
          | None, Some e => [(k, rejected e)]
          | None, None => []
          end in
        {| pendingResponses := pendingResponses c ∖ {[ k ]};
           settlements := settlements c ++ outcome;
           nextRequestId := nextRequestId c; isDestroyed := isDestroyed c;
           writeQueue := writeQueue c; written := written c; app := app c |}
      else c
  | None => c
  end.

(** The method handler given to the connection: it may use the connection
    and either resolves ([inr]; [None] is [undefined]) or rejects. *)
Variable handler : json -> option json -> connection -> (thrown + option json) * connection.

(** [JSON.parse]: the value, or the [SyntaxError] it throws. *)
Variable JSON_parse : string -> thrown + json.

(** [#tryCallHandler] *)
Definition tryCallHandler (method : json) (params : option json)
    (c : connection) : Result * connection :=
  match handler method params c with
  | (inr r, c') => (result (default JNull r), c')
  | (inl t, c') => (caught t, c')
  end.

(** [#processMessage]: an array has neither key; any other value that is not
    an object makes the [in] test throw, which the enclosing [catch] logs. *)
Definition processMessage (m : json) (c : connection) : connection :=
  match m with
  | JObj fields =>
      match fields !! "method", fields !! "id" with
      | Some method, Some id =>
          let '(response, c') := tryCallHandler method (fields !! "params") c in
          awaitSendMessage (Response id response) c'
      | Some method, None =>
          snd (tryCallHandler method (fields !! "params") c)
      | None, Some _ => handleResponse fields c
      | None, None => c
      end
  | _ => c
  end.

(** The body of the loop over the lines of a chunk. *)
Definition processLine (line : string) (c : connection) : connection :=
  let trimmedLine := trim line in
  if truthy_string trimmedLine then
    match JSON_parse trimmedLine with
    | inr m => processMessage m c
    | inl e => sendParseError e c
    end
  else c.

Definition processLines (lines : list string) (c : connection) : connection :=
  fold_left (fun c line => processLine line c) lines c.

(** The end-of-line of the platform ([EOL] of [node:os]), on POSIX. *)
Definition EOL : ascii := "010"%char.

(** One turn of the [for await] loop of [#receive]: [content] is the text
    kept from the chunks before. *)
Definition receiveChunk (content chunk : string) (c : connection)
  : string * connection :=
  let lines := split EOL (content ++ chunk) in
  (List.last lines EmptyString, processLines (removelast lines) c).

(** [#receive]: the loop stops at the first chunk met on a destroyed
    connection. *)
Fixpoint receive (content : string) (chunks : list string) (c : connection)
  : string * connection :=
  match chunks with
  | [] => (content, c)
  | chunk :: rest =>
      if isDestroyed c then (content, c)
      else let '(content', c') := receiveChunk content chunk c in
           receive content' rest c'
  end.

(** [destroy] *)
Definition destroy (c : connection) : connection :=
  {| pendingResponses := ∅;
     settlements :=
       settlements c ++
       map (fun k =>
              (k, rejected
                    (JObj (<[ "code" := JNum (-32003) ]>
                          (<[ "message" := JStr "Connection destroyed" ]>
                          {[ "data" :=
                               JObj {[ "requestId" :=
                                         match k with
                                         | inl n => JNum n
                                         | inr s => JStr s
                                         end ]} ]})))))
           (elements (pendingResponses c));
     nextRequestId := nextRequestId c; isDestroyed := true;
     writeQueue := writeQueue c; written := written c; app := app c |}.

(** Every pending request carries a number that [sendRequest] has handed
    out. *)
Definition numbered (c : connection) : Prop :=
  forall k, k ∈ pendingResponses c -> exists n, k = inl n /\ n < nextRequestId c.

End Connection.

Arguments connection : clear implicits.

(** The line that [#handleReadTextFile] puts after the lines it keeps. *)
Definition TRUNCATED : string := "... (truncated)".

Definition LF : ascii := "010"%char.

(** The text [#handleReadTextFile] returns for the [content] of a file;
    [limit] and [line] are integers, [None] when [null] or not given. *)
Definition processedContent (content : string) (limit line : option Z) : string :=
  let processedContent :=
    match limit with
    | Some l =>
        if 0 <? l then
          let lines := split LF content in
          let kept := join (String LF EmptyString) (take (Z.to_nat l) lines) in
          if l <? Z.of_nat (length lines)
          then kept ++ String LF TRUNCATED
          else kept
        else content
    | None => content
    end in
  match line with
  | Some n =>
      if 0 <? n then
        let lines := split LF processedContent in
        let startLine := Z.max 0 (n - 1) in
        join (String LF EmptyString) (drop (Z.to_nat startLine) lines)
      else processedContent
  | None => processedContent
  end.

End Protocol.

(** ** circuit-breaker.ts: [CircuitBreaker] (src/circuit-breaker.ts) *)

Module CircuitBreaker.

Inductive CircuitState := CLOSED | OPEN | HALF_OPEN.

Definition CircuitState_eqb (a b : CircuitState) : bool :=
  match a, b with
  | CLOSED, CLOSED | OPEN, OPEN | HALF_OPEN, HALF_OPEN => true
  | _, _ => false
  end.

Record CircuitBreakerOptions := {
  failureThreshold : Z;
  successThreshold : Z;
  timeout : Z;
  monitoringPeriod : Z
}.

(** [CLAUDE_SDK_CIRCUIT_OPTIONS] *)
Definition CLAUDE_SDK_CIRCUIT_OPTIONS : CircuitBreakerOptions :=
  {| failureThreshold := 8; successThreshold := 3;
     timeout := 10000; monitoringPeriod := 120000 |}.

(** The private fields of the class. *)
Record breaker := {
  state : CircuitState;
  failures : Z;
  successes : Z;
  nextAttempt : Z;
  lastFailureTime : option Z;
  lastSuccessTime : option Z;
  totalCalls : Z;
  totalFailures : Z;
  totalSuccesses : Z
}.

(** Field initialisers of the class: the state after the constructor. *)
Definition new : breaker :=
  {| state := CLOSED; failures := 0; successes := 0; nextAttempt := 0;
     lastFailureTime := None; lastSuccessTime := None;
     totalCalls := 0; totalFailures := 0; totalSuccesses := 0 |}.

(** The four places of [execute] that read [Date.now()]. *)
Record clock := {
  now_cleanup : Z;   (* cleanupOldFailures *)
  now_gate : Z;      (* the test against nextAttempt *)
  now_settle : Z;    (* lastSuccessTime / lastFailureTime *)
  now_reopen : Z     (* nextAttempt = Date.now() + timeout *)
}.

(** The message of the error thrown while the circuit is open. *)
Definition CIRCUIT_OPEN : string := "Circuit breaker is OPEN - failing fast".

Section Execute.

Context {T R E W : Type}.

(** The wrapped function.  It is asynchronous and effectful: [W] is the state
    of everything outside the breaker; a call either rejects ([inl]) or
    resolves ([inr]) and leaves a new outside state. *)
Variable fn : T -> W -> (E + R) * W.
Variable opts : CircuitBreakerOptions.

(** What [execute] does to its caller. *)
Inductive outcome :=
  | Returned (r : R)
  | Rethrown (e : E)
  | FailFast (message : string).

Definition cleanupOldFailures (b : breaker) (now : Z) : breaker :=
  let cutoff := now - monitoringPeriod opts in
  match lastFailureTime b with
  | Some t =>
      if negb (t =? 0) && (t <? cutoff) then
        {| state := state b; failures := Z.max 0 (failures b - 1);
           successes := successes b; nextAttempt := nextAttempt b;
           lastFailureTime := lastFailureTime b;
           lastSuccessTime := lastSuccessTime b;
           totalCalls := totalCalls b; totalFailures := totalFailures b;
           totalSuccesses := totalSuccesses b |}
      else b
  | None => b
  end.

Definition onSuccess (b : breaker) (now : Z) : breaker :=
  let st :=
    match state b with
    | HALF_OPEN =>
        if successThreshold opts <=? successes b + 1
        then (CLOSED, 0, 0)
        else (HALF_OPEN, failures b, successes b + 1)
    | CLOSED => (CLOSED, Z.max 0 (failures b - 1), successes b)
    | OPEN => (CLOSED, 0, 0)
    end in
  let '(s, f, k) := st in
  {| state := s; failures := f; successes := k;
     nextAttempt := nextAttempt b;
     lastFailureTime := lastFailureTime b;
     lastSuccessTime := Some now;
     totalCalls := totalCalls b; totalFailures := totalFailures b;
     totalSuccesses := totalSuccesses b + 1 |}.

Definition onFailure (b : breaker) (now now' : Z) : breaker :=
  let f := failures b + 1 in
  let trip :=
    (CircuitState_eqb (state b) CLOSED && (failureThreshold opts <=? f))
    || CircuitState_eqb (state b) HALF_OPEN in
  {| state := if trip then OPEN else state b;
     failures := f; successes := successes b;
     nextAttempt := if trip then now' + timeout opts else nextAttempt b;
     lastFailureTime := Some now;
     lastSuccessTime := lastSuccessTime b;
     totalCalls := totalCalls b; totalFailures := totalFailures b + 1;
     totalSuccesses := totalSuccesses b |}.

Definition countCall (b : breaker) : breaker :=
  {| state := state b; failures := failures b; successes := successes b;
     nextAttempt := nextAttempt b; lastFailureTime := lastFailureTime b;
     lastSuccessTime := lastSuccessTime b;
     totalCalls := totalCalls b + 1; totalFailures := totalFailures b;
     totalSuccesses := totalSuccesses b |}.

Definition toHalfOpen (b : breaker) : breaker :=
  {| state := HALF_OPEN; failures := failures b; successes := 0;
     nextAttempt := nextAttempt b; lastFailureTime := lastFailureTime b;
     lastSuccessTime := lastSuccessTime b;
     totalCalls := totalCalls b; totalFailures := totalFailures b;
     totalSuccesses := totalSuccesses b |}.

(** The part of [execute] before the [try]: count the call, decay, and the
    test of an open circuit.  The flag is [false] for the fail-fast [throw]. *)
Definition before_try (b : breaker) (c : clock) : breaker * bool :=
  let b1 := cleanupOldFailures (countCall b) (now_cleanup c) in
  match state b1 with
  | OPEN =>
      if now_gate c <? nextAttempt b1 then (b1, false)
      else (toHalfOpen b1, true)
  | _ => (b1, true)
  end.

Definition execute (b : breaker) (c : clock) (args : T) (w : W)
  : breaker * W * outcome :=
  let '(b1, passed) := before_try b c in
  if passed then
    match fn args w with
    | (inr r, w') => (onSuccess b1 (now_settle c), w', Returned r)
    | (inl e, w') => (onFailure b1 (now_settle c) (now_reopen c), w', Rethrown e)
    end
  else (b1, w, FailFast CIRCUIT_OPEN).

(** A sequence of calls, one after the other. *)
Fixpoint run (b : breaker) (w : W) (calls : list (clock * T)) : breaker * W :=
  match calls with
  | [] => (b, w)
  | (c, a) :: rest =>
      let '(b', w', _) := execute b c a w in run b' w' rest
  end.

(** Every invocation of the wrapped function made along [calls], started in
    the outside state [w], rejects (resp. resolves). *)
Fixpoint all_reject (w : W) (calls : list (clock * T)) : Prop :=
  match calls with
  | [] => True
  | (_, a) :: rest =>
      match fn a w with
      | (inl _, w') => all_reject w' rest
      | (inr _, _) => False
      end
  end.

Fixpoint all_resolve (w : W) (calls : list (clock * T)) : Prop :=
  match calls with
  | [] => True
  | (_, a) :: rest =>
      match fn a w with
      | (inr _, w') => all_resolve w' rest
      | (inl _, _) => False
      end
  end.

(** All clock reads of a call fall in the window that starts at [t0] and
    lasts [monitoringPeriod]. *)
Definition in_window (t0 : Z) (c : clock) : Prop :=
  let inside t := t0 <= t <= t0 + monitoringPeriod opts in
  inside (now_cleanup c) /\ inside (now_gate c) /\
  inside (now_settle c) /\ inside (now_reopen c).

(** The breaker is closed with [k] failures counted, none of them older
    than [t0]. *)
Definition counting (t0 k : Z) (b : breaker) : Prop :=
  state b = CLOSED /\ failures b = k
  /\ (k = 0 \/ exists t, lastFailureTime b = Some t /\ t0 <= t).

(** The call made at [c] is a probe: the circuit is half open with [k]
    successes counted, or it is open and its time to reopen has come. *)
Definition probing (k : Z) (b : breaker) (c : clock) : Prop :=
  (state b = HALF_OPEN /\ successes b = k)
  \/ (state b = OPEN /\ nextAttempt b <= now_gate c /\ k = 0).

(** The outcomes of a sequence of calls, in order. *)
Fixpoint outcomes (b : breaker) (w : W) (calls : list (clock * T))
  : list outcome :=
  match calls with
  | [] => []
  | (c, a) :: rest =>
      let '(b', w', o) := execute b c a w in o :: outcomes b' w' rest
  end.

Definition isReturned (o : outcome) : bool :=
  match o with Returned _ => true | _ => false end.
Definition isRethrown (o : outcome) : bool :=
  match o with Rethrown _ => true | _ => false end.
Definition isFailFast (o : outcome) : bool :=
  match o with FailFast _ => true | _ => false end.

(** [forceOpen(timeout)]; [requested] is the argument, [None] when it is
    omitted.  The wait is [timeout || this.opts.timeout]. *)
Definition forceOpen (b : breaker) (requested : option Z) (now : Z) : breaker :=
  let wait :=
    match requested with
    | Some t => if t =? 0 then timeout opts else t
    | None => timeout opts
    end in
  {| state := OPEN; failures := failures b; successes := successes b;
     nextAttempt := now + wait;
     lastFailureTime := lastFailureTime b;
     lastSuccessTime := lastSuccessTime b;
     totalCalls := totalCalls b; totalFailures := totalFailures b;
     totalSuccesses := totalSuccesses b |}.

(** [forceClosed] *)
Definition forceClosed (b : breaker) : breaker :=
  {| state := CLOSED; failures := 0; successes := 0;
     nextAttempt := nextAttempt b;
     lastFailureTime := lastFailureTime b;
     lastSuccessTime := lastSuccessTime b;
     totalCalls := totalCalls b; totalFailures := totalFailures b;
     totalSuccesses := totalSuccesses b |}.

(** [isHealthy] *)
Definition isHealthy (b : breaker) : bool := CircuitState_eqb (state b) CLOSED.

(** What the owner of a breaker can do with it. *)
Inductive action :=
  | Execute (c : clock) (args : T)
  | ForceOpen (requested : option Z) (now : Z)
  | ForceClosed.

Definition act (b : breaker) (w : W) (x : action) : breaker * W :=
  match x with
  | Execute c args => let '(b', w', _) := execute b c args w in (b', w')
  | ForceOpen requested now => (forceOpen b requested now, w)
  | ForceClosed => (forceClosed b, w)
  end.

Fixpoint acts (b : breaker) (w : W) (xs : list action) : breaker * W :=
  match xs with
  | [] => (b, w)
  | x :: rest => let '(b', w') := act b w x in acts b' w' rest
  end.

(** Neither counter is negative; the failure counter is below its threshold
    while the circuit is closed, the success counter below its threshold
    while it is half open. *)
Definition below_thresholds (b : breaker) : Prop :=
  0 <= failures b /\ 0 <= successes b
  /\ (state b = CLOSED -> failures b < failureThreshold opts)
  /\ (state b = HALF_OPEN -> successes b < successThreshold opts).

End Execute.

End CircuitBreaker.

(** ** context-monitor.ts: [ContextMonitor] (found in src/cli.ts) *)

Module ContextMonitor.

Inductive WarningLevel := warning | critical.

Record ContextWarning := {
  level : WarningLevel;
  message : string;
  warned_usage : Q          (* the field [usage] of the warning *)
}.

Record SessionStats := {
  usage : Q;
  estimatedTokens : Z;
  messages : Z;
  turnCount : Z;
  lastActivity : Z;
  lastUpdate : Z
}.

Inductive Role := user | assistant.

Definition CONTEXT_LIMIT : Z := 200000.
Definition WARNING_THRESHOLD : Q := 8 # 10.
Definition CRITICAL_THRESHOLD : Q := 95 # 100.

(** The places of [addMessage] that read the clock. *)
Record clock := {
  now_default : Z;    (* lastActivity of the default stats *)
  date_default : Z;   (* lastUpdate of the default stats *)
  now_activity : Z;   (* stats.lastActivity = Date.now() *)
  date_update : Z;    (* stats.lastUpdate = new Date() *)
  now_sweep : Z       (* cleanupInactiveSessions *)
}.

(** [Math.ceil(content.length / 4)] *)
Definition estimateTokens (content : string) : Z :=
  Qceiling (inject_Z (Z.of_nat (String.length content)) / 4).

(** [cleanupInactiveSessions(maxInactiveMs)]: the map that is left and the
    number of sessions removed. *)
Definition cleanupInactiveSessions
    (sessions : gmap string SessionStats) (maxInactiveMs now : Z)
  : gmap string SessionStats * Z :=
  let kept :=
    filter (fun kv : string * SessionStats =>
              ~ (now - lastActivity kv.2 > maxInactiveMs)) sessions in
  (kept, Z.of_nat (size sessions) - Z.of_nat (size kept)).

Section AddMessage.

(** [(x * 100).toFixed(1)], the rendering of a floating-point number. *)
Variable toFixed1 : Q -> string.

Definition percent (u : Q) : string := toFixed1 (u * 100).

Definition addMessage
    (sessions : gmap string SessionStats)
    (sessionId content : string) (role : option Role) (c : clock)
  : gmap string SessionStats * option ContextWarning :=
  let tokens := estimateTokens content in
  let stats :=
    match sessions !! sessionId with
    | Some st => st
    | None => {| usage := 0; estimatedTokens := 0; messages := 0;
                 turnCount := 0; lastActivity := now_default c;
                 lastUpdate := date_default c |}
    end in
  let est := estimatedTokens stats + tokens in
  let u := Qmin (inject_Z est / inject_Z CONTEXT_LIMIT) 1 in
  let stats' :=
    {| usage := u; estimatedTokens := est;
       messages := messages stats + 1;
       turnCount := match role with
                    | Some user => turnCount stats + 1
                    | _ => turnCount stats
                    end;
       lastActivity := now_activity c;
       lastUpdate := date_update c |} in
  let sessions1 := <[sessionId := stats']> sessions in
  let sessions2 :=
    if (100 <? size sessions1)%nat
    then fst (cleanupInactiveSessions sessions1 (30 * 60 * 1000) (now_sweep c))
    else sessions1 in
  let w :=
    if Qle_bool CRITICAL_THRESHOLD u then
      Some {| level := critical;
              message := "Context usage critical (" ++ percent u ++ "%)";
              warned_usage := u |}
    else if Qle_bool WARNING_THRESHOLD u then
      Some {| level := warning;
              message := "High context usage (" ++ percent u ++ "%)";
              warned_usage := u |}
    else None in
  (sessions2, w).

(** One call of [addMessage]. *)
Record call := {
  call_session : string;
  call_content : string;
  call_role : option Role;
  call_clock : clock
}.

Definition addMessage' (sessions : gmap string SessionStats) (k : call)
  : gmap string SessionStats :=
  fst (addMessage sessions (call_session k) (call_content k) (call_role k)
         (call_clock k)).

(** Calls of [addMessage] on any sessions, one after the other. *)
Definition addMessages (sessions : gmap string SessionStats) (calls : list call)
  : gmap string SessionStats :=
  fold_left addMessage' calls sessions.

(** The sweep that call [k] may run does not find session [sid] idle for
    more than its 30 minutes. *)
Definition retained (sid : string) (sessions : gmap string SessionStats)
    (k : call) : Prop :=
  if decide (call_session k = sid)
  then now_sweep (call_clock k) - now_activity (call_clock k) <= 30 * 60 * 1000
  else forall st, sessions !! sid = Some st ->
                  now_sweep (call_clock k) - lastActivity st <= 30 * 60 * 1000.

Fixpoint retained_along (sid : string) (sessions : gmap string SessionStats)
    (calls : list call) : Prop :=
  match calls with
  | [] => True
  | k :: rest =>
      retained sid sessions k /\ retained_along sid (addMessage' sessions k) rest
  end.

(** No call of the sequence removes session [sid] from the sessions the
    monitor holds. *)
Fixpoint held_along (sid : string) (sessions : gmap string SessionStats)
    (calls : list call) : Prop :=
  match calls with
  | [] => True
  | k :: rest =>
      (is_Some (sessions !! sid) -> is_Some (addMessage' sessions k !! sid))
      /\ held_along sid (addMessage' sessions k) rest
  end.

End AddMessage.

(** The running estimate of a session; a session the monitor does not know
    has none, and its next message starts from 0. *)
Definition estimate (sessions : gmap string SessionStats) (sessionId : string) : Z :=
  match sessions !! sessionId with
  | Some st => estimatedTokens st
  | None => 0
  end.

(** [getStats]: [None] is [null]. *)
Definition getStats (sessions : gmap string SessionStats) (sessionId : string)
  : option SessionStats := sessions !! sessionId.

(** [clearSession] *)
Definition clearSession (sessions : gmap string SessionStats)
    (sessionId : string) : gmap string SessionStats :=
  delete sessionId sessions.

(** [resetSession]; [now] and [date] are its two reads of the clock. *)
Definition resetSession (sessions : gmap string SessionStats)
    (sessionId : string) (now date : Z) : gmap string SessionStats :=
  alter (fun _ => {| usage := 0; estimatedTokens := 0; messages := 0;
                     turnCount := 0; lastActivity := now; lastUpdate := date |})
    sessionId sessions.

(** [cleanupOldSessions] *)
Definition cleanupOldSessions (sessions : gmap string SessionStats)
    (maxAgeMs now : Z) : gmap string SessionStats * Z :=
  cleanupInactiveSessions sessions maxAgeMs now.

(** [getMemoryStats]; the average is a ratio. *)
Record MemoryStats := {
  activeSessions : Z;
  totalMessages : Z;
  totalTokens : Z;
  averageTokensPerSession : Q
}.

Definition getMemoryStats (sessions : gmap string SessionStats) : MemoryStats :=
  let totalMessages :=
    map_fold (fun _ st acc => acc + messages st) 0 sessions in
  let totalTokens :=
    map_fold (fun _ st acc => acc + estimatedTokens st) 0 sessions in
  {| activeSessions := Z.of_nat (size sessions);
     totalMessages := totalMessages;
     totalTokens := totalTokens;
     averageTokensPerSession :=
       if (size sessions =? 0)%nat then 0
       else inject_Z totalTokens / inject_Z (Z.of_nat (size sessions)) |}.

(** The record of a session is consistent: its counters are not negative, no
    more turns than messages are counted, and the usage is the ratio of the
    estimate to the limit, capped at 1. *)
Definition consistent (st : SessionStats) : Prop :=
  0 <= estimatedTokens st /\ 0 <= turnCount st <= messages st
  /\ (usage st == Qmin (inject_Z (estimatedTokens st) / inject_Z CONTEXT_LIMIT) 1)%Q.

Definition all_consistent (sessions : gmap string SessionStats) : Prop :=
  forall sid st, sessions !! sid = Some st -> consistent st.

(** A use of the monitor: a message, a reset, a removal or a sweep. *)
Inductive step :=
  | Add (k : call)
  | Reset (sessionId : string) (now date : Z)
  | Clear (sessionId : string)
  | Sweep (maxInactiveMs now : Z).

Definition apply_step (toFixed1 : Q -> string)
    (sessions : gmap string SessionStats) (x : step)
  : gmap string SessionStats :=
  match x with
  | Add k => addMessage' toFixed1 sessions k
  | Reset sessionId now date => resetSession sessions sessionId now date
  | Clear sessionId => clearSession sessions sessionId
  | Sweep maxInactiveMs now =>
      fst (cleanupInactiveSessions sessions maxInactiveMs now)
  end.

Definition apply_steps (toFixed1 : Q -> string)
    (sessions : gmap string SessionStats) (xs : list step)
  : gmap string SessionStats :=
  fold_left (apply_step toFixed1) xs sessions.

End ContextMonitor.

(** ** agent.ts: [ClaudeACPAgent] (unnamed/part_002), types and pure helpers *)

Module Agent.
Import Js.

Inductive PermissionMode :=
  | default_mode          (* "default" *)
  | acceptEdits
  | bypassPermissions
  | plan_mode.            (* "plan" *)

Definition PermissionMode_eqb (a b : PermissionMode) : bool :=
  match a, b with
  | default_mode, default_mode | acceptEdits, acceptEdits
  | bypassPermissions, bypassPermissions | plan_mode, plan_mode => true
  | _, _ => false
  end.

Inductive Priority := high | medium | low.
Inductive PlanStatus := pending | in_progress | completed | failed.

Record PlanEntry := {
  content : string;
  priority : Priority;
  status : PlanStatus;
  title : option string
}.

Inductive OperationType :=
  | op_create | op_read | op_edit | op_delete | op_move | op_search
  | op_execute | op_other.

Inductive Complexity := simple | moderate | complex.

Record ToolOperationContext := {
  toolName : string;
  input : option json;                   (* [unknown]; [None] is undefined *)
  operationType : option OperationType;
  affectedFiles : option (list string);
  complexity : option Complexity;
  streamingOperationId : option string
}.

Inductive PermissionOptionKind :=
  | allow_once | allow_always | reject_once | reject_always.

Definition PermissionOptionKind_eqb (a b : PermissionOptionKind) : bool :=
  match a, b with
  | allow_once, allow_once | allow_always, allow_always
  | reject_once, reject_once | reject_always, reject_always => true
  | _, _ => false
  end.

Record PermissionOption := {
  optionId : string;
  name : string;
  kind : PermissionOptionKind
}.

(** Truthiness of a JSON value. *)
Definition truthy (v : option json) : bool :=
  match v with
  | None | Some JNull => false
  | Some (JBool b) => b
  | Some (JNum n) => negb (n =? 0)
  | Some (JStr s) => truthy_string s
  | Some (JArr _) | Some (JObj _) => true
  end.

(** [String(v)] *)
Fixpoint String_ (v : json) : string :=
  match v with
  | JNull => "null"
  | JBool true => "true"
  | JBool false => "false"
  | JNum n => pretty n
  | JStr s => s
  | JArr items =>
      join "," (map (fun item => match item with
                                 | JNull => EmptyString
                                 | _ => String_ item
                                 end) items)
  | JObj _ => "[object Object]"
  end.

(** [isValidInput]: an object that is neither [null] nor an array. *)
Definition isValidInput (input : option json) : bool :=
  match input with
  | Some (JObj _) => true
  | _ => false
  end.

(** [isAutoApprovableOperation] *)
Definition isAutoApprovableOperation (context : ToolOperationContext) : bool :=
  match default op_other (operationType context) with
  | op_read | op_search => true
  | _ => false
  end.

Definition dangerousCommands : list string :=
  ["rm"; "sudo"; "chmod"; "chown"; "mv"; "cp"; "dd"].

(** [String(inputObj.command || '')] for a valid input. *)
Definition commandOf (input : option json) : string :=
  match input with
  | Some (JObj fields) =>
      if truthy (fields !! "command")
      then match fields !! "command" with
           | Some v => String_ v
           | None => EmptyString
           end
      else EmptyString
  | _ => EmptyString
  end.

(** [requiresExplicitPermission]; [cwd] is [process.cwd()]. *)
Definition requiresExplicitPermission (cwd : string)
    (context : ToolOperationContext) : bool :=
  if match operationType context with Some op_delete => true | _ => false end
  then true
  else if
    match operationType context with Some op_execute => true | _ => false end
    && isValidInput (input context)
    && existsb (fun cmd => includes cmd (commandOf (input context)))
         dangerousCommands
  then true
  else
    match affectedFiles context with
    | Some files =>
        existsb (fun path => startsWith "/" path && negb (startsWith cwd path))
          files
    | None => false
    end.

(** [generatePermissionOptions] *)
Definition generatePermissionOptions (context : ToolOperationContext)
  : list PermissionOption :=
  let options :=
    [ {| optionId := "allow_once"; name := "Allow this time";
         kind := allow_once |};
      {| optionId := "reject_once"; name := "Deny this time";
         kind := reject_once |} ] in
  let options :=
    match operationType context with
    | Some op_delete => options
    | _ => (options ++
            [ {| optionId := "allow_always";
                 name := "Always allow this type of operation";
                 kind := allow_always |} ])%list
    end in
  (options ++
   [ {| optionId := "reject_always";
        name := "Never allow this type of operation";
        kind := reject_always |} ])%list.

(** [parsePromptPermissionMode]; [currentMode] is the mode of the session,
    [defaultPermissionMode] the mode of the agent. *)
Definition parsePromptPermissionMode (defaultPermissionMode : PermissionMode)
    (promptText : string) (currentMode : option PermissionMode)
  : PermissionMode :=
  if includes "[ACP:PERMISSION:ACCEPT_EDITS]" promptText then acceptEdits
  else if includes "[ACP:PERMISSION:BYPASS]" promptText then bypassPermissions
  else if includes "[ACP:PERMISSION:DEFAULT]" promptText then default_mode
  else default defaultPermissionMode currentMode.

(** [s.split(/\s+/)]; [after] tells that the unit before was white space. *)
Fixpoint splitWhite (after : bool) (s : string) : list string :=
  match s with
  | EmptyString => [EmptyString]
  | String c rest =>
      if isWhiteSpace c then
        if after then splitWhite true rest
        else EmptyString :: splitWhite true rest
      else match splitWhite false rest with
           | piece :: pieces => String c piece :: pieces
           | [] => [String c EmptyString]
           end
  end.

Definition isSentenceEnd (c : ascii) : bool :=
  (Ascii.eqb c "." || Ascii.eqb c "!" || Ascii.eqb c "?")%char.

(** [s.split(/[.!?]/)[0]] *)
Fixpoint firstSentenceOf (s : string) : string :=
  match s with
  | EmptyString => EmptyString
  | String c rest =>
      if isSentenceEnd c then EmptyString else String c (firstSentenceOf rest)
  end.

Definition PROMPT_COMPLEXITY_THRESHOLD : nat := 200.

(** [generatePromptSummary] *)
Definition generatePromptSummary (prompt : string) (isComplex : bool) : string :=
  if negb isComplex then "Processing simple request"
  else if (length (splitWhite false prompt) <=? 15)%nat then prompt
  else
    let firstSentence := firstSentenceOf prompt in
    if (String.length firstSentence <=? 100)%nat then firstSentence
    else substring0 97 firstSentence ++ "...".

Record PromptComplexity := {
  isComplex : bool;
  needsPlan : bool;
  summary : string;
  estimatedSteps : Z
}.

Definition complexKeywords : list string :=
  ["implement"; "create"; "build"; "refactor"; "restructure"; "migrate";
   "optimize"].
Definition multiStepIndicators : list string :=
  ["first"; "then"; "next"; "after"; "finally"; "step"; "phase"].

(** [analyzePromptComplexity] *)
Definition analyzePromptComplexity (prompt : string) : PromptComplexity :=
  let lowerPrompt := toLowerCase prompt in
  let hasComplexKeywords :=
    existsb (fun kw => includes kw lowerPrompt) complexKeywords in
  let hasMultiStepIndicators :=
    existsb (fun ind => includes ind lowerPrompt) multiStepIndicators in
  let isLongPrompt :=
    (PROMPT_COMPLEXITY_THRESHOLD <? String.length prompt)%nat in
  let isComplex := hasComplexKeywords || hasMultiStepIndicators || isLongPrompt in
  let needsPlan :=
    isComplex &&
    (hasMultiStepIndicators || isLongPrompt ||
     (1 <? length (List.filter (fun kw => includes kw lowerPrompt)
                     complexKeywords))%nat) in
  let estimatedSteps :=
    1 + (if hasMultiStepIndicators then 2 else 0)
      + (if hasComplexKeywords then 1 else 0)
      + (if isLongPrompt then 1 else 0) in
  {| isComplex := isComplex; needsPlan := needsPlan;
     summary := generatePromptSummary prompt isComplex;
     estimatedSteps := estimatedSteps |}.

(** The entries [generateAndSendPlan] builds. *)
Definition synthesizePlan (summary : string) (estimatedSteps : Z)
  : list PlanEntry :=
  if 3 <=? estimatedSteps then
    [ {| content := "Analyze requirements and approach"; priority := high;
         status := in_progress; title := None |};
      {| content := "Execute main implementation"; priority := high;
         status := pending; title := None |};
      {| content := "Validate and finalize changes"; priority := medium;
         status := pending; title := None |} ]
  else
    [ {| content := summary; priority := high; status := in_progress;
         title := None |} ].

Definition set_status (v : PlanStatus) (e : PlanEntry) : PlanEntry :=
  {| content := content e; priority := priority e; status := v;
     title := title e |}.

(** The loop of [updatePlanForToolCompletion]: the first entry that is in
    progress is completed and the entry after it, if it is pending, is put
    in progress.  The flag is [updated]. *)
Fixpoint advancePlan (entries : list PlanEntry) : list PlanEntry * bool :=
  match entries with
  | [] => ([], false)
  | entry :: rest =>
      match status entry with
      | in_progress =>
          (set_status completed entry
             :: match rest with
                | next :: rest' =>
                    match status next with
                    | pending => set_status in_progress next :: rest'
                    | _ => next :: rest'
                    end
                | [] => []
                end,
           true)
      | _ => let '(rest', updated) := advancePlan rest in (entry :: rest', updated)
      end
  end.

(** The number of entries of a plan with the status [v]. *)
Definition count_status (v : PlanStatus) (entries : list PlanEntry) : nat :=
  length (List.filter (fun e => match status e, v with
                                | pending, pending | in_progress, in_progress
                                | completed, completed | failed, failed => true
                                | _, _ => false
                                end) entries).

(** *** Sessions, notifications and the state of the agent *)

Inductive SessionUpdate :=
  | agent_message_chunk (text : string)
  | agent_thought_chunk (text : string)
  | plan (entries : list PlanEntry)
  | tool_update (payload : json).   (* tool_call and tool_call_update *)

Record SessionNotification := {
  sessionId : string;
  update : SessionUpdate
}.

(** The fields of [AgentSession] that the functions below read or write.
    [pendingPrompt] is tested for truthiness only; of an [AbortController]
    only [signal.aborted] is read. *)
Record AgentSession := {
  pendingPrompt : bool;
  abortController : option bool;
  claudeSessionId : option string;
  permissionMode : option PermissionMode;
  currentPlan : option (list PlanEntry);
  thoughtStreaming : bool;
  lastActivityAt : Z;
  operationContext : option (gmap string ToolOperationContext)
}.

(** [SessionManager.createSession] *)
Definition createSession (mode : PermissionMode) (now : Z) : AgentSession :=
  {| pendingPrompt := false; abortController := None;
     claudeSessionId := None; permissionMode := Some mode;
     currentPlan := None; thoughtStreaming := true;
     lastActivityAt := now; operationContext := Some ∅ |}.

Definition set_pendingPrompt (v : bool) (s : AgentSession) : AgentSession :=
  {| pendingPrompt := v; abortController := abortController s;
     claudeSessionId := claudeSessionId s; permissionMode := permissionMode s;
     currentPlan := currentPlan s; thoughtStreaming := thoughtStreaming s;
     lastActivityAt := lastActivityAt s; operationContext := operationContext s |}.

Definition set_abortController (v : option bool) (s : AgentSession) : AgentSession :=
  {| pendingPrompt := pendingPrompt s; abortController := v;
     claudeSessionId := claudeSessionId s; permissionMode := permissionMode s;
     currentPlan := currentPlan s; thoughtStreaming := thoughtStreaming s;
     lastActivityAt := lastActivityAt s; operationContext := operationContext s |}.

Definition set_claudeSessionId (v : option string) (s : AgentSession) : AgentSession :=
  {| pendingPrompt := pendingPrompt s; abortController := abortController s;
     claudeSessionId := v; permissionMode := permissionMode s;
     currentPlan := currentPlan s; thoughtStreaming := thoughtStreaming s;
     lastActivityAt := lastActivityAt s; operationContext := operationContext s |}.

Definition set_permissionMode (v : option PermissionMode) (s : AgentSession) : AgentSession :=
  {| pendingPrompt := pendingPrompt s; abortController := abortController s;
     claudeSessionId := claudeSessionId s; permissionMode := v;
     currentPlan := currentPlan s; thoughtStreaming := thoughtStreaming s;
     lastActivityAt := lastActivityAt s; operationContext := operationContext s |}.

Definition set_currentPlan (v : option (list PlanEntry)) (s : AgentSession) : AgentSession :=
  {| pendingPrompt := pendingPrompt s; abortController := abortController s;
     claudeSessionId := claudeSessionId s; permissionMode := permissionMode s;
     currentPlan := v; thoughtStreaming := thoughtStreaming s;
     lastActivityAt := lastActivityAt s; operationContext := operationContext s |}.

Definition set_lastActivityAt (v : Z) (s : AgentSession) : AgentSession :=
  {| pendingPrompt := pendingPrompt s; abortController := abortController s;
     claudeSessionId := claudeSessionId s; permissionMode := permissionMode s;
     currentPlan := currentPlan s; thoughtStreaming := thoughtStreaming s;
     lastActivityAt := v; operationContext := operationContext s |}.

(** What the constructor reads from the environment. *)
Record Config := {
  maxTurns : Z;                              (* ACP_MAX_TURNS *)
  defaultPermissionMode : PermissionMode;    (* ACP_PERMISSION_MODE *)
  debug : bool;                              (* ACP_DEBUG === "true" *)
  pathToClaudeCodeExecutable : option string;
  cwd : string                               (* process.cwd() *)
}.

(** The variables of the environment that the constructor reads; [None]
    is a variable that is not set. *)
Record Environment := {
  ACP_MAX_TURNS : option string;
  ACP_PERMISSION_MODE : option string;
  ACP_DEBUG : option string;
  ACP_PATH_TO_CLAUDE_CODE_EXECUTABLE : option string;
  process_cwd : string
}.

Definition quoted (s : string) : string :=
  String (ascii_of_nat 34) s ++ String (ascii_of_nat 34) EmptyString.

Definition validModes : list (string * PermissionMode) :=
  [ ("default", default_mode); ("acceptEdits", acceptEdits);
    ("bypassPermissions", bypassPermissions); ("plan", plan_mode) ].

(** [validModes.includes(mode)], with the mode it names. *)
Definition modeNamed (mode : string) : option PermissionMode :=
  option_map snd (List.find (fun m => String.eqb (fst m) mode) validModes).

(** [validateConfig] *)
Definition validateConfig (env : Environment) : thrown + unit :=
  let maxTurns := default EmptyString (ACP_MAX_TURNS env) in
  if truthy_string maxTurns && negb (truthy_string maxTurns && every isDigit maxTurns)
  then inl (Error ("Invalid ACP_MAX_TURNS: " ++ quoted maxTurns
                   ++ " must be a positive integer"))
  else
    let permissionMode := default EmptyString (ACP_PERMISSION_MODE env) in
    if truthy_string permissionMode
       && negb (match modeNamed permissionMode with Some _ => true | None => false end)
    then inl (Error ("Invalid ACP_PERMISSION_MODE: " ++ quoted permissionMode
                     ++ ". Must be one of: "
                     ++ join ", " (map fst validModes)))
    else inr tt.

(** [parseMaxTurns] *)
Definition parseMaxTurns (env : Environment) : thrown + number :=
  let value := default EmptyString (ACP_MAX_TURNS env) in
  if negb (truthy_string value) then inr (Finite 100)
  else
    let parsed := parseInt value in
    if isNaN parsed || negative parsed
    then inl (Error ("Invalid ACP_MAX_TURNS: " ++ quoted value
                     ++ " must be a non-negative integer"))
    else inr parsed.

(** [parsePermissionMode] *)
Definition parsePermissionMode (env : Environment) : PermissionMode :=
  match ACP_PERMISSION_MODE env with
  | Some mode => default default_mode (modeNamed mode)
  | None => default_mode
  end.

(** The fields the constructor sets from the environment. *)
Record Settings := {
  settings_maxTurns : number;
  settings_defaultPermissionMode : PermissionMode;
  settings_pathToClaudeCodeExecutable : option string
}.

(** The constructor, as far as the configuration goes: the fields it sets,
    or what it throws. *)
Definition configure (env : Environment) : thrown + Settings :=
  match validateConfig env with
  | inl e => inl e
  | inr _ =>
      match parseMaxTurns env with
      | inl e => inl e
      | inr maxTurns =>
          inr {| settings_maxTurns := maxTurns;
                 settings_defaultPermissionMode := parsePermissionMode env;
                 settings_pathToClaudeCodeExecutable :=
                   ACP_PATH_TO_CLAUDE_CODE_EXECUTABLE env |}
      end
  end.

(** The configuration the methods of the agent work with, for fields set by
    the constructor whose limit of turns is finite: [Config] holds the limit
    as an integer.  [ACP_DEBUG] and the working directory are read where
    they are used. *)
Definition config_of (env : Environment) (s : Settings) : option Config :=
  match settings_maxTurns s with
  | Finite n =>
      Some {| maxTurns := n;
              defaultPermissionMode := settings_defaultPermissionMode s;
              debug := match ACP_DEBUG env with
                       | Some v => String.eqb v "true"
                       | None => false
                       end;
              pathToClaudeCodeExecutable :=
                settings_pathToClaudeCodeExecutable s;
              cwd := process_cwd env |}
  | _ => None
  end.

Record ToolCallLocation := {
  path : string;
  line : option Z
}.

Record ToolCall := {
  toolCallId : string;
  tool_title : string;
  tool_kind : string;
  rawInput : option json;
  locations : list ToolCallLocation
}.

(** The parameters of [session/request_permission]; the tool call is
    [pending]. *)
Record PermissionRequest := {
  request_sessionId : string;
  toolCall : ToolCall;
  options : list PermissionOption
}.

(** [response.outcome] *)
Inductive PermissionOutcome :=
  | outcome_cancelled
  | outcome_selected (optionId : string)
  | outcome_unknown (tag : string).

(** [options] given to the SDK. *)
Record QueryOptions := {
  query_permissionMode : option PermissionMode;
  query_executable : option string;
  resume : option string;
  query_maxTurns : option Z
}.

Record QueryArgs := {
  query_prompt : string;
  query_options : QueryOptions
}.

(** One message of the stream the SDK returns, and whether the host's
    [session/cancel] was handled while the turn waited for it. *)
Record StreamItem := {
  sdkMessage : gmap string json;    (* an [SDKMessage] is an object *)
  cancel_before : bool
}.

(** The stream: it ends normally or by throwing. *)
Record Stream := {
  items : list StreamItem;
  cancel_before_end : bool;
  failure : option thrown
}.

Inductive ContentBlock :=
  | text_block (text : string)
  | other_block (type : string).

Record PromptRequest := {
  prompt_sessionId : string;
  prompt : list ContentBlock
}.

Inductive StopReason := end_turn | cancelled.

(** What the environment decides during one turn. *)
Record TurnEnv := {
  prompt_slot : bool;             (* startOperation in [prompt] *)
  monitor_clock : ContextMonitor.clock;
  activity_now : Z;               (* session.lastActivityAt = Date.now() *)
  query_slot : bool;              (* startOperation in [executePrompt] *)
  breaker_clock : CircuitBreaker.clock;
  cancel_while_starting : bool    (* session/cancel during the start *)
}.

Section Run.

(** The state of the SDK and of whatever it talks to. *)
Context {W : Type}.

Record agent := {
  sessions : gmap string AgentSession;
  contextMonitor : gmap string ContextMonitor.SessionStats;
  claudeSDKCircuitBreaker : CircuitBreaker.breaker;
  outbox : list SessionNotification;          (* client.sessionUpdate, in order *)
  permissionRequests : list PermissionRequest; (* client.requestPermission *)
  sdk : W
}.

Definition with_sessions (v : gmap string AgentSession) (a : agent) : agent :=
  {| sessions := v; contextMonitor := contextMonitor a;
     claudeSDKCircuitBreaker := claudeSDKCircuitBreaker a;
     outbox := outbox a; permissionRequests := permissionRequests a;
     sdk := sdk a |}.

Definition with_contextMonitor (v : gmap string ContextMonitor.SessionStats)
    (a : agent) : agent :=
  {| sessions := sessions a; contextMonitor := v;
     claudeSDKCircuitBreaker := claudeSDKCircuitBreaker a;
     outbox := outbox a; permissionRequests := permissionRequests a;
     sdk := sdk a |}.

Definition with_breaker (b : CircuitBreaker.breaker) (w : W) (a : agent) : agent :=
  {| sessions := sessions a; contextMonitor := contextMonitor a;
     claudeSDKCircuitBreaker := b;
     outbox := outbox a; permissionRequests := permissionRequests a;
     sdk := w |}.

Definition with_outbox (v : list SessionNotification) (a : agent) : agent :=
  {| sessions := sessions a; contextMonitor := contextMonitor a;
     claudeSDKCircuitBreaker := claudeSDKCircuitBreaker a;
     outbox := v; permissionRequests := permissionRequests a;
     sdk := sdk a |}.

Definition with_permissionRequests (v : list PermissionRequest) (a : agent) : agent :=
  {| sessions := sessions a; contextMonitor := contextMonitor a;
     claudeSDKCircuitBreaker := claudeSDKCircuitBreaker a;
     outbox := outbox a; permissionRequests := v;
     sdk := sdk a |}.

(** A method of the agent: it returns or throws, and changes the agent. *)
Definition M (A : Type) : Type := agent -> (thrown + A) * agent.

Definition ret {A} (x : A) : M A := fun a => (inr x, a).
Definition throw {A} (e : thrown) : M A := fun a => (inl e, a).
Definition bind {A B} (m : M A) (k : A -> M B) : M B :=
  fun a => match m a with
           | (inr x, a') => k x a'
           | (inl e, a') => (inl e, a')
           end.
Definition modify (f : agent -> agent) : M unit := fun a => (inr tt, f a).
Definition when (b : bool) (m : M unit) : M unit := if b then m else ret tt.

(** [try { m } catch (e) { h e }] *)
Definition try_catch {A} (m : M A) (h : thrown -> M A) : M A :=
  fun a => match m a with
           | (inl e, a') => h e a'
           | r => r
           end.

(** [try { m } finally { f }] for a block [f] that cannot throw. *)
Definition try_finally {A} (m : M A) (f : agent -> agent) : M A :=
  fun a => let '(r, a') := m a in (r, f a').

End Run.

Arguments agent : clear implicits.
Arguments M : clear implicits.

Declare Scope agent_scope.
Delimit Scope agent_scope with agent.
Notation "x <- m ;; k" := (bind m (fun x => k))
  (at level 100, m at next level, right associativity) : agent_scope.
Notation "m ;; k" := (bind m (fun _ => k))
  (at level 100, right associativity) : agent_scope.

(** *** The methods of [ClaudeACPAgent] *)

Section Methods.

Context {W : Type}.

Variable cfg : Config.

(** [query] of the SDK: it rejects or resolves to a stream. *)
Variable query : QueryArgs -> W -> (thrown + Stream) * W.

(** [handleMessage]: the translation of one SDK message into updates. *)
Variable handleMessage : string -> gmap string json -> M W unit.

(** Renderings of floating-point numbers: [(x * 100).toFixed(1)] and
    [Math.round(x * 100)]. *)
Variable toFixed1 : Q -> string.
Variable roundPercent : Q -> Z.

(** [ToolEnhancer]: the descriptive fields of a tool call. *)
Variable generateEnhancedToolTitle : ToolOperationContext -> string.
Variable mapToolKind : string -> string.
Variable extractToolLocations : ToolOperationContext -> list ToolCallLocation.

Local Open Scope agent_scope.

(** [client.sessionUpdate] *)
Definition sessionUpdate (sid : string) (u : SessionUpdate) : M W unit :=
  modify (fun a =>
    with_outbox (outbox a ++ [ {| sessionId := sid; update := u |} ])%list a).

(** [getSession] *)
Definition getSession (sid : string) : M W AgentSession :=
  fun a => match sessions a !! sid with
           | Some session => (inr session, a)
           | None => (inl (Error ("Session " ++ sid ++ " not found")), a)
           end.

(** A session object held in a local variable is named by its identifier:
    a session is bound to its identifier when it is created and is taken out
    of the map by [destroy] only.  Reading through an identifier that is not
    in the map gives [blank]; writing through it does nothing. *)
Definition blank : AgentSession :=
  {| pendingPrompt := false; abortController := None;
     claudeSessionId := None; permissionMode := None;
     currentPlan := None; thoughtStreaming := false;
     lastActivityAt := 0; operationContext := None |}.

Definition session_of (sid : string) (a : agent W) : AgentSession :=
  default blank (sessions a !! sid).

Definition read {A} (sid : string) (field : AgentSession -> A) : M W A :=
  fun a => (inr (field (session_of sid a)), a).

Definition write (sid : string) (f : AgentSession -> AgentSession) : M W unit :=
  modify (fun a => with_sessions (alter f sid (sessions a)) a).

(** [session.abortController?.signal.aborted] *)
Definition aborted (session : AgentSession) : bool :=
  match abortController session with
  | Some fired => fired
  | None => false
  end.

(** [cancel] *)
Definition cancel (sid : string) : M W unit :=
  fun a =>
    match sessions a !! sid with
    | Some session =>
        match abortController session with
        | Some _ =>
            write sid (fun s => set_pendingPrompt false
                                  (set_abortController (Some true) s)) a
        | None => (inr tt, a)
        end
    | None => (inr tt, a)
    end.

(** [saveSessionState] writes a file; its own [catch] swallows every
    failure and no field of the agent changes. *)
Definition saveSessionState (sid : string) : M W unit := ret tt.

(** [sendContextWarning] *)
Definition sendContextWarning (sid : string) (w : ContextMonitor.ContextWarning)
  : M W unit :=
  let usagePercent := pretty (roundPercent (ContextMonitor.warned_usage w)) in
  let text :=
    match ContextMonitor.level w with
    | ContextMonitor.critical =>
        "Context near limit (" ++ usagePercent ++ "%) - consider new session"
    | ContextMonitor.warning =>
        "Context usage: " ++ usagePercent ++ "%"
    end in
  sessionUpdate sid (agent_message_chunk text).

Definition RETRY_TEXT : string :=
  "[RETRY] Service temporarily unavailable - retrying automatically".

(** The text [sendErrorMessage] shows for an error. *)
Definition errorText (e : thrown) : string :=
  let errorMessage := Js.errorMessage e in
  let isCircuitBreaker := includes "Circuit breaker is OPEN" errorMessage in
  if isCircuitBreaker then RETRY_TEXT else "[ERROR] Error: " ++ errorMessage.

(** [sendErrorMessage] *)
Definition sendErrorMessage (sid : string) (e : thrown) : M W unit :=
  sessionUpdate sid (agent_message_chunk (errorText e)).

(** The text of the bypass report, as UTF-8. *)
Definition BYPASS_TEXT : string :=
  "⏵⏵ bypass mode active - permissions will be bypassed for file operations".

(** [reportBypassMode] *)
Definition reportBypassMode (sid : string) : M W unit :=
  sessionUpdate sid (agent_message_chunk BYPASS_TEXT).

(** [sendAgentThought] *)
Definition sendAgentThought (sid : string) (thought : string) : M W unit :=
  sessionUpdate sid (agent_thought_chunk thought).

(** [indicator.split(" ")[1] || indicator] *)
Definition secondWord (indicator : string) : string :=
  match split " "%char indicator with
  | _ :: w :: _ => if truthy_string w then w else indicator
  | _ => indicator
  end.

(** [addModeIndicators] *)
Definition addModeIndicators (sid : string) (title : option string)
  : M W string :=
  session <- getSession sid ;;
  let indicators :=
    (["⏸ plan mode"]
     ++ (if debug cfg then ["[DEBUG] debug mode"] else [])
     ++ (if truthy_string (default EmptyString (claudeSessionId session))
         then ["[RESUME] resumed session"] else [])
     ++ (match operationContext session with
         | Some ctx => if (0 <? size ctx)%nat then ["[TOOLS] tools active"] else []
         | None => []
         end)
     ++ (if 0 <? maxTurns cfg
         then [("[TURNS] max-turns:" ++ pretty (maxTurns cfg))%string] else []))%list in
  let indicatorString := join " " indicators in
  match title with
  | Some t =>
      if truthy_string t then
        if existsb (fun indicator => includes (secondWord indicator) t) indicators
        then ret t
        else ret (indicatorString ++ " - " ++ t)
      else ret indicatorString
  | None => ret indicatorString
  end.

(** The indicators of a session, as [addModeIndicators] collects them. *)
Definition modeIndicators (session : AgentSession) : list string :=
  (["⏸ plan mode"]
   ++ (if debug cfg then ["[DEBUG] debug mode"] else [])
   ++ (if truthy_string (default EmptyString (claudeSessionId session))
       then ["[RESUME] resumed session"] else [])
   ++ (match operationContext session with
       | Some ctx => if (0 <? size ctx)%nat then ["[TOOLS] tools active"] else []
       | None => []
       end)
   ++ (if 0 <? maxTurns cfg
       then [("[TURNS] max-turns:" ++ pretty (maxTurns cfg))%string] else []))%list.

(** [sendPlanUpdate] *)
Definition sendPlanUpdate (sid : string) (entries : list PlanEntry) : M W unit :=
  enhancedEntries <-
    match entries with
    | first :: rest =>
        t <- addModeIndicators sid (title first) ;;
        ret ({| content := content first; priority := priority first;
                status := status first; title := Some t |} :: rest)
    | [] => ret entries
    end ;;
  sessionUpdate sid (plan enhancedEntries).

(** [generateAndSendPlan] *)
Definition generateAndSendPlan (sid : string) (c : PromptComplexity) : M W unit :=
  _ <- getSession sid ;;
  let entries := synthesizePlan (summary c) (estimatedSteps c) in
  write sid (set_currentPlan (Some entries)) ;;
  sendPlanUpdate sid entries.

(** The text of a prompt: its text blocks, joined. *)
Definition promptTextOf (blocks : list ContentBlock) : string :=
  join EmptyString (omap (fun b => match b with
                          | text_block t => Some t
                          | other_block _ => None
                          end) blocks).

(** [contextMonitor.addMessage] on the monitor of the agent. *)
Definition addMessage (sid content : string) (c : ContextMonitor.clock)
  : M W (option ContextMonitor.ContextWarning) :=
  fun a =>
    let '(m, w) :=
      ContextMonitor.addMessage toFixed1 (contextMonitor a) sid content None c in
    (inr w, with_contextMonitor m a).

(** [claudeSDKCircuitBreaker.execute]; a [session/cancel] handled while the
    call is awaited takes effect before the turn goes on. *)
Definition breakerExecute (sid : string) (args : QueryArgs) (env : TurnEnv)
  : M W Stream :=
  fun a =>
    let '(b, w, out) :=
      CircuitBreaker.execute query CircuitBreaker.CLAUDE_SDK_CIRCUIT_OPTIONS
        (claudeSDKCircuitBreaker a) (breaker_clock env) args (sdk a) in
    let a1 := with_breaker b w a in
    let a2 := if cancel_while_starting env then snd (cancel sid a1) else a1 in
    match out with
    | CircuitBreaker.Returned messages => (inr messages, a2)
    | CircuitBreaker.Rethrown e => (inl e, a2)
    | CircuitBreaker.FailFast message => (inl (Error message), a2)
    end.

(** The [for await] loop of [executePrompt] and the statements after it. *)
Fixpoint consume (sid : string) (pieces : list StreamItem)
    (cancel_at_end : bool) (ending : option thrown) : M W StopReason :=
  match pieces with
  | [] =>
      when cancel_at_end (cancel sid) ;;
      match ending with
      | Some e => throw e
      | None =>
          write sid (set_pendingPrompt false) ;;
          saveSessionState sid ;;
          ret end_turn
      end
  | piece :: rest =>
      when (cancel_before piece) (cancel sid) ;;
      fired <- read sid aborted ;;
      if fired then
        saveSessionState sid ;; ret cancelled
      else
        match sdkMessage piece !! "session_id" with
        | Some (JStr id) => write sid (set_claudeSessionId (Some id))
        | _ => ret tt
        end ;;
        handleMessage sid (sdkMessage piece) ;;
        consume sid rest cancel_at_end ending
  end.

(** The [try] block of [executePrompt] up to the reservation of the
    operation slot: the text of the prompt and the options of the query. *)
Definition preflight (params : PromptRequest) (sid : string) (env : TurnEnv)
  : M W QueryArgs :=
  let promptText := promptTextOf (prompt params) in
  contextWarning <- addMessage sid promptText (monitor_clock env) ;;
  match contextWarning with
  | Some w => sendContextWarning sid w
  | None => ret tt
  end ;;
  previousPermissionMode <- read sid permissionMode ;;
  write sid (set_permissionMode
               (Some (parsePromptPermissionMode (defaultPermissionMode cfg)
                        promptText previousPermissionMode))) ;;
  mode <- read sid permissionMode ;;
  when (match mode, previousPermissionMode with
        | Some bypassPermissions, Some bypassPermissions => false
        | Some bypassPermissions, _ => true
        | _, _ => false
        end)
       (reportBypassMode sid) ;;
  resumeId <- read sid claudeSessionId ;;
  let queryOptions :=
    {| query_permissionMode := mode;
       query_executable := pathToClaudeCodeExecutable cfg;
       resume := resumeId;
       query_maxTurns := if 0 <? maxTurns cfg then Some (maxTurns cfg) else None |} in
  let complexity := analyzePromptComplexity promptText in
  write sid (set_lastActivityAt (activity_now env)) ;;
  streaming <- read sid thoughtStreaming ;;
  when (streaming && isComplex complexity)
       (sendAgentThought sid ("Analyzing request: " ++ summary complexity)) ;;
  when (needsPlan complexity) (generateAndSendPlan sid complexity) ;;
  ret {| query_prompt := promptText; query_options := queryOptions |}.

(** The rest of the [try] block: the backend stream is started through the
    circuit breaker and consumed. *)
Definition stream_turn (sid : string) (args : QueryArgs) (env : TurnEnv)
  : M W StopReason :=
  (if query_slot env then ret tt
   else throw (Error "System resources exhausted - cannot execute Claude query")) ;;
  messages <- breakerExecute sid args env ;;
  write sid (set_pendingPrompt true) ;;
  consume sid (items messages) (cancel_before_end messages) (failure messages).

(** The [try] block of [executePrompt]. *)
Definition executePrompt_try (params : PromptRequest) (sid : string)
    (env : TurnEnv) : M W StopReason :=
  args <- preflight params sid env ;;
  stream_turn sid args env.

(** The [catch] block of [executePrompt]. *)
Definition executePrompt_catch (sid : string) (e : thrown) : M W StopReason :=
  fired <- read sid aborted ;;
  if fired then
    saveSessionState sid ;; ret cancelled
  else
    sendErrorMessage sid e ;;
    saveSessionState sid ;;
    ret end_turn.

(** The [finally] block of [executePrompt]. *)
Definition executePrompt_finally (sid : string) (a : agent W) : agent W :=
  with_sessions
    (alter (fun s => set_abortController None (set_pendingPrompt false s))
       sid (sessions a)) a.

(** [executePrompt] *)
Definition executePrompt (params : PromptRequest) (sid : string) (env : TurnEnv)
  : M W StopReason :=
  try_finally
    (try_catch (executePrompt_try params sid env) (executePrompt_catch sid))
    (executePrompt_finally sid).

(** [prompt]; [withPerformanceTracking] passes the result and the error of
    its argument through. *)
Definition prompt_ (params : PromptRequest) (env : TurnEnv) : M W StopReason :=
  let sid := prompt_sessionId params in
  session <- getSession sid ;;
  if pendingPrompt session then
    throw (Error "Session is busy processing another prompt")
  else
    match abortController session with
    | Some _ => write sid (set_abortController (Some true))
    | None => ret tt
    end ;;
    write sid (set_abortController (Some false)) ;;
    if prompt_slot env then executePrompt params sid env
    else throw (Error "System resources exhausted - cannot process prompt").

(** The host's side of [client.requestPermission]: it answers or the call
    throws. *)
Definition Host : Type := PermissionRequest -> thrown + PermissionOutcome.

Definition requestPermission (host : Host) (request : PermissionRequest)
  : M W PermissionOutcome :=
  fun a =>
    let a' := with_permissionRequests
                (permissionRequests a ++ [request])%list a in
    match host request with
    | inr outcome => (inr outcome, a')
    | inl e => (inl e, a')
    end.

(** The request [requestEnhancedPermission] builds for an operation. *)
Definition requestFor (sid toolCallId : string) (context : ToolOperationContext)
  : PermissionRequest :=
  {| request_sessionId := sid;
     toolCall :=
       {| toolCallId := toolCallId;
          tool_title := generateEnhancedToolTitle context;
          tool_kind := mapToolKind (toolName context);
          rawInput := if isValidInput (input context)
                      then input context else None;
          locations := extractToolLocations context |};
     options := generatePermissionOptions context |}.

(** [requestEnhancedPermission] *)
Definition requestEnhancedPermission (host : Host) (sid toolCallId : string)
    (context : ToolOperationContext) : M W bool :=
  session <- getSession sid ;;
  let mode := default (defaultPermissionMode cfg) (permissionMode session) in
  if PermissionMode_eqb mode bypassPermissions then ret true
  else if PermissionMode_eqb mode acceptEdits && isAutoApprovableOperation context
  then ret true
  else if requiresExplicitPermission (cwd cfg) context then
    try_catch
      (let permissionRequest := requestFor sid toolCallId context in
       outcome <- requestPermission host permissionRequest ;;
       match outcome with
       | outcome_cancelled => ret false
       | outcome_selected id =>
           match List.find (fun opt => String.eqb (optionId opt) id)
                   (options permissionRequest) with
           | Some selectedOption =>
               ret (PermissionOptionKind_eqb (kind selectedOption) allow_once
                    || PermissionOptionKind_eqb (kind selectedOption) allow_always)
           | None => ret false
           end
       | outcome_unknown _ => ret false
       end)
      (fun _ =>
         ret (PermissionMode_eqb mode acceptEdits
              && isAutoApprovableOperation context))
  else ret true.

(** [updatePlanForToolCompletion]; the result is [updated]: when it is
    [true] the plan is sent to the host 500 ms later, as it is then. *)
Definition updatePlanForToolCompletion (sid : string) : M W bool :=
  session <- getSession sid ;;
  match currentPlan session with
  | Some entries =>
      let '(entries', updated) := advancePlan entries in
      write sid (set_currentPlan (Some entries')) ;;
      ret updated
  | None => ret false
  end.

End Methods.

(** [m] run in [a] returns, with a result and a final state in [P]. *)
Definition returns {W A} (m : M W A) (a : agent W)
    (P : A -> agent W -> Prop) : Prop :=
  exists x a', m a = (inr x, a') /\ P x a'.

(** Session [sid] exists and its permission mode is [mode]. *)
Definition has_mode {W} (sid : string) (mode : option PermissionMode)
    (a : agent W) : Prop :=
  exists s, sessions a !! sid = Some s /\ permissionMode s = mode.

(** The state in which a turn ends when its [try] block threw [e] in state
    [a1] and the cancel token has not fired: one more notification, then the
    [finally] block. *)
Definition in_band {W} (sid : string) (e : thrown) (a1 : agent W) : agent W :=
  executePrompt_finally sid
    (with_outbox
       (outbox a1 ++ [ {| sessionId := sid;
                          update := agent_message_chunk (errorText e) |} ])%list
       a1).

(** What the host reads of a plan entry. *)
Definition core (e : PlanEntry) : string * Priority * PlanStatus :=
  (content e, priority e, status e).

(** [a'] differs from [a] at most in the sessions and in what was sent to
    the host: the monitor, the breaker and the SDK are as they were. *)
Definition same_backend {W} (a a' : agent W) : Prop :=
  contextMonitor a' = contextMonitor a
  /\ claudeSDKCircuitBreaker a' = claudeSDKCircuitBreaker a
  /\ sdk a' = sdk a.

(** What the pre-flight of a turn leaves of the session [s] it works on, in
    [s']: all but the mode, the plan and the time of the last activity. *)
Definition kept (s s' : AgentSession) : Prop :=
  pendingPrompt s' = pendingPrompt s
  /\ abortController s' = abortController s
  /\ claudeSessionId s' = claudeSessionId s
  /\ thoughtStreaming s' = thoughtStreaming s.

(** The state [a'] of the agent during the pre-flight of a turn of session
    [sid], started in [a] with the session [s]: the session is there, with
    mode [mode]; the breaker, the SDK, the permission requests and the other
    sessions are as in [a]. *)
Definition during {W} (sid : string) (s : AgentSession) (a : agent W)
    (mode : option PermissionMode) (a' : agent W) : Prop :=
  (exists s', sessions a' !! sid = Some s' /\ permissionMode s' = mode /\ kept s s')
  /\ claudeSDKCircuitBreaker a' = claudeSDKCircuitBreaker a
  /\ sdk a' = sdk a
  /\ permissionRequests a' = permissionRequests a
  /\ forall other, other <> sid -> sessions a' !! other = sessions a !! other.

End Agent.

(** ** [ToolEnhancer] (unnamed/part_008) *)

Module ToolEnhancer.
Import Js Agent.

(** [inferOperationType] *)
Definition inferOperationType (toolName : string) : OperationType :=
  let toolLower := toLowerCase toolName in
  if includes "read" toolLower || includes "cat" toolLower
     || includes "show" toolLower then op_read
  else if includes "write" toolLower || includes "create" toolLower
          || includes "edit" toolLower then op_edit
  else if includes "delete" toolLower || includes "remove" toolLower
          || includes "rm" toolLower then op_delete
  else if includes "move" toolLower || includes "mv" toolLower
          || includes "rename" toolLower then op_move
  else if includes "grep" toolLower || includes "search" toolLower
          || includes "find" toolLower then op_search
  else if includes "run" toolLower || includes "exec" toolLower
          || includes "bash" toolLower then op_execute
  else if includes "fetch" toolLower || includes "curl" toolLower
          || includes "web" toolLower then op_other
  else op_other.

Definition fileProps : list string :=
  ["file"; "path"; "filepath"; "file_path"; "target"; "source"; "destination"].
Definition arrayProps : list string := ["files"; "paths"; "targets"].

(** [[...new Set(files)]]: the first occurrence of each string, in order. *)
Fixpoint unique (seen files : list string) : list string :=
  match files with
  | [] => []
  | f :: rest =>
      if existsb (String.eqb f) seen then unique seen rest
      else f :: unique (f :: seen) rest
  end.

Definition stringOf (v : json) : option string :=
  match v with JStr s => Some s | _ => None end.

(** The strings [extractAffectedFiles] collects, before duplicates are
    removed. *)
Definition collectFiles (inputObj : gmap string json) : list string :=
  (omap (fun prop => inputObj !! prop ≫= stringOf) fileProps
   ++ concat (map (fun prop =>
                     match inputObj !! prop with
                     | Some (JArr items) => omap stringOf items
                     | _ => []
                     end) arrayProps))%list.

(** [extractAffectedFiles] *)
Definition extractAffectedFiles (input : option json) : option (list string) :=
  match input with
  | Some (JObj inputObj) =>
      let files := collectFiles inputObj in
      if (0 <? length files)%nat then Some (unique [] files) else None
  | _ => None
  end.

(** [assessComplexity] *)
Definition assessComplexity (toolName : string) (input : option json)
  : Complexity :=
  let toolLower := toLowerCase toolName in
  if includes "multiedit" toolLower || includes "refactor" toolLower
  then complex
  else if includes "search" toolLower || includes "grep" toolLower
          || includes "run" toolLower || includes "exec" toolLower
  then moderate
  else
    match input with
    | Some (JObj inputObj) =>
        let propCount := size inputObj in
        if (5 <? propCount)%nat then complex
        else if (2 <? propCount)%nat then moderate
        else if existsb (fun kv : string * json =>
                           match kv.2 with
                           | JStr s => (1000 <? String.length s)%nat
                           | JArr items => (10 <? length items)%nat
                           | _ => false
                           end) (map_to_list inputObj)
        then complex
        else simple
    | _ => simple
    end.

(** [analyzeToolOperation] *)
Definition analyzeToolOperation (toolName : string) (input : option json)
  : ToolOperationContext :=
  {| toolName := toolName;
     input := input;
     operationType := Some (inferOperationType toolName);
     affectedFiles := extractAffectedFiles input;
     complexity := Some (assessComplexity toolName input);
     streamingOperationId := None |}.

(** [extractLineNumber]:
    [inputObj.line || inputObj.line_number || inputObj.start_line]. *)
Definition extractLineNumber (input : option json) : option Z :=
  match input with
  | Some (JObj inputObj) =>
      let line :=
        if truthy (inputObj !! "line") then inputObj !! "line"
        else if truthy (inputObj !! "line_number") then inputObj !! "line_number"
        else inputObj !! "start_line" in
      match line with
      | Some (JNum n) => Some n
      | _ => None
      end
  | _ => None
  end.

(** [extractToolLocations] *)
Definition extractToolLocations (context : ToolOperationContext)
  : list ToolCallLocation :=
  match affectedFiles context with
  | Some files =>
      map (fun filePath =>
             {| path := filePath; line := extractLineNumber (input context) |})
        files
  | None => []
  end.

(** [mapToolKind] *)
Definition mapToolKind (toolName : string) : string :=
  let toolLower := toLowerCase toolName in
  if includes "read" toolLower || includes "cat" toolLower
     || includes "show" toolLower then "read"
  else if includes "write" toolLower || includes "edit" toolLower
          || includes "create" toolLower then "edit"
  else if includes "delete" toolLower || includes "remove" toolLower
  then "delete"
  else if includes "move" toolLower || includes "rename" toolLower then "move"
  else if includes "grep" toolLower || includes "search" toolLower
          || includes "find" toolLower then "search"
  else if includes "run" toolLower || includes "exec" toolLower
          || includes "bash" toolLower then "execute"
  else if includes "fetch" toolLower || includes "curl" toolLower
          || includes "web" toolLower then "fetch"
  else if includes "think" toolLower || includes "reason" toolLower
  then "think"
  else "other".

(** The name of an operation type, as the source writes it. *)
Definition kindOf (t : OperationType) : string :=
  match t with
  | op_create => "create"
  | op_read => "read"
  | op_edit => "edit"
  | op_delete => "delete"
  | op_move => "move"
  | op_search => "search"
  | op_execute => "execute"
  | op_other => "other"
  end.

End ToolEnhancer.

(** ** resource-manager.ts: [ResourceManager] (src/resource-manager.ts) *)

Module ResourceManager.

Record ResourceLimits := {
  maxMemoryMB : Z;
  maxFileDescriptors : Z;
  maxConcurrentOperations : Z;
  maxConcurrentSessions : Z;
  memoryWarningThresholdMB : Z;
  memoryCriticalThresholdMB : Z
}.

(** The limits of a manager built without options. *)
Definition defaultLimits : ResourceLimits :=
  {| maxMemoryMB := 1024; maxFileDescriptors := 1000;
     maxConcurrentOperations := 50; maxConcurrentSessions := 100;
     memoryWarningThresholdMB := 512; memoryCriticalThresholdMB := 768 |}.

Record manager := {
  concurrentOperations : gset string;
  activeSessions : gset string
}.

Definition new : manager :=
  {| concurrentOperations := ∅; activeSessions := ∅ |}.

Section Limits.

Variable limits : ResourceLimits.

(** [getStats().activeFileDescriptors] *)
Definition activeFileDescriptors (m : manager) : Z :=
  Z.of_nat (size (concurrentOperations m)) * 2
  + Z.of_nat (size (activeSessions m)) + 10.

(** [canStartOperation]; [memoryUsageMB] is [Math.round(rss / 1024 / 1024)]
    at the time of the call. *)
Definition canStartOperation (m : manager) (memoryUsageMB : Z) : bool :=
  (memoryUsageMB <=? memoryCriticalThresholdMB limits)
  && (Z.of_nat (size (concurrentOperations m)) <? maxConcurrentOperations limits)
  && (activeFileDescriptors m <? maxFileDescriptors limits).

(** [startOperation] *)
Definition startOperation (m : manager) (operationId : string)
    (memoryUsageMB : Z) : bool * manager :=
  if negb (canStartOperation m memoryUsageMB) then (false, m)
  else (true, {| concurrentOperations := {[ operationId ]} ∪ concurrentOperations m;
                 activeSessions := activeSessions m |}).

(** [finishOperation] *)
Definition finishOperation (m : manager) (operationId : string) : manager :=
  {| concurrentOperations := concurrentOperations m ∖ {[ operationId ]};
     activeSessions := activeSessions m |}.

(** [addSession] *)
Definition addSession (m : manager) (sessionId : string) : bool * manager :=
  if maxConcurrentSessions limits <=? Z.of_nat (size (activeSessions m))
  then (false, m)
  else (true, {| concurrentOperations := concurrentOperations m;
                 activeSessions := {[ sessionId ]} ∪ activeSessions m |}).

(** [removeSession] *)
Definition removeSession (m : manager) (sessionId : string) : manager :=
  {| concurrentOperations := concurrentOperations m;
     activeSessions := activeSessions m ∖ {[ sessionId ]} |}.

(** [destroy] *)
Definition destroy (m : manager) : manager := new.

(** What the users of a manager do with it. *)
Inductive action :=
  | StartOperation (operationId : string) (memoryUsageMB : Z)
  | FinishOperation (operationId : string)
  | AddSession (sessionId : string)
  | RemoveSession (sessionId : string)
  | Destroy.

Definition act (m : manager) (x : action) : manager :=
  match x with
  | StartOperation operationId memoryUsageMB =>
      snd (startOperation m operationId memoryUsageMB)
  | FinishOperation operationId => finishOperation m operationId
  | AddSession sessionId => snd (addSession m sessionId)
  | RemoveSession sessionId => removeSession m sessionId
  | Destroy => destroy m
  end.

Definition acts (m : manager) (xs : list action) : manager :=
  fold_left act xs m.

(** No more operations and sessions are active than the limits allow. *)
Definition within_limits (m : manager) : Prop :=
  Z.of_nat (size (concurrentOperations m)) <= Z.max 0 (maxConcurrentOperations limits)
  /\ Z.of_nat (size (activeSessions m)) <= Z.max 0 (maxConcurrentSessions limits).

End Limits.

End ResourceManager.

(** ** The specification's wording, for comparison with the code *)

Module Spec.
Import Js Agent.

(** The tokens of a command line: its pieces between white space. *)
Definition tokens (command : string) : list string :=
  List.filter truthy_string (splitWhite false command).

(** "the command string (first token or any token) matches a danger list" *)
Definition matchesDangerList (command : string) : bool :=
  existsb (fun token => existsb (String.eqb token) dangerousCommands)
    (tokens command).

(** Lexical normalization of a path: empty and [.] segments are dropped and
    [..] removes the segment before it. *)
Definition normalize (path : string) : list string :=
  fold_left
    (fun acc segment =>
       if String.eqb segment ".." then removelast acc
       else if String.eqb segment "." || negb (truthy_string segment) then acc
       else acc ++ [segment])%list
    (split "/"%char path) [].

Fixpoint isPrefixOf (xs ys : list string) : bool :=
  match xs, ys with
  | [], _ => true
  | x :: xs', y :: ys' => String.eqb x y && isPrefixOf xs' ys'
  | _ :: _, [] => false
  end.

(** "absolute and not lexically contained within [session.cwd] after
    normalization" *)
Definition escapes (cwd path : string) : bool :=
  startsWith "/" path && negb (isPrefixOf (normalize cwd) (normalize path)).

(** A path is written in normal form: it starts with a slash, and no
    segment after that is empty, [.] or [..]. *)
Definition plainSegment (segment : string) : bool :=
  truthy_string segment
  && negb (String.eqb segment ".") && negb (String.eqb segment "..").

Definition normalForm (path : string) : bool :=
  startsWith "/" path && forallb plainSegment (tl (split "/"%char path)).

(** [path] goes on within the last segment of [dir], as [/www/x] does for
    [/w]. *)
Definition continuesName (dir path : string) : bool :=
  startsWith dir path && negb (String.eqb path dir)
  && negb (startsWith (dir ++ "/") path).

(** The requires-confirmation test of the permission broker. *)
Definition requiresConfirmation (cwd : string) (context : ToolOperationContext)
  : bool :=
  match operationType context with
  | Some op_delete => true
  | Some op_execute =>
      matchesDangerList (commandOf (input context))
      || existsb (escapes cwd) (default [] (affectedFiles context))
  | _ => existsb (escapes cwd) (default [] (affectedFiles context))
  end.

Definition markers : list (string * PermissionMode) :=
  [ ("[ACP:PERMISSION:ACCEPT_EDITS]", acceptEdits);
    ("[ACP:PERMISSION:BYPASS]", bypassPermissions);
    ("[ACP:PERMISSION:DEFAULT]", default_mode) ].

(** "first match wins": the marker that starts at the least offset. *)
Fixpoint firstMarker (text : string) : option PermissionMode :=
  match List.find (fun m => startsWith (fst m) text) markers with
  | Some m => Some (snd m)
  | None =>
      match text with
      | EmptyString => None
      | String _ rest => firstMarker rest
      end
  end.

(** The plan for a prompt of three steps or more. *)
Definition threeStepPlan : list (string * Priority * PlanStatus) :=
  [ ("Analyze requirements", high, in_progress);
    ("Execute main implementation", high, pending);
    ("Validate and finalize changes", medium, pending) ].

End Spec.

(** ** Concrete inputs *)

Module Scenario.
Import Js Agent.

(** A backend that always rejects and counts how often it is invoked. *)
Definition rejecting (_ : unit) (n : nat) : (unit + unit) * nat := (inl tt, S n).

Definition two_strikes : CircuitBreaker.CircuitBreakerOptions :=
  {| CircuitBreaker.failureThreshold := 2; CircuitBreaker.successThreshold := 1;
     CircuitBreaker.timeout := 50; CircuitBreaker.monitoringPeriod := 1000 |}.

Definition at_time (t : Z) : CircuitBreaker.clock :=
  {| CircuitBreaker.now_cleanup := t; CircuitBreaker.now_gate := t;
     CircuitBreaker.now_settle := t; CircuitBreaker.now_reopen := t |}.

Definition two_rejections : list (CircuitBreaker.clock * unit) :=
  [(at_time 10, tt); (at_time 20, tt)].

(** The context monitor. *)
Definition plain (_ : Q) : string := EmptyString.
Definition whole (_ : Q) : Z := 0.

Definition noon : ContextMonitor.clock :=
  {| ContextMonitor.now_default := 1000; ContextMonitor.date_default := 1000;
     ContextMonitor.now_activity := 1000; ContextMonitor.date_update := 1000;
     ContextMonitor.now_sweep := 1000 |}.

(** Thirty-one minutes later, a hundred other sessions send a message each,
    and then "S" sends one again. *)
Definition later : ContextMonitor.clock :=
  {| ContextMonitor.now_default := 1861000; ContextMonitor.date_default := 1861000;
     ContextMonitor.now_activity := 1861000; ContextMonitor.date_update := 1861000;
     ContextMonitor.now_sweep := 1861000 |}.

Definition visitor (n : nat) : ContextMonitor.call :=
  {| ContextMonitor.call_session := "visitor-" ++ pretty n;
     ContextMonitor.call_content := "x";
     ContextMonitor.call_role := Some ContextMonitor.user;
     ContextMonitor.call_clock := later |}.

Definition crowd : list ContextMonitor.call := map visitor (seq 0 100).

Definition again : ContextMonitor.call :=
  {| ContextMonitor.call_session := "S";
     ContextMonitor.call_content := "hi";
     ContextMonitor.call_role := Some ContextMonitor.user;
     ContextMonitor.call_clock := later |}.

(** A connection whose handler answers nothing and whose parser rejects
    every line. *)
Definition mute (_ : json) (_ : option json) (c : Protocol.connection unit)
  : (thrown + option json) * Protocol.connection unit := (inr None, c).

Definition strict (_ : string) : thrown + json :=
  inl (Error "Unexpected token o in JSON at position 1").

Definition fresh : Protocol.connection unit :=
  {| Protocol.pendingResponses := ∅; Protocol.settlements := [];
     Protocol.nextRequestId := 0; Protocol.isDestroyed := false;
     Protocol.writeQueue := []; Protocol.written := []; Protocol.app := tt |}.

(** An agent with one session, "S", and an SDK that rejects every query. *)
Definition settings : Config :=
  {| maxTurns := 100; defaultPermissionMode := default_mode; debug := false;
     pathToClaudeCodeExecutable := None; cwd := "/w" |}.

Definition down (_ : QueryArgs) (n : nat) : (thrown + Stream) * nat :=
  (inl (Error "ECONNREFUSED"), S n).

(** An SDK whose own error mentions the circuit breaker of some service. *)
Definition UPSTREAM : string :=
  "upstream 503: Circuit breaker is OPEN for region eu".

Definition misleading (_ : QueryArgs) (n : nat) : (thrown + Stream) * nat :=
  (inl (Error UPSTREAM), S n).

Definition silent (_ : string) (_ : gmap string json) : M nat unit := ret tt.

Definition idle : agent nat :=
  {| sessions := {[ "S" := createSession default_mode 0 ]};
     contextMonitor := ∅;
     claudeSDKCircuitBreaker := CircuitBreaker.new;
     outbox := []; permissionRequests := []; sdk := 0%nat |}.

(** The same agent while a prompt of "S" is still pending. *)
Definition busy : agent nat :=
  {| sessions := {[ "S" := set_pendingPrompt true (createSession default_mode 0) ]};
     contextMonitor := ∅;
     claudeSDKCircuitBreaker := CircuitBreaker.new;
     outbox := []; permissionRequests := []; sdk := 0%nat |}.

Definition hi : PromptRequest :=
  {| prompt_sessionId := "S"; prompt := [text_block "hi"] |}.

Definition calm : TurnEnv :=
  {| prompt_slot := true; monitor_clock := noon; activity_now := 1000;
     query_slot := true; breaker_clock := at_time 1000;
     cancel_while_starting := false |}.

(** Tool operations. *)
Definition mkdir_add : ToolOperationContext :=
  {| toolName := "Bash";
     input := Some (JObj {[ "command" := JStr "mkdir add" ]});
     operationType := Some op_execute; affectedFiles := None;
     complexity := Some moderate; streamingOperationId := None |}.

Definition read_sibling : ToolOperationContext :=
  {| toolName := "Read";
     input := Some (JObj {[ "file_path" := JStr "/w/../etc/passwd" ]});
     operationType := Some op_read;
     affectedFiles := Some ["/w/../etc/passwd"];
     complexity := Some simple; streamingOperationId := None |}.

Definition read_neighbour : ToolOperationContext :=
  {| toolName := "Read";
     input := Some (JObj {[ "file_path" := JStr "/www/secret" ]});
     operationType := Some op_read;
     affectedFiles := Some ["/www/secret"];
     complexity := Some simple; streamingOperationId := None |}.

Definition read_outside : ToolOperationContext :=
  {| toolName := "Read";
     input := Some (JObj {[ "file_path" := JStr "/etc/passwd" ]});
     operationType := Some op_read;
     affectedFiles := Some ["/w/notes.txt"; "/etc/passwd"];
     complexity := Some simple; streamingOperationId := None |}.


Definition titled (context : ToolOperationContext) : string := toolName context.
Definition kinded (toolName : string) : string := "other".
Definition located (context : ToolOperationContext) : list ToolCallLocation := [].


(** Prompt texts. *)
Definition two_markers : string :=
  "[ACP:PERMISSION:BYPASS] but keep [ACP:PERMISSION:ACCEPT_EDITS] in mind".

Definition stepwise : string := "first write the test, then fix the parser".

(** A message for the context monitor, and uses of the monitor. *)
Definition hello : ContextMonitor.call :=
  {| ContextMonitor.call_session := "S";
     ContextMonitor.call_content := "Hello world";
     ContextMonitor.call_role := Some ContextMonitor.user;
     ContextMonitor.call_clock := noon |}.

Definition elsewhere : ContextMonitor.call :=
  {| ContextMonitor.call_session := "T";
     ContextMonitor.call_content := "Hello world";
     ContextMonitor.call_role := Some ContextMonitor.assistant;
     ContextMonitor.call_clock := noon |}.

Definition add_then_reset : list ContextMonitor.step :=
  [ContextMonitor.Add hello; ContextMonitor.Reset "S" 2000 2000].

(** Uses of a breaker. *)
Definition fail_force_close : list (CircuitBreaker.action (T := unit)) :=
  [ CircuitBreaker.Execute (at_time 10) tt; CircuitBreaker.ForceOpen None 20;
    CircuitBreaker.ForceClosed ].

(** A line cut in two by the transport, and a text of three lines. *)
Definition first_half : string := "{oo".
Definition second_half : string := "ps}" ++ String Protocol.EOL EmptyString.

Definition three_lines : string :=
  "a" ++ String Protocol.LF ("b" ++ String Protocol.LF "c").

(** An environment that asks for more turns than a double can count one by
    one. *)
Definition generous : Environment :=
  {| ACP_MAX_TURNS := Some "9007199254740993"; ACP_PERMISSION_MODE := None;
     ACP_DEBUG := None; ACP_PATH_TO_CLAUDE_CODE_EXECUTABLE := None;
     process_cwd := "/w" |}.

(** A turn for which no operation slot is free. *)
Definition crowded : TurnEnv :=
  {| prompt_slot := true; monitor_clock := noon; activity_now := 1000;
     query_slot := false; breaker_clock := at_time 1000;
     cancel_while_starting := false |}.

End Scenario.

(** ** Proof automation *)

(** Closes a goal with contradictory bounds on a ratio. *)
Ltac q_contra :=
  exfalso;
  match goal with
  | H1 : (?a < ?b)%Q, H2 : (?b <= ?a)%Q |- _ => exact (Qlt_not_le _ _ H1 H2)
  end.

(** Splits on the tests [includes k l] of a goal, one after the other. *)
Ltac decide_includes l :=
  repeat match goal with
         | H : Js.includes ?k l = _ |- context [Js.includes ?k l] => rewrite H
         | |- context [Js.includes ?k l] =>
             destruct (Js.includes k l) eqn:?; cbn [orb]; cbv iota
         end.

(** * Theorems *)

Module JsFacts.
Import Js.

Lemma startsWith_spec needle : forall hay,
  startsWith needle hay = true <-> exists rest, hay = needle ++ rest.
Proof.
  unfold startsWith.
  induction needle as [|c needle IH]; intros hay; simpl.
  - split; [intros _; by exists hay | intros _; by destruct hay].
  - destruct hay as [|d hay]; simpl.
    + split; [done | intros [rest H]; discriminate].
    + destruct (Ascii.ascii_dec c d) as [->|Hne].
      * rewrite IH. split; intros [rest H]; exists rest; [by rewrite H | by inversion H].
      * split; [done | intros [rest H]; inversion H; congruence].
Qed.

Lemma includes_nil needle : includes needle EmptyString = startsWith needle EmptyString.
Proof. unfold startsWith. cbn [includes]. by destruct (String.prefix needle EmptyString). Qed.

Lemma includes_cons needle c hay :
  includes needle (String c hay)
  = startsWith needle (String c hay) || includes needle hay.
Proof.
  unfold startsWith. cbn [includes].
  by destruct (String.prefix needle (String c hay)).
Qed.

Lemma includes_spec needle : forall hay,
  includes needle hay = true <-> exists before rest, hay = before ++ needle ++ rest.
Proof.
  induction hay as [|c hay IH].
  - rewrite includes_nil, startsWith_spec. split.
    + intros [rest H]. by exists EmptyString, rest.
    + intros (before & rest & H). destruct before; [by exists rest | discriminate].
  - rewrite includes_cons, orb_true_iff, startsWith_spec, IH. split.
    + intros [[rest H] | (before & rest & H)].
      * by exists EmptyString, rest.
      * exists (String c before), rest. simpl. by rewrite H.
    + intros (before & rest & H). destruct before as [|d before]; simpl in H.
      * left. by exists rest.
      * right. inversion H; subst. by exists before, rest.
Qed.

Lemma includes_append before needle rest :
  includes needle (before ++ needle ++ rest) = true.
Proof. apply includes_spec. by exists before, rest. Qed.

End JsFacts.

Module JsStrings.
Import Js JsFacts.

Lemma append_assoc (a b c : string) : (a ++ b) ++ c = a ++ (b ++ c).
Proof.
  induction a as [|x a IH]; [done|].
  change (String x ((a ++ b) ++ c) = String x (a ++ (b ++ c))). by rewrite IH.
Qed.

Lemma append_nil_r (s : string) : s ++ EmptyString = s.
Proof.
  induction s as [|c s IH]; [done|].
  change (String c (s ++ EmptyString) = String c s). by rewrite IH.
Qed.

Lemma append_cons (c : ascii) (a b : string) : String c a ++ b = String c (a ++ b).
Proof. done. Qed.

Lemma split_cons sep s : exists p ps, split sep s = p :: ps.
Proof.
  induction s as [|c s (p & ps & IH)]; [by eexists _, _|].
  simpl. destruct (Ascii.eqb c sep); [by eexists _, _|].
  rewrite IH. by eexists _, _.
Qed.

Lemma split_neq sep c s :
  Ascii.eqb c sep = false ->
  split sep (String c s)
  = String c (hd EmptyString (split sep s)) :: tl (split sep s).
Proof.
  intros H. simpl. rewrite H.
  by destruct (split_cons sep s) as (p & ps & ->).
Qed.

Lemma split_free sep s : free_of sep s = true -> split sep s = [s].
Proof.
  induction s as [|c s IH]; [done|].
  unfold free_of. simpl. intros [Hc Hs]%andb_true_iff.
  apply negb_true_iff in Hc. rewrite Hc, (IH Hs). done.
Qed.

Lemma split_pieces_free sep s : Forall (fun p => free_of sep p = true) (split sep s).
Proof.
  induction s as [|c s IH]; [by repeat constructor|].
  simpl. destruct (Ascii.eqb c sep) eqn:Hc.
  - by constructor.
  - destruct (split_cons sep s) as (p & ps & Hs). rewrite Hs in *.
    inversion IH as [|? ? Hp Hps]; subst. constructor; [|done].
    unfold free_of in *. simpl. by rewrite Hc, Hp.
Qed.

Lemma split_free_app sep p r :
  free_of sep p = true ->
  split sep (p ++ String sep r) = p :: split sep r.
Proof.
  induction p as [|c p IH]; intros Hp.
  - simpl. by rewrite Ascii.eqb_refl.
  - unfold free_of in Hp. simpl in Hp. apply andb_true_iff in Hp as [Hc Hp].
    apply negb_true_iff in Hc.
    rewrite append_cons. simpl. rewrite Hc, (IH Hp). done.
Qed.

(** What [split] makes of two texts put together: the last piece of the
    first is continued by the first piece of the second. *)
Lemma split_app sep a b :
  split sep (a ++ b)
  = (removelast (split sep a)
     ++ (List.last (split sep a) EmptyString ++ hd EmptyString (split sep b))%string
        :: tl (split sep b))%list.
Proof.
  induction a as [|c a IH].
  - change (split sep b
            = (EmptyString ++ hd EmptyString (split sep b))%string
              :: tl (split sep b)).
    by destruct (split_cons sep b) as (p & ps & ->).
  - rewrite append_cons. simpl. destruct (Ascii.eqb c sep) eqn:Hc.
    + rewrite IH. destruct (split_cons sep a) as (p & ps & ->). done.
    + rewrite IH. destruct (split_cons sep a) as (p & ps & ->).
      destruct ps as [|q qs]; done.
Qed.

Lemma last_split_free sep s :
  free_of sep (List.last (split sep s) EmptyString) = true.
Proof.
  pose proof (split_pieces_free sep s) as H.
  destruct (split_cons sep s) as (p & ps & Hs). rewrite Hs in *.
  clear Hs. revert p H. induction ps as [|q qs IH]; intros p H.
  - by inversion H.
  - inversion H; subst. by apply IH.
Qed.

(** [s.split(sep).join(sep)] is [s]. *)
Lemma join_split sep s : join (String sep EmptyString) (split sep s) = s.
Proof.
  induction s as [|c s IH]; [done|].
  simpl. destruct (Ascii.eqb c sep) eqn:Hc.
  - apply Ascii.eqb_eq in Hc as ->.
    destruct (split_cons sep s) as (p & ps & Hs). rewrite Hs in *.
    change (String sep (join (String sep EmptyString) (p :: ps)) = String sep s).
    by rewrite IH.
  - destruct (split_cons sep s) as (p & ps & Hs). rewrite Hs in *.
    destruct ps as [|q qs].
    + simpl in *. by rewrite IH.
    + change (String c (join (String sep EmptyString) (p :: q :: qs)) = String c s).
      by rewrite IH.
Qed.

(** [pieces.join(sep).split(sep)] is [pieces], when there is a piece and no
    piece holds the separator. *)
Lemma split_join sep pieces :
  pieces <> [] ->
  Forall (fun p => free_of sep p = true) pieces ->
  split sep (join (String sep EmptyString) pieces) = pieces.
Proof.
  induction pieces as [|p ps IH]; [done|]. intros _ H.
  inversion H as [|? ? Hp Hps]; subst.
  destruct ps as [|q qs].
  - simpl. by apply split_free.
  - change (split sep (p ++ String sep (join (String sep EmptyString) (q :: qs)))
            = p :: q :: qs).
    rewrite split_free_app by done. by rewrite IH.
Qed.

Lemma join_snoc sep pieces p :
  pieces <> [] ->
  join sep (pieces ++ [p]) = join sep pieces ++ sep ++ p.
Proof.
  induction pieces as [|q qs IH]; [done|]. intros _.
  destruct qs as [|r rs]; [done|].
  change (q ++ sep ++ join sep ((r :: rs) ++ [p])
          = (q ++ sep ++ join sep (r :: rs)) ++ sep ++ p).
  rewrite IH by done. by rewrite !append_assoc.
Qed.

Lemma trimStart_white s : every isWhiteSpace s = true -> trimStart s = EmptyString.
Proof.
  induction s as [|c s IH]; [done|]. simpl.
  intros [Hc Hs]%andb_true_iff. rewrite Hc. by apply IH.
Qed.

Lemma trimEnd_white s : every isWhiteSpace s = true -> trimEnd s = EmptyString.
Proof.
  induction s as [|c s IH]; [done|]. simpl.
  intros [Hc Hs]%andb_true_iff. by rewrite (IH Hs), Hc.
Qed.

Lemma trimEnd_empty s : trimEnd s = EmptyString -> every isWhiteSpace s = true.
Proof.
  induction s as [|c s IH]; [done|]. simpl.
  destruct (trimEnd s) eqn:Hs; [|done].
  destruct (isWhiteSpace c); [|done]. intros _. by rewrite IH.
Qed.

Lemma trimStart_every s :
  every isWhiteSpace (trimStart s) = true -> every isWhiteSpace s = true.
Proof.
  induction s as [|c s IH]; [done|]. simpl.
  destruct (isWhiteSpace c) eqn:Hc; [done|]. simpl. by rewrite Hc.
Qed.

(** A string trims to the empty string exactly when it is white space
    throughout. *)
Lemma trim_empty s : trim s = EmptyString <-> every isWhiteSpace s = true.
Proof.
  unfold trim. split.
  - intros H. by apply trimStart_every, trimEnd_empty.
  - intros H. by rewrite (trimStart_white s H).
Qed.

(** A text that occurs in a text that occurs in a third occurs in the
    third. *)
Lemma includes_trans a b c :
  includes a b = true -> includes b c = true -> includes a c = true.
Proof.
  intros (p & q & ->)%includes_spec (p' & q' & ->)%includes_spec.
  apply includes_spec. exists (p' ++ p), (q ++ q').
  by rewrite !append_assoc.
Qed.

End JsStrings.

Module CircuitBreakerFacts.
Import CircuitBreaker.

Section Lifecycle.

Context {T R E W : Type}.
Variable fn : T -> W -> (E + R) * W.
Variable opts : CircuitBreakerOptions.

Local Abbreviation exec := (execute fn opts).
Local Abbreviation runs := (run fn opts).

(** Decay and counting leave the state and the reopening time alone. *)
Lemma cleanup_state b now :
  state (cleanupOldFailures opts b now) = state b
  /\ nextAttempt (cleanupOldFailures opts b now) = nextAttempt b
  /\ successes (cleanupOldFailures opts b now) = successes b
  /\ lastFailureTime (cleanupOldFailures opts b now) = lastFailureTime b.
Proof.
  unfold cleanupOldFailures.
  destruct (lastFailureTime b) as [t|] eqn:Ht; [|by rewrite Ht].
  destruct (negb (t =? 0) && (t <? now - monitoringPeriod opts)); simpl; by rewrite ?Ht.
Qed.

(** No failure is old enough to decay: the counter is kept. *)
Lemma cleanup_recent b now t0 :
  (failures b = 0 \/ exists t, lastFailureTime b = Some t /\ t0 <= t) ->
  now <= t0 + monitoringPeriod opts ->
  failures (cleanupOldFailures opts b now) = failures b.
Proof.
  intros Hrec Hnow. unfold cleanupOldFailures.
  destruct (lastFailureTime b) as [t|] eqn:Ht; [|done].
  destruct (negb (t =? 0) && (t <? now - monitoringPeriod opts)) eqn:Hc; [|done].
  simpl. apply andb_true_iff in Hc as [_ Hlt]. apply Z.ltb_lt in Hlt.
  destruct Hrec as [H0 | (t' & Heq & Hle)].
  - rewrite H0. reflexivity.
  - inversion Heq; subst. lia.
Qed.

Lemma reject_step t0 k b c a w e w' :
  counting t0 k b -> 0 <= k -> in_window opts t0 c ->
  fn a w = (inl e, w') ->
  exists b', exec b c a w = (b', w', Rethrown e)
    /\ (k + 1 < failureThreshold opts -> counting t0 (k + 1) b')
    /\ (failureThreshold opts <= k + 1 -> state b' = OPEN).
Proof.
  intros (Hst & Hf & Hrec) Hk (Hc & Hg & Hs & Hr) Hfn.
  unfold execute, before_try.
  pose proof (cleanup_state (countCall b) (now_cleanup c)) as (Hcs & _ & _ & _).
  assert (Hcf : failures (cleanupOldFailures opts (countCall b) (now_cleanup c)) = k).
  { rewrite (cleanup_recent _ _ t0); simpl; [done | | lia].
    destruct Hrec as [-> | ?]; [left; congruence | by right]. }
  rewrite Hcs. simpl. rewrite Hst, Hfn.
  eexists; split; [reflexivity|].
  unfold onFailure; simpl. rewrite Hcs, Hcf. simpl. rewrite Hst. simpl.
  rewrite orb_false_r.
  split; intros Hcmp.
  - assert ((failureThreshold opts <=? k + 1) = false) as -> by (apply Z.leb_gt; lia).
    repeat split; simpl; try done. right. exists (now_settle c). split; [done | lia].
  - assert ((failureThreshold opts <=? k + 1) = true) as -> by (apply Z.leb_le; lia).
    done.
Qed.

Lemma reject_run t0 calls : forall k b w,
  counting t0 k b -> 0 <= k ->
  Forall (fun ca => in_window opts t0 (fst ca)) calls ->
  all_reject fn w calls ->
  (k + Z.of_nat (length calls) < failureThreshold opts ->
     counting t0 (k + Z.of_nat (length calls)) (fst (runs b w calls)))
  /\ (calls <> [] -> k + Z.of_nat (length calls) = failureThreshold opts ->
     state (fst (runs b w calls)) = OPEN).
Proof.
  induction calls as [|[c a] rest IH]; intros k b w Hinv Hk Hwin Hrej.
  - simpl. rewrite Z.add_0_r. split; [done | congruence].
  - inversion Hwin as [|? ? Hc Hrest]; subst. simpl in Hc.
    simpl in Hrej. destruct (fn a w) as [[e|r] w'] eqn:Hfn; [|done].
    destruct (reject_step t0 k b c a w e w' Hinv Hk Hc Hfn) as (b' & Hex & Hlt & Hge).
    simpl. rewrite Hex.
    replace (k + Z.of_nat (S (length rest))) with ((k + 1) + Z.of_nat (length rest)) by lia.
    destruct rest as [|ca rest'].
    + simpl. rewrite Z.add_0_r. split; [exact Hlt | intros _ Heq; apply Hge; lia].
    + assert (Hlen : 0 < Z.of_nat (length (ca :: rest'))) by (simpl; lia).
      split.
      * intros Hlt'.
        refine (proj1 (IH (k + 1) b' w' _ _ Hrest Hrej) Hlt'); [apply Hlt |]; lia.
      * intros _ Heq.
        refine (proj2 (IH (k + 1) b' w' _ _ Hrest Hrej) _ Heq);
          [apply Hlt; lia | lia | discriminate].
Qed.

Lemma all_reject_firstn j : forall calls w,
  all_reject fn w calls -> all_reject fn w (firstn j calls).
Proof.
  induction j as [|j IH]; intros [|[c a] rest] w H; simpl; try done.
  simpl in H. destruct (fn a w) as [[e|r] w']; [by apply IH | done].
Qed.

Lemma all_resolve_firstn j : forall calls w,
  all_resolve fn w calls -> all_resolve fn w (firstn j calls).
Proof.
  induction j as [|j IH]; intros [|[c a] rest] w H; simpl; try done.
  simpl in H. destruct (fn a w) as [[e|r] w']; [done | by apply IH].
Qed.

(** An open circuit whose reopening time is not reached fails fast. *)
Lemma open_fail_fast b c a w :
  state b = OPEN -> now_gate c < nextAttempt b ->
  exists b', exec b c a w = (b', w, FailFast CIRCUIT_OPEN)
    /\ state b' = OPEN /\ nextAttempt b' = nextAttempt b.
Proof.
  intros Hst Hlt. unfold execute, before_try.
  pose proof (cleanup_state (countCall b) (now_cleanup c)) as (Hcs & Hcn & _ & _).
  rewrite Hcs, Hcn. simpl. rewrite Hst.
  assert ((now_gate c <? nextAttempt b) = true) as -> by (apply Z.ltb_lt; lia).
  eexists; split; [reflexivity|]. by rewrite Hcs, Hcn.
Qed.

Lemma probe_passes k b c :
  probing k b c ->
  exists b1, before_try opts b c = (b1, true)
    /\ state b1 = HALF_OPEN /\ successes b1 = k.
Proof.
  unfold before_try.
  pose proof (cleanup_state (countCall b) (now_cleanup c)) as (Hcs & Hcn & Hck & _).
  intros [(Hst & Hk) | (Hst & Hdue & ->)]; rewrite Hcs; simpl; rewrite Hst.
  - eexists; split; [reflexivity|]. by rewrite Hcs, Hck.
  - rewrite Hcn. simpl.
    assert ((now_gate c <? nextAttempt b) = false) as -> by (apply Z.ltb_ge; lia).
    eexists; split; [reflexivity|]. done.
Qed.

Lemma resolve_step k b c a w r w' :
  probing k b c -> fn a w = (inr r, w') ->
  exists b', exec b c a w = (b', w', Returned r)
    /\ (k + 1 < successThreshold opts ->
        state b' = HALF_OPEN /\ successes b' = k + 1)
    /\ (successThreshold opts <= k + 1 -> state b' = CLOSED).
Proof.
  intros Hp Hfn. destruct (probe_passes k b c Hp) as (b1 & Hslot & Hst & Hk).
  unfold execute. rewrite Hslot, Hfn.
  eexists; split; [reflexivity|].
  unfold onSuccess. rewrite Hst, Hk.
  split; intros Hcmp.
  - assert ((successThreshold opts <=? k + 1) = false) as -> by (apply Z.leb_gt; lia).
    done.
  - assert ((successThreshold opts <=? k + 1) = true) as -> by (apply Z.leb_le; lia).
    done.
Qed.

Lemma reject_probe k b c a w e w' :
  probing k b c -> fn a w = (inl e, w') ->
  exists b', exec b c a w = (b', w', Rethrown e)
    /\ state b' = OPEN /\ nextAttempt b' = now_reopen c + timeout opts.
Proof.
  intros Hp Hfn. destruct (probe_passes k b c Hp) as (b1 & Hslot & Hst & Hk).
  unfold execute. rewrite Hslot, Hfn.
  eexists; split; [reflexivity|].
  unfold onFailure. simpl. rewrite Hst. simpl. done.
Qed.

Lemma resolve_run rest : forall k b w c a,
  probing k b c -> 0 <= k -> all_resolve fn w ((c, a) :: rest) ->
  (k + Z.of_nat (length ((c, a) :: rest)) < successThreshold opts ->
     state (fst (runs b w ((c, a) :: rest))) = HALF_OPEN)
  /\ (k + Z.of_nat (length ((c, a) :: rest)) = successThreshold opts ->
     state (fst (runs b w ((c, a) :: rest))) = CLOSED).
Proof.
  induction rest as [|[c' a'] rest IH]; intros k b w c a Hp Hk Hres.
  - simpl in Hres. destruct (fn a w) as [[e|r] w'] eqn:Hfn; [done|].
    destruct (resolve_step k b c a w r w' Hp Hfn) as (b' & Hex & Hlt & Hge).
    simpl. rewrite Hex. simpl.
    split; intros H; [apply Hlt | apply Hge]; lia.
  - simpl in Hres. destruct (fn a w) as [[e|r] w'] eqn:Hfn; [done|].
    destruct (resolve_step k b c a w r w' Hp Hfn) as (b' & Hex & Hlt & Hge).
    change (runs b w ((c, a) :: (c', a') :: rest))
      with (let '(b0, w0, _) := exec b c a w in runs b0 w0 ((c', a') :: rest)).
    rewrite Hex.
    replace (k + Z.of_nat (length ((c, a) :: (c', a') :: rest)))
      with ((k + 1) + Z.of_nat (length ((c', a') :: rest)))
      by (simpl length; lia).
    assert (Hpos : 0 < Z.of_nat (length ((c', a') :: rest))) by (simpl length; lia).
    split; intros H.
    + refine (proj1 (IH (k + 1) b' w' c' a' _ _ Hres) H); [|lia].
      left. apply Hlt. lia.
    + refine (proj2 (IH (k + 1) b' w' c' a' _ _ Hres) H); [|lia].
      left. apply Hlt. lia.
Qed.

(** C2. Started closed with no failure counted, [failureThreshold]
    consecutive rejected calls inside one monitoring window open the circuit,
    and no fewer do.  An open circuit, before its reopening time, throws the
    CIRCUIT_OPEN error and leaves everything outside the breaker as it was:
    the wrapped function is not invoked.  The first call at or after the
    reopening time goes through half open, with the success counter at 0; from
    there [successThreshold] consecutive resolved calls close the circuit (it
    stays half open in between) and a single rejected call opens it again. *)
Theorem breaker_lifecycle :
  1 <= failureThreshold opts -> 1 <= successThreshold opts ->
  (forall t0 b w calls,
     state b = CLOSED -> failures b = 0 ->
     Z.of_nat (length calls) = failureThreshold opts ->
     Forall (fun ca => in_window opts t0 (fst ca)) calls ->
     all_reject fn w calls ->
     state (fst (runs b w calls)) = OPEN
     /\ forall j, (j < length calls)%nat ->
          state (fst (runs b w (firstn j calls))) = CLOSED)
  /\ (forall b c a w,
       state b = OPEN -> now_gate c < nextAttempt b ->
       exists b', exec b c a w = (b', w, FailFast CIRCUIT_OPEN)
         /\ state b' = OPEN /\ nextAttempt b' = nextAttempt b)
  /\ (forall b c,
       state b = OPEN -> nextAttempt b <= now_gate c ->
       exists b1, before_try opts b c = (b1, true)
         /\ state b1 = HALF_OPEN /\ successes b1 = 0)
  /\ (forall b w c a rest,
       state b = OPEN -> nextAttempt b <= now_gate c ->
       Z.of_nat (length ((c, a) :: rest)) = successThreshold opts ->
       all_resolve fn w ((c, a) :: rest) ->
       state (fst (runs b w ((c, a) :: rest))) = CLOSED
       /\ forall j, (0 < j < length ((c, a) :: rest))%nat ->
            state (fst (runs b w (firstn j ((c, a) :: rest)))) = HALF_OPEN)
  /\ (forall b c a w e w',
       state b = HALF_OPEN \/ (state b = OPEN /\ nextAttempt b <= now_gate c) ->
       fn a w = (inl e, w') ->
       exists b', exec b c a w = (b', w', Rethrown e)
         /\ state b' = OPEN
         /\ nextAttempt b' = now_reopen c + timeout opts).
Proof.
  intros HN HS. repeat apply conj.
  - intros t0 b w calls Hst Hf Hlen Hwin Hrej.
    assert (Hinv : counting t0 0 b) by (repeat split; auto).
    split.
    + apply (proj2 (reject_run t0 calls 0 b w Hinv ltac:(lia) Hwin Hrej)); [|lia].
      destruct calls; [simpl in Hlen; lia | discriminate].
    + intros j Hj.
      assert (Hlenj : length (firstn j calls) = j) by (rewrite length_firstn; lia).
      pose proof (reject_run t0 (firstn j calls) 0 b w Hinv ltac:(lia)
                    (Forall_take _ j _ Hwin) (all_reject_firstn j calls w Hrej))
        as [Hlt _].
      rewrite Hlenj in Hlt. apply Hlt. lia.
  - apply open_fail_fast.
  - intros b c Hst Hdue. apply probe_passes. right. done.
  - intros b w c a rest Hst Hdue Hlen Hres.
    assert (Hp : probing 0 b c) by (right; done).
    split.
    + apply (proj2 (resolve_run rest 0 b w c a Hp ltac:(lia) Hres)). lia.
    + intros [|j] Hj; [lia|].
      pose proof (all_resolve_firstn (S j) _ w Hres) as Hres'.
      simpl firstn in *.
      apply (proj1 (resolve_run (firstn j rest) 0 b w c a Hp ltac:(lia) Hres')).
      simpl length in *. rewrite length_firstn. lia.
  - intros b c a w e w' [Hst | (Hst & Hdue)] Hfn.
    + apply (reject_probe (successes b)); [by left | done].
    + apply (reject_probe 0); [by right | done].
Qed.

End Lifecycle.

End CircuitBreakerFacts.

Module ContextMonitorFacts.
Import ContextMonitor.

Lemma estimateTokens_ceiling content :
  let n := Z.of_nat (String.length content) in
  4 * (estimateTokens content - 1) < n <= 4 * estimateTokens content.
Proof.
  intros n. unfold estimateTokens. fold n.
  unfold Qceiling, Qfloor, Qdiv, Qmult, Qinv, Qopp, inject_Z. simpl.
  rewrite Z.mul_1_r.
  pose proof (Z.div_mod (- n) 4 ltac:(lia)).
  pose proof (Z.mod_pos_bound (- n) 4 ltac:(lia)).
  change (Z.pos (1 * 4)) with 4. lia.
Qed.

(** The sweep keeps a session whose last activity is recent enough. *)
Lemma cleanup_keeps sessions maxInactiveMs now sid st :
  sessions !! sid = Some st ->
  now - lastActivity st <= maxInactiveMs ->
  fst (cleanupInactiveSessions sessions maxInactiveMs now) !! sid = Some st.
Proof.
  intros Hin Hrecent. unfold cleanupInactiveSessions. simpl.
  apply map_lookup_filter_Some. split; [done|]. simpl. lia.
Qed.

Lemma estimate_other (sessions : gmap string SessionStats) sid sid' st :
  sid' <> sid -> estimate (<[sid' := st]> sessions) sid = estimate sessions sid.
Proof. intros Hne. unfold estimate. by rewrite lookup_insert_ne. Qed.

Lemma estimate_swept (sessions : gmap string SessionStats) sid now :
  (forall st, sessions !! sid = Some st -> now - lastActivity st <= 30 * 60 * 1000) ->
  estimate (fst (cleanupInactiveSessions sessions (30 * 60 * 1000) now)) sid
  = estimate sessions sid.
Proof.
  intros Hkeep. unfold estimate at 2.
  destruct (sessions !! sid) as [st|] eqn:Hs.
  - unfold estimate. by rewrite (cleanup_keeps _ _ _ _ st Hs (Hkeep st eq_refl)).
  - unfold estimate, cleanupInactiveSessions. simpl.
    by rewrite map_lookup_filter_None_2; [|left].
Qed.

(** The record [addMessage] leaves for the session, when its own sweep does
    not evict it. *)
Lemma addMessage_stored
    (toFixed1 : Q -> string) (sessions : gmap string SessionStats)
    (sid content : string) (role : option Role) (c : clock) :
  now_sweep c - now_activity c <= 30 * 60 * 1000 ->
  let total := estimate sessions sid + estimateTokens content in
  let u := Qmin (inject_Z total / inject_Z CONTEXT_LIMIT) 1 in
  let out := addMessage toFixed1 sessions sid content role c in
  (exists st, fst out !! sid = Some st
              /\ estimatedTokens st = total /\ usage st = u)
  /\ estimate sessions sid <= estimate (fst out) sid.
Proof.
  intros Hsweep total u out.
  pose proof (estimateTokens_ceiling content) as Hceil. simpl in Hceil.
  assert (Hstored : exists st, fst out !! sid = Some st
                      /\ estimatedTokens st = total /\ usage st = u).
  { subst out. unfold addMessage. simpl.
    set (st' := {| usage := _ |}).
    assert (Hst : estimatedTokens st' = total /\ usage st' = u
                  /\ lastActivity st' = now_activity c).
    { subst st' total u. unfold estimate. simpl.
      destruct (sessions !! sid); simpl; done. }
    destruct Hst as (He & Hu & Ha).
    exists st'. split; [|done].
    destruct (100 <? size (<[sid:=st']> sessions))%nat.
    - apply cleanup_keeps; [apply lookup_insert_eq | rewrite Ha; exact Hsweep].
    - apply lookup_insert_eq. }
  split; [exact Hstored|].
  destruct Hstored as (st & Hl & He & _).
  unfold estimate at 2. rewrite Hl, He. subst total. lia.
Qed.

(** The warning [addMessage] returns. *)
Lemma addMessage_warning
    (toFixed1 : Q -> string) (sessions : gmap string SessionStats)
    (sid content : string) (role : option Role) (c : clock) :
  let total := estimate sessions sid + estimateTokens content in
  let u := Qmin (inject_Z total / inject_Z CONTEXT_LIMIT) 1 in
  let out := addMessage toFixed1 sessions sid content role c in
  ((exists w, snd out = Some w /\ level w = critical /\ warned_usage w = u)
   <-> (CRITICAL_THRESHOLD <= u)%Q)
  /\ ((exists w, snd out = Some w /\ level w = warning /\ warned_usage w = u)
      <-> (WARNING_THRESHOLD <= u)%Q /\ (u < CRITICAL_THRESHOLD)%Q)
  /\ (snd out = None <-> (u < WARNING_THRESHOLD)%Q).
Proof.
  intros total u out.
  assert (Hw : snd out =
    if Qle_bool CRITICAL_THRESHOLD u then
      Some {| level := critical;
              message := "Context usage critical (" ++ percent toFixed1 u ++ "%)";
              warned_usage := u |}
    else if Qle_bool WARNING_THRESHOLD u then
      Some {| level := warning;
              message := "High context usage (" ++ percent toFixed1 u ++ "%)";
              warned_usage := u |}
    else None).
  { subst out u total. unfold addMessage, estimate. simpl.
    destruct (sessions !! sid); reflexivity. }
  assert (Hthr : (WARNING_THRESHOLD <= CRITICAL_THRESHOLD)%Q) by (by compute).
  rewrite Hw.
  destruct (Qle_bool CRITICAL_THRESHOLD u) eqn:Hc.
  - apply Qle_bool_iff in Hc.
    assert (Hwn : (WARNING_THRESHOLD <= u)%Q) by (eapply Qle_trans; eauto).
    split; [|split]; split.
    + done.
    + intros _. eexists; done.
    + intros (w & Heq & Hl & _). inversion Heq; subst. discriminate.
    + intros [_ Hlt]. q_contra.
    + discriminate.
    + intros Hlt. q_contra.
  - assert (Hnc : (u < CRITICAL_THRESHOLD)%Q).
    { apply Qnot_le_lt. intros H. apply Qle_bool_iff in H. congruence. }
    destruct (Qle_bool WARNING_THRESHOLD u) eqn:Hwn.
    + apply Qle_bool_iff in Hwn.
      split; [|split]; split.
      * intros (w & Heq & Hl & _). inversion Heq; subst. discriminate.
      * intros H. q_contra.
      * done.
      * intros _. eexists; done.
      * discriminate.
      * intros Hlt. q_contra.
    + assert (Hnw : (u < WARNING_THRESHOLD)%Q).
      { apply Qnot_le_lt. intros H. apply Qle_bool_iff in H. congruence. }
      split; [|split]; split.
      * intros (w & Heq & _). discriminate.
      * intros H. q_contra.
      * intros (w & Heq & _). discriminate.
      * intros [H _]. q_contra.
      * done.
      * done.
Qed.

(** In tokens: critical from 190000 on, a warning from 160000 on. *)
Lemma thresholds_in_tokens (total : Z) :
  let u := Qmin (inject_Z total / inject_Z CONTEXT_LIMIT) 1 in
  ((CRITICAL_THRESHOLD <= u)%Q <-> 190000 <= total)
  /\ ((WARNING_THRESHOLD <= u)%Q <-> 160000 <= total).
Proof.
  intros u. subst u. split.
  - rewrite Q.min_glb_iff. unfold CRITICAL_THRESHOLD, CONTEXT_LIMIT.
    unfold Qle, Qdiv, Qmult, Qinv, inject_Z. simpl. lia.
  - rewrite Q.min_glb_iff. unfold WARNING_THRESHOLD, CONTEXT_LIMIT.
    unfold Qle, Qdiv, Qmult, Qinv, inject_Z. simpl. lia.
Qed.

Lemma addMessage'_monotone toFixed1 sid sessions k :
  retained sid sessions k ->
  estimate sessions sid <= estimate (addMessage' toFixed1 sessions k) sid.
Proof.
  unfold retained. destruct (decide (call_session k = sid)) as [<-|Hne].
  - intros Hsweep.
    apply (addMessage_stored toFixed1 sessions (call_session k) (call_content k)
             (call_role k) (call_clock k) Hsweep).
  - intros Hkeep. unfold addMessage', addMessage. cbv zeta. cbn [fst].
    set (st' := {| usage := _ |}).
    destruct (100 <? size (<[call_session k := st']> sessions))%nat.
    + rewrite estimate_swept, estimate_other; [done | done |].
      intros st. rewrite lookup_insert_ne; [apply Hkeep | done].
    + by rewrite estimate_other.
Qed.

Lemma addMessages_monotone toFixed1 sid calls : forall sessions,
  retained_along toFixed1 sid sessions calls ->
  estimate sessions sid <= estimate (addMessages toFixed1 sessions calls) sid.
Proof.
  induction calls as [|k rest IH]; intros sessions Hkept; [done|].
  destruct Hkept as [Hk Hrest].
  etransitivity; [by apply (addMessage'_monotone toFixed1)|].
  by apply IH.
Qed.

(** What [addMessage] leaves of the sessions: the record of the session is
    stored, and the sweep runs when more than 100 sessions are held. *)
Lemma addMessage_sessions
    (toFixed1 : Q -> string) (sessions : gmap string SessionStats)
    (sid content : string) (role : option Role) (c : clock) :
  exists st,
    estimatedTokens st = estimate sessions sid + estimateTokens content
    /\ fst (addMessage toFixed1 sessions sid content role c)
       = if (100 <? size ({[ sid ]} ∪ dom sessions))%nat
         then fst (cleanupInactiveSessions (<[sid := st]> sessions)
                     (30 * 60 * 1000) (now_sweep c))
         else <[sid := st]> sessions.
Proof.
  unfold addMessage. cbv zeta. cbn [fst].
  set (st' := {| usage := _ |}). exists st'. split.
  - subst st'. unfold estimate. simpl. by destruct (sessions !! sid).
  - by rewrite <- (size_dom (<[sid := st']> sessions)), dom_insert_L.
Qed.

(** What the sweep keeps, it keeps as it is. *)
Lemma cleanup_unchanged sessions maxInactiveMs now sid st :
  fst (cleanupInactiveSessions sessions maxInactiveMs now) !! sid = Some st ->
  sessions !! sid = Some st.
Proof.
  unfold cleanupInactiveSessions. cbn [fst].
  by intros [H _]%map_lookup_filter_Some.
Qed.

(** A call does not lower the estimate of a session that the monitor holds
    afterwards, or did not hold before. *)
Lemma addMessage'_held toFixed1 sid sessions k :
  (is_Some (sessions !! sid) -> is_Some (addMessage' toFixed1 sessions k !! sid)) ->
  estimate sessions sid <= estimate (addMessage' toFixed1 sessions k) sid.
Proof.
  intros Hheld. unfold addMessage'.
  destruct (addMessage_sessions toFixed1 sessions (call_session k)
              (call_content k) (call_role k) (call_clock k)) as (st' & Hest & Hout).
  unfold addMessage' in Hheld. rewrite Hout in *. clear Hout.
  pose proof (estimateTokens_ceiling (call_content k)) as Hceil. simpl in Hceil.
  assert (Htokens : 0 <= estimateTokens (call_content k)) by lia.
  set (after := if (100 <? _)%nat then _ else _) in *.
  assert (Hafter : forall st, after !! sid = Some st ->
                     <[call_session k := st']> sessions !! sid = Some st).
  { intros st. subst after. destruct (100 <? _)%nat; [|done].
    apply cleanup_unchanged. }
  destruct (after !! sid) as [st|] eqn:Hl.
  - unfold estimate at 2. rewrite Hl. specialize (Hafter st eq_refl).
    destruct (decide (call_session k = sid)) as [Heq|Hne].
    + rewrite Heq, lookup_insert_eq in Hafter. injection Hafter as <-.
      rewrite Hest, Heq. lia.
    + rewrite lookup_insert_ne in Hafter by done.
      unfold estimate. by rewrite Hafter.
  - destruct (sessions !! sid) as [st|] eqn:Hs.
    + destruct Hheld as [? [=]]. by eexists.
    + unfold estimate. by rewrite Hs, Hl.
Qed.

Lemma addMessages_held toFixed1 sid calls : forall sessions,
  held_along toFixed1 sid sessions calls ->
  estimate sessions sid <= estimate (addMessages toFixed1 sessions calls) sid.
Proof.
  induction calls as [|k rest IH]; intros sessions Hheld; [done|].
  destruct Hheld as [Hk Hrest].
  etransitivity; [by apply (addMessage'_held toFixed1)|].
  by apply IH.
Qed.

(** A call that leaves more than 100 sessions removes the other sessions
    that have been idle for more than 30 minutes. *)
Lemma addMessage_evicts
    (toFixed1 : Q -> string) (sessions : gmap string SessionStats)
    (sid content : string) (role : option Role) (c : clock) other st :
  sessions !! other = Some st -> other <> sid ->
  (100 < size ({[ sid ]} ∪ dom sessions))%nat ->
  30 * 60 * 1000 < now_sweep c - lastActivity st ->
  fst (addMessage toFixed1 sessions sid content role c) !! other = None.
Proof.
  intros Hother Hne Hfull Hidle.
  destruct (addMessage_sessions toFixed1 sessions sid content role c)
    as (st' & _ & ->).
  assert ((100 <? size ({[ sid ]} ∪ dom sessions))%nat = true) as ->
    by (by apply Nat.ltb_lt).
  unfold cleanupInactiveSessions. cbn [fst].
  apply map_lookup_filter_None. right. intros x Hx.
  rewrite lookup_insert_ne in Hx by done. rewrite Hother in Hx.
  injection Hx as <-. simpl. lia.
Qed.

(** A call that leaves no more than 100 sessions touches no other session. *)
Lemma addMessage_keeps
    (toFixed1 : Q -> string) (sessions : gmap string SessionStats)
    (sid content : string) (role : option Role) (c : clock) other :
  (size ({[ sid ]} ∪ dom sessions) <= 100)%nat -> other <> sid ->
  fst (addMessage toFixed1 sessions sid content role c) !! other
  = sessions !! other.
Proof.
  intros Hroom Hne.
  destruct (addMessage_sessions toFixed1 sessions sid content role c)
    as (st' & _ & ->).
  assert ((100 <? size ({[ sid ]} ∪ dom sessions))%nat = false) as ->
    by (apply Nat.ltb_ge; lia).
  by rewrite lookup_insert_ne.
Qed.

(** C5, as the code has it. [addMessage] adds the ceiling of a quarter of
    the length of the message to the estimate of the session; with [u] the
    new estimate over 200000, capped at 1, it returns a critical warning
    exactly when [0.95 <= u], a plain warning exactly when [0.80 <= u < 0.95],
    and nothing exactly when [u < 0.80].  The estimate of a session does not
    decrease, in one call and along any sequence of calls on any sessions,
    as long as no call removes the session from the sessions the monitor
    holds.  None does while no more than 100 sessions are held, and none
    does while no sweep finds the session idle for more than 30 minutes; a
    call that leaves more than 100 sessions removes the sessions that have
    been idle for longer, and the next message of a session so removed
    starts from 0 again. *)
Theorem context_monitor_estimate
    (toFixed1 : Q -> string) (sessions : gmap string SessionStats)
    (sid content : string) (role : option Role) (c : clock) :
  let tokens := estimateTokens content in
  let total := estimate sessions sid + tokens in
  let u := Qmin (inject_Z total / inject_Z CONTEXT_LIMIT) 1 in
  let out := addMessage toFixed1 sessions sid content role c in
  4 * (tokens - 1) < Z.of_nat (String.length content) <= 4 * tokens
  /\ ((exists w, snd out = Some w /\ level w = critical /\ warned_usage w = u)
      <-> (CRITICAL_THRESHOLD <= u)%Q)
  /\ ((exists w, snd out = Some w /\ level w = warning /\ warned_usage w = u)
      <-> (WARNING_THRESHOLD <= u)%Q /\ (u < CRITICAL_THRESHOLD)%Q)
  /\ (snd out = None <-> (u < WARNING_THRESHOLD)%Q)
  /\ (now_sweep c - now_activity c <= 30 * 60 * 1000 ->
      (exists st, fst out !! sid = Some st
                  /\ estimatedTokens st = total /\ usage st = u)
      /\ estimate sessions sid <= estimate (fst out) sid)
  /\ (forall calls sessions0,
        held_along toFixed1 sid sessions0 calls ->
        estimate sessions0 sid
        <= estimate (addMessages toFixed1 sessions0 calls) sid)
  /\ (forall calls sessions0,
        retained_along toFixed1 sid sessions0 calls ->
        estimate sessions0 sid
        <= estimate (addMessages toFixed1 sessions0 calls) sid)
  /\ ((size ({[ sid ]} ∪ dom sessions) <= 100)%nat ->
      forall other, other <> sid -> fst out !! other = sessions !! other)
  /\ (forall other st,
        sessions !! other = Some st -> other <> sid ->
        (100 < size ({[ sid ]} ∪ dom sessions))%nat ->
        30 * 60 * 1000 < now_sweep c - lastActivity st ->
        fst out !! other = None
        /\ forall content' role' c',
             now_sweep c' - now_activity c' <= 30 * 60 * 1000 ->
             estimate
               (fst (addMessage toFixed1 (fst out) other content' role' c'))
               other
             = estimateTokens content').
Proof.
  intros tokens total u out.
  split; [apply estimateTokens_ceiling|].
  pose proof (addMessage_warning toFixed1 sessions sid content role c)
    as (Hcritical & Hwarning & Hnone).
  repeat (split; [assumption|]).
  split; [apply addMessage_stored|].
  split; [intros calls sessions0; apply addMessages_held|].
  split; [intros calls sessions0; apply addMessages_monotone|].
  split; [intros Hroom other Hne; by apply addMessage_keeps|].
  intros other st Hother Hne Hfull Hidle.
  assert (Hgone : fst out !! other = None) by (by eapply addMessage_evicts).
  split; [exact Hgone|].
  intros content' role' c' Hsweep.
  destruct (addMessage_stored toFixed1 (fst out) other content' role' c' Hsweep)
    as [(st' & Hl & He & _) _].
  unfold estimate at 1. rewrite Hl, He. unfold estimate. by rewrite Hgone.
Qed.

End ContextMonitorFacts.

Module ProtocolFacts.
Import Js Protocol.

Section Receive.

Context {A : Type}.
Variable handler :
  json -> option json -> connection A -> (thrown + option json) * connection A.
Variable JSON_parse : string -> thrown + json.

Lemma processLines_app before after (c : connection A) :
  processLines handler JSON_parse (before ++ after) c
  = processLines handler JSON_parse after
      (processLines handler JSON_parse before c).
Proof. unfold processLines. apply fold_left_app. Qed.

(** The queue of a live connection writes every frame chained on it, in
    order. *)
Lemma drain_live (c : connection A) :
  isDestroyed c = false ->
  drain c = with_written (with_writeQueue c []) (written c ++ writeQueue c).
Proof.
  intros Hlive. unfold drain.
  assert (H : forall q (d : connection A),
            isDestroyed d = false ->
            fold_left (fun c m => runWrite m c) q d
            = with_written d (written d ++ q)).
  { induction q as [|m q IH]; intros d Hd.
    - simpl. rewrite app_nil_r. by destruct d.
    - simpl. unfold runWrite at 2. rewrite Hd. rewrite IH by done.
      unfold with_written. simpl. by rewrite <- app_assoc. }
  by rewrite H.
Qed.

(** On a destroyed connection the queue writes nothing. *)
Lemma drain_destroyed (c : connection A) :
  isDestroyed c = true -> drain c = with_writeQueue c [].
Proof.
  intros Hdead. unfold drain.
  assert (H : forall q (d : connection A),
            isDestroyed d = true -> fold_left (fun c m => runWrite m c) q d = d).
  { induction q as [|m q IH]; intros d Hd; [done|].
    simpl. unfold runWrite at 2. rewrite Hd. by apply IH. }
  by rewrite H.
Qed.

(** C8, as the code has it. For a line that is not empty once trimmed and
    that [JSON.parse] rejects, a live connection writes one response with
    the identifier "parse-error" and the error -32700 "Parse error", whose
    data is the message of the parse failure, and goes on with the lines
    that follow.  The response is written after the frames that were still
    waiting to be written, if any. *)
Theorem parse_error_response line (c : connection A) e :
  isDestroyed c = false ->
  truthy_string (trim line) = true ->
  JSON_parse (trim line) = inl e ->
  let frame :=
    Response (JStr "parse-error")
      (error {| code := -32700; message := "Parse error";
                data := Some (JStr (errorMessage e)) |}) in
  let c' :=
    with_written (with_writeQueue c []) (written c ++ writeQueue c ++ [frame]) in
  processLine handler JSON_parse line c = c'
  /\ forall before after c0,
       processLines handler JSON_parse before c0 = c ->
       processLines handler JSON_parse (before ++ line :: after) c0
       = processLines handler JSON_parse after c'.
Proof.
  intros Hlive Hline Hparse frame c'.
  assert (Hone : processLine handler JSON_parse line c = c').
  { unfold processLine. rewrite Hline, Hparse.
    unfold sendParseError, awaitSendMessage. by rewrite drain_live. }
  split; [exact Hone|].
  intros before after c0 Hbefore.
  rewrite processLines_app, Hbefore. simpl. unfold processLines at 1. simpl.
  by rewrite Hone.
Qed.

End Receive.
End ProtocolFacts.

Module PathFacts.
Import Js Agent JsFacts JsStrings.

Lemma split_sep_app sep a b :
  split sep (a ++ String sep b) = (split sep a ++ split sep b)%list.
Proof.
  induction a as [|c a IH].
  - change (split sep (String sep b) = (EmptyString :: split sep b)).
    simpl. by rewrite Ascii.eqb_refl.
  - rewrite append_cons. simpl. rewrite IH.
    destruct (Ascii.eqb c sep); [done|].
    by destruct (split_cons sep a) as (p & ps & ->).
Qed.

Lemma join_app sep xs zs :
  xs <> [] -> zs <> [] ->
  join sep (xs ++ zs) = join sep xs ++ sep ++ join sep zs.
Proof.
  induction xs as [|x xs IH]; [done|]. intros _ Hzs.
  destruct xs as [|y ys].
  - destruct zs as [|z zs]; [done|]. done.
  - change (x ++ sep ++ join sep ((y :: ys) ++ zs)
            = (x ++ sep ++ join sep (y :: ys)) ++ sep ++ join sep zs).
    rewrite IH by done. by rewrite !append_assoc.
Qed.

Lemma isPrefixOf_spec xs : forall ys,
  Spec.isPrefixOf xs ys = true <-> exists zs, ys = (xs ++ zs)%list.
Proof.
  induction xs as [|x xs IH]; intros ys; simpl.
  - split; [intros _; by exists ys | done].
  - destruct ys as [|y ys].
    + split; [done | intros [zs H]; discriminate].
    + rewrite andb_true_iff, IH. split.
      * intros [Hxy [zs ->]]. apply String.eqb_eq in Hxy as ->. by exists zs.
      * intros [zs [= -> ->]]. split; [apply String.eqb_refl | by exists zs].
Qed.

(** The segments of a path in normal form are the pieces between its
    slashes. *)
Lemma normalize_normalForm path :
  Spec.normalForm path = true ->
  split "/" path = EmptyString :: Spec.normalize path.
Proof.
  unfold Spec.normalForm. intros [Habs Hplain]%andb_true_iff.
  apply startsWith_spec in Habs as [rest ->].
  change (split "/" ("/" ++ rest)) with (EmptyString :: split "/" rest) in *.
  unfold Spec.normalize.
  change (split "/" ("/" ++ rest)) with (EmptyString :: split "/" rest).
  cbn [tl fold_left] in *. f_equal.
  change (if String.eqb EmptyString ".." then _ else _) with (@nil string).
  assert (H : forall segments acc,
            forallb Spec.plainSegment segments = true ->
            fold_left
              (fun acc segment =>
                 if String.eqb segment ".." then removelast acc
                 else if String.eqb segment "." || negb (truthy_string segment)
                      then acc else acc ++ [segment])%list
              segments acc
            = (acc ++ segments)%list).
  { induction segments as [|seg segments IH]; intros acc; simpl.
    - by rewrite app_nil_r.
    - intros [Hseg Hrest]%andb_true_iff. unfold Spec.plainSegment in Hseg.
      apply andb_true_iff in Hseg as [[Ht Hdot]%andb_true_iff Hdots].
      apply negb_true_iff in Hdot, Hdots. rewrite Hdot, Hdots, Ht. simpl.
      rewrite IH by done. by rewrite <- app_assoc. }
  by rewrite H.
Qed.

(** For paths in normal form, to start with the text of the directory is to
    lie in it, unless the path goes on within the last segment of the
    directory. *)
Lemma prefix_contained dir path :
  Spec.normalForm dir = true -> Spec.normalForm path = true ->
  Spec.continuesName dir path = false ->
  startsWith dir path = Spec.isPrefixOf (Spec.normalize dir) (Spec.normalize path).
Proof.
  intros Hdir Hpath Hname.
  pose proof (normalize_normalForm dir Hdir) as Hd.
  pose proof (normalize_normalForm path Hpath) as Hp.
  apply eq_true_iff_eq. rewrite isPrefixOf_spec. split.
  - intros Hpre. unfold Spec.continuesName in Hname. rewrite Hpre in Hname.
    simpl in Hname. destruct (String.eqb path dir) eqn:Heq.
    + apply String.eqb_eq in Heq as ->. exists []. by rewrite app_nil_r.
    + simpl in Hname. apply negb_false_iff, startsWith_spec in Hname as [rest ->].
      exists (split "/" rest).
      rewrite append_assoc in Hp |- *.
      change ("/" ++ rest) with (String "/" rest) in Hp |- *.
      rewrite split_sep_app, Hd in Hp. by injection Hp as <-.
  - intros [zs Hzs]. apply startsWith_spec.
    rewrite <- (join_split "/" path), <- (join_split "/" dir), Hp, Hd, Hzs.
    destruct zs as [|z zs].
    + exists EmptyString. by rewrite app_nil_r, append_nil_r.
    + rewrite app_comm_cons, join_app by done. by eexists.
Qed.

Lemma existsb_agree {X} (f g : X -> bool) l :
  (forall x, In x l -> f x = g x) -> existsb f l = existsb g l.
Proof.
  induction l as [|x l IH]; [done|]. intros H. simpl.
  rewrite (H x) by (by left). rewrite IH; [done|].
  intros y Hy. apply H. by right.
Qed.

(** On paths in normal form that do not go on within the last segment of
    the working directory, the test of the code on the affected paths is
    containment after normalization; so it is for any paths when the working
    directory is the root. *)
Lemma outside_cwd_escapes dir files :
  (dir = "/"
   \/ Spec.normalForm dir = true
      /\ forall p, In p files -> startsWith "/" p = true ->
                   Spec.normalForm p = true
                   /\ Spec.continuesName dir p = false) ->
  existsb (fun path => startsWith "/" path && negb (startsWith dir path)) files
  = existsb (Spec.escapes dir) files.
Proof.
  intros Hplain. apply existsb_agree. intros p Hin. unfold Spec.escapes.
  destruct (startsWith "/" p) eqn:Habs; [|done]. cbn [andb]. f_equal.
  destruct Hplain as [-> | [Hdir Hfiles]]; [by rewrite Habs|].
  destruct (Hfiles p Hin Habs) as [Hp Hname].
  by apply prefix_contained.
Qed.

End PathFacts.

Module BrokerFacts.
Import Js Agent JsFacts PathFacts.

Section Broker.

Context {W : Type}.
Variable cfg : Config.
Variable generateEnhancedToolTitle : ToolOperationContext -> string.
Variable mapToolKind : string -> string.
Variable extractToolLocations : ToolOperationContext -> list ToolCallLocation.

Local Abbreviation broker :=
  (requestEnhancedPermission (W := W) cfg generateEnhancedToolTitle mapToolKind
     extractToolLocations).

Local Abbreviation requestFor' :=
  (requestFor generateEnhancedToolTitle mapToolKind extractToolLocations).

(** The broker never throws once the session is found; it asks the host at
    most once, with [requestFor]; and it returns without asking unless the
    mode is not a short cut and the operation requires explicit permission. *)
Lemma broker_cases host sid toolCallId context (a : agent W) session :
  sessions a !! sid = Some session ->
  let mode := default (defaultPermissionMode cfg) (permissionMode session) in
  let shortcut :=
    PermissionMode_eqb mode bypassPermissions
    || PermissionMode_eqb mode acceptEdits && isAutoApprovableOperation context in
  let asked := with_permissionRequests
                 (permissionRequests a ++ [requestFor' sid toolCallId context]) a in
  broker host sid toolCallId context a =
    if shortcut then (inr true, a)
    else if requiresExplicitPermission (cwd cfg) context then
      match host (requestFor' sid toolCallId context) with
      | inl _ =>
          (inr (PermissionMode_eqb mode acceptEdits
                && isAutoApprovableOperation context), asked)
      | inr outcome_cancelled => (inr false, asked)
      | inr (outcome_selected id) =>
          (inr match List.find (fun opt => String.eqb (optionId opt) id)
                       (generatePermissionOptions context) with
               | Some opt =>
                   PermissionOptionKind_eqb (kind opt) allow_once
                   || PermissionOptionKind_eqb (kind opt) allow_always
               | None => false
               end, asked)
      | inr (outcome_unknown _) => (inr false, asked)
      end
    else (inr true, a).
Proof.
  intros Hs mode shortcut asked.
  unfold requestEnhancedPermission, bind, getSession. rewrite Hs.
  fold mode. subst shortcut.
  destruct (PermissionMode_eqb mode bypassPermissions); [done|].
  destruct (PermissionMode_eqb mode acceptEdits && isAutoApprovableOperation context);
    [done|]. simpl.
  destruct (requiresExplicitPermission (cwd cfg) context); [|done].
  unfold try_catch, bind, requestPermission. fold (requestFor' sid toolCallId context).
  fold asked.
  destruct (host (requestFor' sid toolCallId context)) as [e|[|id|tag]]; try done.
  simpl. by destruct (List.find _ _).
Qed.

(** C4. Every permission prompt the broker issues carries the options
    built from the operation: options of kind allow_once, reject_once and
    reject_always are always among them, an option of kind allow_always is
    among them exactly when the operation type is not delete, and for a
    delete the kinds are allow_once, reject_once, reject_always, in that
    order. *)
Theorem permission_options_by_operation
    host sid toolCallId context (a : agent W) :
  let kinds := map kind (generatePermissionOptions context) in
  (forall request,
     In request (permissionRequests (snd (broker host sid toolCallId context a))) ->
     In request (permissionRequests a)
     \/ options request = generatePermissionOptions context)
  /\ In allow_once kinds /\ In reject_once kinds /\ In reject_always kinds
  /\ (In allow_always kinds <-> operationType context <> Some op_delete)
  /\ (operationType context = Some op_delete ->
      kinds = [allow_once; reject_once; reject_always]).
Proof.
  intros kinds. split.
  - intros request.
    destruct (sessions a !! sid) as [session|] eqn:Hs.
    + rewrite (broker_cases host sid toolCallId context a session Hs).
      repeat match goal with
             | |- context [if ?b then _ else _] => destruct b
             | |- context [match ?x with _ => _ end] => destruct x
             end; simpl; auto;
        rewrite in_app_iff; simpl; intros [H | [<- | []]]; auto.
    + unfold requestEnhancedPermission, bind, getSession. rewrite Hs. simpl. auto.
  - subst kinds. unfold generatePermissionOptions.
    destruct (operationType context) as [[]|]; simpl;
      repeat split; auto 6; try congruence; try discriminate;
      intros H; repeat (destruct H as [H | H]; try discriminate); try done.
Qed.


Lemma dangerous_command_spec command :
  existsb (fun cmd => includes cmd command) dangerousCommands = true
  <-> exists cmd before rest,
        In cmd dangerousCommands /\ command = before ++ cmd ++ rest.
Proof.
  rewrite existsb_exists. split.
  - intros (cmd & Hin & Hinc). apply includes_spec in Hinc as (before & rest & H).
    by exists cmd, before, rest.
  - intros (cmd & before & rest & Hin & H). exists cmd. split; [done|].
    apply includes_spec. by exists before, rest.
Qed.

(** The test of the code in full, with the affected paths compared as
    strings. *)
Lemma requires_by_prefix dir context :
  requiresExplicitPermission dir context = true
  <-> operationType context = Some op_delete
      \/ (operationType context = Some op_execute
          /\ isValidInput (input context) = true
          /\ exists cmd before rest,
               In cmd dangerousCommands
               /\ commandOf (input context) = before ++ cmd ++ rest)
      \/ (exists files,
            affectedFiles context = Some files
            /\ existsb (fun path => startsWith "/" path
                                    && negb (startsWith dir path)) files = true).
Proof.
  unfold requiresExplicitPermission.
  pose proof (dangerous_command_spec (commandOf (input context))) as Hcmd.
  assert (Hfiles :
    match affectedFiles context with
    | Some files =>
        existsb (fun path => startsWith "/" path && negb (startsWith dir path))
          files
    | None => false
    end = true
    <-> exists files,
          affectedFiles context = Some files
          /\ existsb (fun path => startsWith "/" path
                                  && negb (startsWith dir path)) files = true).
  { destruct (affectedFiles context) as [files|].
    - split; [intros H; by exists files | by intros (files' & [= <-] & H)].
    - split; [done | by intros (? & ? & _)]. }
  destruct (operationType context) as [[]|];
    try (rewrite Hfiles; split;
         [ intros H; right; right; exact H
         | intros [H | [(H & _) | H]]; [discriminate | discriminate | exact H] ]).
  + split; [intros _; by left | done].
  + cbn [andb]. destruct (isValidInput (input context)) eqn:Hvalid; cbn [andb].
    * destruct (existsb _ dangerousCommands) eqn:Hd.
      -- split; [|done]. intros _. right; left.
         split; [done|]. split; [done|]. by apply Hcmd.
      -- rewrite Hfiles. split; [intros H; right; right; exact H|].
         intros [H | [(_ & _ & H) | H]]; [discriminate | | exact H].
         apply Hcmd in H. discriminate.
    * rewrite Hfiles. split; [intros H; right; right; exact H|].
      intros [H | [(_ & H & _) | H]]; [discriminate | discriminate | exact H].
Qed.

(** C3, as the code has it by design. The affected paths are written in
    normal form (absolute, no empty segment, no [.] and no [..]), as is the
    working directory of the process, and none goes on within the last
    segment of the working directory; or the working directory is the root.
    Then the test is true exactly when the operation type is delete; or it
    is execute, the input is an object and the string form of its [command]
    contains one of rm, sudo, chmod, chown, mv, cp, dd at some offset; or
    some affected path is absolute and not contained in the working
    directory of the process after normalization.  When the test is false
    the broker allows the operation and sends no permission request. *)
Theorem explicit_permission_test dir context :
  (dir = "/"
   \/ Spec.normalForm dir = true
      /\ forall files p,
           affectedFiles context = Some files -> In p files ->
           startsWith "/" p = true ->
           Spec.normalForm p = true /\ Spec.continuesName dir p = false) ->
  (requiresExplicitPermission dir context = true
   <-> operationType context = Some op_delete
       \/ (operationType context = Some op_execute
           /\ isValidInput (input context) = true
           /\ exists cmd before rest,
                In cmd dangerousCommands
                /\ commandOf (input context) = before ++ cmd ++ rest)
       \/ (exists files p,
             affectedFiles context = Some files /\ In p files
             /\ Spec.escapes dir p = true))
  /\ (forall host sid toolCallId (a : agent W) session,
        sessions a !! sid = Some session ->
        requiresExplicitPermission (cwd cfg) context = false ->
        broker host sid toolCallId context a = (inr true, a)).
Proof.
  intros Hplain. split.
  - rewrite requires_by_prefix.
    assert (Hfiles :
      (exists files,
         affectedFiles context = Some files
         /\ existsb (fun path => startsWith "/" path
                                 && negb (startsWith dir path)) files = true)
      <-> exists files p,
            affectedFiles context = Some files /\ In p files
            /\ Spec.escapes dir p = true).
    { split.
      - intros (files & Hf & Hex). rewrite outside_cwd_escapes in Hex.
        + apply existsb_exists in Hex as (p & Hin & Hp). by exists files, p.
        + destruct Hplain as [-> | [Hdir Hp]]; [by left | right].
          split; [done|]. intros p. by apply Hp.
      - intros (files & p & Hf & Hin & Hp). exists files. split; [done|].
        rewrite outside_cwd_escapes.
        + apply existsb_exists. by exists p.
        + destruct Hplain as [-> | [Hdir Hq]]; [by left | right].
          split; [done|]. intros q. by apply Hq. }
    by rewrite Hfiles.
  - intros host sid toolCallId a session Hs Hno.
    rewrite (broker_cases host sid toolCallId context a session Hs), Hno.
    by destruct (_ || _).
Qed.

End Broker.
End BrokerFacts.

Module TurnFacts.
Import Js Agent JsFacts JsStrings.

Section Turn.

Context {W : Type}.
Variable cfg : Config.
Variable query : QueryArgs -> W -> (thrown + Stream) * W.
Variable handleMessage : string -> gmap string json -> M W unit.
Variable toFixed1 : Q -> string.
Variable roundPercent : Q -> Z.

Local Open Scope agent_scope.

Lemma returns_bind {A B} (m : M W A) (k : A -> M W B) a P :
  returns m a (fun x a' => returns (k x) a' P) -> returns (bind m k) a P.
Proof.
  intros (x & a' & Hm & (y & a'' & Hk & HP)).
  exists y, a''. split; [|done]. unfold bind. by rewrite Hm.
Qed.

Lemma returns_ret {A} (x : A) (a : agent W) (P : A -> agent W -> Prop) :
  P x a -> returns (ret x) a P.
Proof. intros H. by exists x, a. Qed.

Lemma returns_modify f (a : agent W) (P : unit -> agent W -> Prop) :
  P tt (f a) -> returns (modify f) a P.
Proof. intros H. by exists tt, (f a). Qed.

Lemma returns_when (b : bool) m (a : agent W) (P : unit -> agent W -> Prop) :
  (b = true -> returns m a P) -> (b = false -> P tt a) -> returns (when b m) a P.
Proof. destruct b; intros H1 H2; [by apply H1 | apply returns_ret; by apply H2]. Qed.

Lemma returns_read {A} sid (field : AgentSession -> A) (a : agent W) P :
  P (field (session_of sid a)) a -> returns (read sid field) a P.
Proof. intros H. by eexists _, a. Qed.

Lemma returns_getSession sid (a : agent W) s P :
  sessions a !! sid = Some s -> P s a -> returns (getSession sid) a P.
Proof. intros Hs H. exists s, a. unfold getSession. by rewrite Hs. Qed.

Lemma has_mode_outbox sid mode (a : agent W) v :
  has_mode sid mode a -> has_mode sid mode (with_outbox v a).
Proof. done. Qed.

Lemma has_mode_write sid mode mode' f (a : agent W) :
  (forall s, permissionMode s = mode -> permissionMode (f s) = mode') ->
  has_mode sid mode a ->
  has_mode sid mode' (with_sessions (alter f sid (sessions a)) a).
Proof.
  intros Hf (s & Hs & Hm). exists (f s). simpl.
  rewrite lookup_alter_eq, Hs. split; [done | by apply Hf].
Qed.

Lemma has_mode_session_of sid mode (a : agent W) :
  has_mode sid mode a -> permissionMode (session_of sid a) = mode.
Proof. intros (s & Hs & Hm). unfold session_of. by rewrite Hs. Qed.

(** [sendPlanUpdate] and [generateAndSendPlan] return when the session
    exists, and touch neither its permission mode nor anything but the plan
    and the outbox. *)
Lemma generateAndSendPlan_returns sid c (a : agent W) mode :
  has_mode sid mode a ->
  returns (generateAndSendPlan cfg sid c) a (fun _ a' => has_mode sid mode a').
Proof.
  intros Hm. unfold generateAndSendPlan.
  destruct Hm as (s & Hs & Hmode).
  apply returns_bind; eapply returns_getSession; [exact Hs|].
  apply returns_bind, returns_modify.
  set (a1 := with_sessions _ a).
  assert (H1 : has_mode sid mode a1).
  { apply (has_mode_write _ mode); [done | by exists s]. }
  unfold sendPlanUpdate. apply returns_bind.
  destruct H1 as (s1 & Hs1 & Hm1).
  assert (Hind : forall t, returns (addModeIndicators cfg sid t) a1
                   (fun _ a' => a' = a1)).
  { intros t. unfold addModeIndicators.
    apply returns_bind; eapply returns_getSession; [exact Hs1|].
    destruct t as [t|]; [|by apply returns_ret].
    destruct (truthy_string t); [|by apply returns_ret].
    destruct (existsb _ _); by apply returns_ret. }
  destruct (synthesizePlan (summary c) (estimatedSteps c)) as [|first rest].
  - apply returns_ret. apply returns_modify. by exists s1.
  - apply returns_bind. destruct (Hind (title first)) as (t & a' & Ht & ->).
    exists t, a1. split; [done|]. apply returns_ret, returns_modify. by exists s1.
Qed.

Lemma returns_addMessage sid content c (a : agent W) P :
  (forall m w, P w (with_contextMonitor m a)) ->
  returns (addMessage toFixed1 sid content c) a P.
Proof.
  intros H. unfold addMessage, returns.
  destruct (ContextMonitor.addMessage _ _ _ _ _ _) as [m w].
  by eexists _, _.
Qed.

(** The pre-flight of a turn returns when the session exists; it leaves the
    session with the mode the prompt text selects and hands the same mode
    to the SDK. *)
Lemma preflight_returns params sid env (a : agent W) s :
  sessions a !! sid = Some s ->
  let text := promptTextOf (prompt params) in
  let mode := parsePromptPermissionMode (defaultPermissionMode cfg) text
                (permissionMode s) in
  returns (preflight cfg toFixed1 roundPercent params sid env) a
    (fun args a0 =>
       has_mode sid (Some mode) a0
       /\ query_prompt args = text
       /\ query_permissionMode (query_options args) = Some mode).
Proof.
  intros Hs text mode. unfold preflight. fold text.
  apply returns_bind, returns_addMessage. intros m w.
  set (a1 := with_contextMonitor m a).
  assert (H1 : has_mode sid (permissionMode s) a1) by (by exists s).
  apply returns_bind.
  assert (Hw : returns
            match w with
            | Some w0 => sendContextWarning roundPercent sid w0
            | None => ret tt
            end a1 (fun _ a' => has_mode sid (permissionMode s) a')).
  { destruct w; [apply returns_modify | apply returns_ret]; done. }
  destruct Hw as ([] & a2 & Hw & H2). exists tt, a2. split; [exact Hw|].
  apply returns_bind, returns_read. rewrite (has_mode_session_of _ _ _ H2).
  apply returns_bind, returns_modify.
  set (a3 := with_sessions _ a2).
  assert (H3 : has_mode sid (Some mode) a3).
  { apply (has_mode_write _ (permissionMode s)); [done | done]. }
  apply returns_bind, returns_read. rewrite (has_mode_session_of _ _ _ H3).
  apply returns_bind.
  set (report := match Some mode, permissionMode s with
                 | Some bypassPermissions, Some bypassPermissions => false
                 | Some bypassPermissions, _ => true
                 | _, _ => false
                 end).
  assert (Hr : returns (when report (reportBypassMode sid)) a3
                 (fun _ a' => has_mode sid (Some mode) a')).
  { apply returns_when; intros _; [apply returns_modify|]; done. }
  destruct Hr as ([] & a4 & Hr & H4). exists tt, a4. split; [exact Hr|].
  apply returns_bind, returns_read.
  apply returns_bind, returns_modify.
  set (a5 := with_sessions _ a4).
  assert (H5 : has_mode sid (Some mode) a5).
  { apply (has_mode_write _ (Some mode)); [done | done]. }
  apply returns_bind, returns_read.
  apply returns_bind.
  match goal with
  | |- returns (when ?b ?m) _ _ =>
      assert (Ht : returns (when b m) a5 (fun _ a' => has_mode sid (Some mode) a'))
  end.
  { apply returns_when; intros _; [apply returns_modify|]; done. }
  destruct Ht as ([] & a6 & Ht & H6). exists tt, a6. split; [exact Ht|].
  apply returns_bind.
  match goal with
  | |- returns (when ?b ?m) _ _ =>
      assert (Hp : returns (when b m) a6 (fun _ a' => has_mode sid (Some mode) a'))
  end.
  { apply returns_when; intros _; [by apply generateAndSendPlan_returns | done]. }
  destruct Hp as ([] & a7 & Hp & H7). exists tt, a7. split; [exact Hp|].
  apply returns_ret. done.
Qed.

Local Abbreviation ACCEPT_EDITS := "[ACP:PERMISSION:ACCEPT_EDITS]".
Local Abbreviation BYPASS := "[ACP:PERMISSION:BYPASS]".
Local Abbreviation DEFAULT := "[ACP:PERMISSION:DEFAULT]".

Lemma includes_occurs needle hay :
  includes needle hay = true <-> occursIn needle hay.
Proof. apply includes_spec. Qed.

Lemma not_includes_occurs needle hay :
  includes needle hay = false <-> ~ occursIn needle hay.
Proof.
  rewrite <- includes_occurs. destruct (includes needle hay); split; try done.
Qed.

(** C9, as the code has it. The markers are looked for in the fixed order
    ACCEPT_EDITS, BYPASS, DEFAULT, anywhere in the text, and the first of
    these that occurs selects acceptEdits, bypassPermissions or default; with
    no marker the mode of the session is kept, and a session without a mode
    takes the default mode of the agent.  The pre-flight of the turn stores
    the selected mode in the session and passes it to the SDK. *)
Theorem inline_marker_selects_mode params sid env (a : agent W) s :
  sessions a !! sid = Some s ->
  let text := promptTextOf (prompt params) in
  let mode := parsePromptPermissionMode (defaultPermissionMode cfg) text
                (permissionMode s) in
  returns (preflight cfg toFixed1 roundPercent params sid env) a
    (fun args a0 =>
       has_mode sid (Some mode) a0
       /\ query_permissionMode (query_options args) = Some mode)
  /\ (occursIn ACCEPT_EDITS text -> mode = acceptEdits)
  /\ (~ occursIn ACCEPT_EDITS text -> occursIn BYPASS text ->
      mode = bypassPermissions)
  /\ (~ occursIn ACCEPT_EDITS text -> ~ occursIn BYPASS text ->
      occursIn DEFAULT text -> mode = default_mode)
  /\ (~ occursIn ACCEPT_EDITS text -> ~ occursIn BYPASS text ->
      ~ occursIn DEFAULT text ->
      mode = default (defaultPermissionMode cfg) (permissionMode s)).
Proof.
  intros Hs text mode. split.
  - destruct (preflight_returns params sid env a s Hs)
      as (args & a0 & Hrun & Hmode & _ & Hq).
    by exists args, a0.
  - subst mode. unfold parsePromptPermissionMode.
    repeat split.
    + intros H%includes_occurs. by rewrite H.
    + intros Ha%not_includes_occurs Hb%includes_occurs. by rewrite Ha, Hb.
    + intros Ha%not_includes_occurs Hb%not_includes_occurs Hd%includes_occurs.
      by rewrite Ha, Hb, Hd.
    + intros Ha%not_includes_occurs Hb%not_includes_occurs Hd%not_includes_occurs.
      by rewrite Ha, Hb, Hd.
Qed.

Local Abbreviation three_entries :=
  [ {| content := "Analyze requirements and approach"; priority := high;
       status := in_progress; title := None |};
    {| content := "Execute main implementation"; priority := high;
       status := pending; title := None |};
    {| content := "Validate and finalize changes"; priority := medium;
       status := pending; title := None |} ].

(** C7, as the code has it. For a prompt that triggers plan synthesis, the
    plan stored in the session is, when at least three steps are estimated,
    the three entries "Analyze requirements and approach" (high,
    in_progress), "Execute main implementation" (high, pending), "Validate
    and finalize changes" (medium, pending), in that order; otherwise it is
    one entry with the summary of the prompt, high, in_progress.  The plan
    sent to the host has the same contents, priorities and statuses. *)
Theorem plan_synthesis text sid (a : agent W) s :
  sessions a !! sid = Some s ->
  let c := analyzePromptComplexity text in
  needsPlan c = true ->
  let entries := synthesizePlan (summary c) (estimatedSteps c) in
  (3 <= estimatedSteps c -> entries = three_entries)
  /\ (estimatedSteps c < 3 ->
      entries = [ {| content := generatePromptSummary text true;
                     priority := high; status := in_progress;
                     title := None |} ])
  /\ exists sent a',
       generateAndSendPlan cfg sid c a = (inr tt, a')
       /\ outbox a' = (outbox a ++ [ {| sessionId := sid; update := plan sent |} ])%list
       /\ map core sent = map core entries
       /\ currentPlan (session_of sid a') = Some entries.
Proof.
  intros Hs c Hneeds entries.
  assert (Hc : isComplex c = true).
  { subst c. unfold analyzePromptComplexity in *. simpl in *.
    by apply andb_true_iff in Hneeds as [H _]. }
  split; [|split].
  - intros H. subst entries. unfold synthesizePlan.
    by assert ((3 <=? estimatedSteps c) = true) as -> by (apply Z.leb_le; lia).
  - intros H. subst entries. unfold synthesizePlan.
    assert ((3 <=? estimatedSteps c) = false) as -> by (apply Z.leb_gt; lia).
    replace (summary c) with (generatePromptSummary text true); [done|].
    subst c. unfold analyzePromptComplexity in *. simpl in *. by rewrite Hc.
  - unfold generateAndSendPlan, bind, getSession. rewrite Hs.
    fold entries. unfold write, modify, sendPlanUpdate, bind.
    set (a1 := with_sessions _ a).
    assert (Hs1 : sessions a1 !! sid = Some (set_currentPlan (Some entries) s)).
    { subst a1. simpl. by rewrite lookup_alter_eq, Hs. }
    assert (Hind : forall t, exists t',
               addModeIndicators cfg sid t a1 = (inr t', a1)).
    { intros t. unfold addModeIndicators, bind, getSession. rewrite Hs1.
      destruct t as [t|]; [|by eexists].
      destruct (truthy_string t); [|by eexists].
      destruct (existsb _ _); by eexists. }
    destruct entries as [|first rest] eqn:He.
    + exists [], (with_outbox (outbox a1 ++ [ {| sessionId := sid; update := plan [] |} ])%list a1).
      unfold ret, sessionUpdate, modify. repeat split.
      unfold session_of. simpl. by rewrite lookup_alter_eq, Hs.
    + destruct (Hind (title first)) as [t' Ht]. rewrite Ht.
      eexists _, _. unfold ret, sessionUpdate, modify. simpl.
      split; [reflexivity|]. repeat split.
      unfold session_of. simpl. by rewrite lookup_alter_eq, Hs.
Qed.

Local Abbreviation run_turn :=
  (executePrompt cfg query handleMessage toFixed1 roundPercent).

Lemma caught_in_band params sid env (a : agent W) e a1 :
  executePrompt_try cfg query handleMessage toFixed1 roundPercent
    params sid env a = (inl e, a1) ->
  aborted (session_of sid a1) = false ->
  run_turn params sid env a = (inr end_turn, in_band sid e a1).
Proof.
  intros Htry Hlive.
  unfold executePrompt, try_finally, try_catch. rewrite Htry.
  unfold executePrompt_catch, bind, read. rewrite Hlive.
  reflexivity.
Qed.

Lemma append_empty (s : string) : s ++ EmptyString = s.
Proof.
  induction s as [|c s IH]; [done|].
  change (String c (s ++ EmptyString) = String c s). by rewrite IH.
Qed.

(** C6, as the code has it. A turn has passed its pre-flight and reserved
    its operation slot.  If starting the backend stream throws, or consuming
    it throws, and the cancel token of the session has not fired, the turn
    sends one more notification, an agent_message_chunk, and resolves with
    end_turn.  An open circuit breaker throws its CIRCUIT_OPEN error without
    calling the SDK, and the text shown for that error is the "Service
    temporarily unavailable" text.  The error of the breaker is recognised
    by the phrase "Circuit breaker is OPEN" in its message: for an error
    whose message does not hold the phrase, the text shown ends with the
    message of the error; for any error whose message holds it, the breaker's
    or not, the text shown is the "Service temporarily unavailable" text,
    and the message of the error is not in it. *)
Theorem turn_error_in_band params sid env (a : agent W) args a0 :
  preflight cfg toFixed1 roundPercent params sid env a = (inr args, a0) ->
  query_slot env = true ->
  (forall e a1,
     breakerExecute query sid args env a0 = (inl e, a1) ->
     aborted (session_of sid a1) = false ->
     run_turn params sid env a = (inr end_turn, in_band sid e a1))
  /\ (forall messages a1 e a2,
       breakerExecute query sid args env a0 = (inr messages, a1) ->
       consume handleMessage sid (items messages) (cancel_before_end messages)
         (failure messages)
         (with_sessions (alter (set_pendingPrompt true) sid (sessions a1)) a1)
       = (inl e, a2) ->
       aborted (session_of sid a2) = false ->
       run_turn params sid env a = (inr end_turn, in_band sid e a2))
  /\ (CircuitBreaker.state (claudeSDKCircuitBreaker a0) = CircuitBreaker.OPEN ->
      CircuitBreaker.now_gate (breaker_clock env)
      < CircuitBreaker.nextAttempt (claudeSDKCircuitBreaker a0) ->
      exists a1,
        breakerExecute query sid args env a0
        = (inl (Error CircuitBreaker.CIRCUIT_OPEN), a1)
        /\ sdk a1 = sdk a0 /\ outbox a1 = outbox a0)
  /\ (forall e (a1 : agent W),
       outbox (in_band sid e a1)
       = (outbox a1 ++ [ {| sessionId := sid;
                            update := agent_message_chunk (errorText e) |} ])%list)
  /\ errorText (Error CircuitBreaker.CIRCUIT_OPEN) = RETRY_TEXT
  /\ (forall e,
       includes "Circuit breaker is OPEN" (errorMessage e) = false ->
       errorText e = "[ERROR] Error: " ++ errorMessage e
       /\ occursIn (errorMessage e) (errorText e))
  /\ (forall e,
       includes "Circuit breaker is OPEN" (errorMessage e) = true ->
       errorText e = RETRY_TEXT
       /\ ~ occursIn (errorMessage e) (errorText e)).
Proof.
  intros Hpre Hslot.
  assert (Htry : forall a1 r,
            stream_turn query handleMessage sid args env a0 = (r, a1) ->
            executePrompt_try cfg query handleMessage toFixed1 roundPercent
              params sid env a = (r, a1)).
  { intros a1 r H. unfold executePrompt_try, bind. by rewrite Hpre. }
  repeat apply conj.
  - intros e a1 Hstart Hlive. apply caught_in_band; [|done].
    apply Htry. unfold stream_turn, bind. rewrite Hslot. simpl.
    unfold ret. by rewrite Hstart.
  - intros messages a1 e a2 Hstart Hloop Hlive. apply caught_in_band; [|done].
    apply Htry. unfold stream_turn, bind. rewrite Hslot. simpl.
    unfold ret. rewrite Hstart. unfold write, modify. exact Hloop.
  - intros Hopen Hearly.
    destruct (CircuitBreakerFacts.open_fail_fast query
                CircuitBreaker.CLAUDE_SDK_CIRCUIT_OPTIONS
                (claudeSDKCircuitBreaker a0) (breaker_clock env) args (sdk a0)
                Hopen Hearly) as (b' & Hex & _).
    unfold breakerExecute. rewrite Hex.
    eexists. split; [reflexivity|].
    destruct (cancel_while_starting env); [|done].
    unfold cancel. simpl.
    destruct (sessions a0 !! sid) as [s|]; [|done].
    destruct (abortController s); done.
  - reflexivity.
  - reflexivity.
  - intros e Hno. unfold errorText. rewrite Hno. split; [done|].
    exists "[ERROR] Error: ", EmptyString. by rewrite append_empty.
  - intros e Hyes. unfold errorText. rewrite Hyes. split; [done|].
    intros Hshown. apply includes_spec in Hshown.
    pose proof (includes_trans _ _ _ Hyes Hshown) as Hphrase.
    vm_compute in Hphrase. discriminate.
Qed.

(** C1, evaluated on the code. A prompt for a session whose earlier prompt
    is still pending throws a plain [Error] and changes nothing; the
    connection reports a plain [Error] as -32603 "Internal error", with the
    message in [data.details].  The error of code -32002 that
    [RequestError.sessionBusy] builds is not the one sent. *)
Theorem busy_prompt_reported_as_internal_error params env (a : agent W) session :
  sessions a !! prompt_sessionId params = Some session ->
  pendingPrompt session = true ->
  let busy := "Session is busy processing another prompt" in
  prompt_ cfg query handleMessage toFixed1 roundPercent params env a
  = (inl (Error busy), a)
  /\ Protocol.caught (Error busy)
     = Protocol.error
         {| code := -32603; message := "Internal error";
            data := Some (JObj {[ "details" := JStr busy ]}) |}
  /\ Protocol.toResult (Protocol.sessionBusy (Some (prompt_sessionId params)))
     <> Protocol.caught (Error busy).
Proof.
  intros Hs Hbusy busy. repeat apply conj.
  - unfold prompt_, bind, getSession. by rewrite Hs, Hbusy.
  - reflexivity.
  - unfold Protocol.sessionBusy, Protocol.newRequestError, Protocol.toResult,
      Protocol.caught, Protocol.internalError, Protocol.newRequestError.
    intros H. inversion H.
Qed.

End Turn.
End TurnFacts.

Module Witness.
Import Js Agent Scenario.

Lemma breaker_lifecycle_witness :
  CircuitBreaker.state
    (fst (CircuitBreaker.run rejecting two_strikes CircuitBreaker.new 0%nat
            two_rejections)) = CircuitBreaker.OPEN
  /\ exists b',
       CircuitBreaker.execute rejecting two_strikes
         (fst (CircuitBreaker.run rejecting two_strikes CircuitBreaker.new 0%nat
                 two_rejections))
         (at_time 30) tt 2%nat
       = (b', 2%nat, CircuitBreaker.FailFast CircuitBreaker.CIRCUIT_OPEN).
Proof.
  destruct (CircuitBreakerFacts.breaker_lifecycle rejecting two_strikes)
    as (Htrip & Hfast & _); [simpl; lia | simpl; lia |].
  split.
  - apply (Htrip 10 CircuitBreaker.new 0%nat two_rejections);
      [reflexivity | reflexivity | reflexivity | | exact I].
    repeat constructor; simpl; lia.
  - destruct (Hfast (fst (CircuitBreaker.run rejecting two_strikes
                            CircuitBreaker.new 0%nat two_rejections))
                (at_time 30) tt 2%nat) as (b' & Hex & _);
      [reflexivity | simpl; lia |].
    exists b'. exact Hex.
Defined.

Lemma context_monitor_estimate_witness :
  let packed := ContextMonitor.addMessages plain ∅ (hello :: take 99 crowd) in
  let out :=
    ContextMonitor.addMessage plain packed "visitor-99" "x"
      (Some ContextMonitor.user) later in
  snd out = None
  /\ fst out !! "S" = None
  /\ ContextMonitor.estimate (ContextMonitor.addMessages plain ∅ [hello]) "S"
     <= ContextMonitor.estimate
          (ContextMonitor.addMessages plain ∅ [hello; elsewhere; hello]) "S".
Proof.
  intros packed out.
  destruct (ContextMonitorFacts.context_monitor_estimate plain packed
              "visitor-99" "x" (Some ContextMonitor.user) later)
    as (_ & _ & _ & Hnone & _ & _ & _ & _ & Hevicted).
  destruct (ContextMonitorFacts.context_monitor_estimate plain ∅ "S"
              "Hello world" (Some ContextMonitor.user) noon)
    as (_ & _ & _ & _ & _ & _ & Halong & _).
  split; [|split].
  - apply Hnone. vm_compute. reflexivity.
  - eapply Hevicted.
    + vm_compute. reflexivity.
    + discriminate.
    + apply Nat.ltb_lt. vm_compute. reflexivity.
    + vm_compute. reflexivity.
  - apply (Halong [elsewhere; hello] (ContextMonitor.addMessages plain ∅ [hello])).
    split; [|split; [|exact I]].
    + intros st Hst. vm_compute in Hst. injection Hst as <-.
      vm_compute. discriminate.
    + vm_compute. discriminate.
Defined.

Lemma turn_error_in_band_witness :
  fst (executePrompt settings down silent plain whole hi "S" calm idle)
  = inr end_turn
  /\ map update
       (outbox (snd (executePrompt settings down silent plain whole hi "S"
                       calm idle)))
     = [agent_message_chunk "[ERROR] Error: ECONNREFUSED"].
Proof.
  edestruct (TurnFacts.turn_error_in_band settings down silent plain whole
               hi "S" calm idle) as (Hstart & _);
    [vm_compute; reflexivity | reflexivity |].
  erewrite Hstart; [| vm_compute; reflexivity | vm_compute; reflexivity].
  split; vm_compute; reflexivity.
Defined.

Lemma plan_synthesis_witness :
  exists sent a',
    generateAndSendPlan settings "S" (analyzePromptComplexity stepwise) idle
    = (inr tt, a')
    /\ map core sent
       = [ ("Analyze requirements and approach", high, in_progress);
           ("Execute main implementation", high, pending);
           ("Validate and finalize changes", medium, pending) ].
Proof.
  destruct (TurnFacts.plan_synthesis settings stepwise "S" idle
              (createSession default_mode 0))
    as (Hthree & _ & (sent & a' & Hrun & _ & Hsent & _));
    [reflexivity | vm_compute; reflexivity |].
  exists sent, a'. split; [exact Hrun|].
  rewrite Hsent, Hthree; [reflexivity | vm_compute; discriminate].
Defined.

Lemma parse_error_response_witness :
  Protocol.processLine mute strict "  {oops" fresh
  = Protocol.with_written fresh
      [ Protocol.Response (JStr "parse-error")
          (Protocol.error
             {| code := -32700; message := "Parse error";
                data :=
                  Some (JStr "Unexpected token o in JSON at position 1") |}) ].
Proof.
  apply (ProtocolFacts.parse_error_response mute strict "  {oops" fresh
           (Error "Unexpected token o in JSON at position 1"));
    reflexivity.
Defined.

Lemma inline_marker_selects_mode_witness :
  parsePromptPermissionMode default_mode two_markers (Some default_mode)
  = acceptEdits.
Proof.
  destruct (TurnFacts.inline_marker_selects_mode settings plain whole
              {| prompt_sessionId := "S"; prompt := [text_block two_markers] |}
              "S" calm idle (createSession default_mode 0))
    as (_ & Haccept & _); [reflexivity |].
  apply Haccept.
  exists "[ACP:PERMISSION:BYPASS] but keep ", " in mind". reflexivity.
Defined.


Lemma explicit_permission_test_witness :
  requiresExplicitPermission "/w" read_outside = true.
Proof.
  apply (BrokerFacts.explicit_permission_test (W := nat) settings titled kinded
           located "/w" read_outside).
  - right. split; [reflexivity|].
    intros files p [= <-] [<- | [<- | []]] _; split; reflexivity.
  - right; right. exists ["/w/notes.txt"; "/etc/passwd"], "/etc/passwd".
    split; [reflexivity|]. split; [right; by left | reflexivity].
Defined.

Lemma busy_prompt_reported_as_internal_error_witness :
  prompt_ settings down silent plain whole hi calm busy
  = (inl (Error "Session is busy processing another prompt"), busy).
Proof.
  apply (TurnFacts.busy_prompt_reported_as_internal_error settings down silent
           plain whole hi calm busy
           (set_pendingPrompt true (createSession default_mode 0)));
    reflexivity.
Defined.

End Witness.

Module Counterexample.
Import Js Agent Scenario.

(** C3 as stated fails: no token of [mkdir add] is on the danger list and no
    path is affected, yet the test asks for confirmation. *)
Lemma confirmation_by_substring :
  requiresExplicitPermission "/w" mkdir_add = true
  /\ Spec.requiresConfirmation "/w" mkdir_add = false.
Proof. split; vm_compute; reflexivity. Qed.

(** A path that leaves the working directory through [..] passes the test of
    the code, which compares prefixes of strings. *)
Lemma containment_by_prefix :
  requiresExplicitPermission "/w" read_sibling = false
  /\ Spec.requiresConfirmation "/w" read_sibling = true.
Proof. split; vm_compute; reflexivity. Qed.

(** So does a path next to the working directory whose name starts with the
    name of the working directory. *)
Lemma containment_by_name :
  requiresExplicitPermission "/w" read_neighbour = false
  /\ Spec.requiresConfirmation "/w" read_neighbour = true.
Proof. split; vm_compute; reflexivity. Qed.

(** C5 as stated fails: after the first message of "S" its estimate is 3;
    thirty-one minutes later the hundredth message of other sessions removes
    "S", and after the next message of "S" its estimate is 1. *)
Lemma estimate_restarts_after_sweep :
  ContextMonitor.call_session hello = "S"
  /\ ContextMonitor.call_session again = "S"
  /\ ContextMonitor.estimate (ContextMonitor.addMessages plain ∅ [hello]) "S" = 3
  /\ ContextMonitor.estimate
       (ContextMonitor.addMessages plain ∅ (hello :: crowd ++ [again])) "S" = 1.
Proof. repeat split; vm_compute; reflexivity. Qed.

(** C6 as stated fails: the breaker is closed and calls the SDK, which
    throws an error of its own; the text sent is the "Service temporarily
    unavailable" text, which does not hold the text of the error. *)
Lemma foreign_error_shown_as_retry :
  let out := executePrompt settings misleading silent plain whole hi "S" calm idle in
  fst out = inr end_turn
  /\ sdk (snd out) = 1%nat
  /\ map update (outbox (snd out)) = [agent_message_chunk RETRY_TEXT]
  /\ includes UPSTREAM RETRY_TEXT = false
  /\ Error UPSTREAM <> Error CircuitBreaker.CIRCUIT_OPEN.
Proof. repeat split; try (vm_compute; reflexivity). discriminate. Qed.

(** C7 as stated fails: the first entry of the three-step plan reads
    "Analyze requirements and approach". *)
Lemma three_step_plan_wording :
  let c := analyzePromptComplexity stepwise in
  needsPlan c = true /\ 3 <= estimatedSteps c
  /\ map core (synthesizePlan (summary c) (estimatedSteps c))
     <> Spec.threeStepPlan.
Proof. repeat split; vm_compute; discriminate. Qed.

(** C8 as stated fails: the identifier of the parse-error response is the
    string "parse-error", not null. *)
Lemma parse_error_identifier :
  ~ exists r,
      In (Protocol.Response JNull r)
         (Protocol.written (Protocol.processLine mute strict "  {oops" fresh)).
Proof. intros (r & [H | []]). discriminate. Qed.

(** C9 as stated fails: BYPASS occurs first in the text, ACCEPT_EDITS wins. *)
Lemma marker_order_not_position :
  Spec.firstMarker two_markers = Some bypassPermissions
  /\ parsePromptPermissionMode default_mode two_markers (Some default_mode)
     = acceptEdits.
Proof. split; vm_compute; reflexivity. Qed.

End Counterexample.

(** ** The circuit breaker: counters and manual control *)

Module CircuitBreakerControl.
Import CircuitBreaker.

Section Control.

Context {T R E W : Type}.
Variable fn : T -> W -> (E + R) * W.
Variable opts : CircuitBreakerOptions.

Local Abbreviation exec := (execute fn opts).
Local Abbreviation runs := (run fn opts).

Lemma below_cleanup b now :
  below_thresholds opts b -> below_thresholds opts (cleanupOldFailures opts b now).
Proof.
  intros (Hf & Hs & Hc & Hh). unfold cleanupOldFailures.
  destruct (lastFailureTime b) as [t|]; [|done].
  destruct (negb (t =? 0) && (t <? now - monitoringPeriod opts)); [|done].
  repeat split; simpl; try done; try lia.
  intros H. specialize (Hc H). lia.
Qed.

Lemma below_execute b c a w :
  1 <= failureThreshold opts -> 1 <= successThreshold opts ->
  below_thresholds opts b -> below_thresholds opts (fst (fst (exec b c a w))).
Proof.
  intros HN HS Hb. unfold execute, before_try.
  assert (H1 : below_thresholds opts (cleanupOldFailures opts (countCall b) (now_cleanup c))).
  { apply below_cleanup. exact Hb. }
  set (b1 := cleanupOldFailures opts (countCall b) (now_cleanup c)) in *.
  assert (Hpass : forall b2, below_thresholds opts b2 -> state b2 <> OPEN ->
            below_thresholds opts
              (fst (fst (match fn a w with
                         | (inr r, w') => (onSuccess opts b2 (now_settle c), w', Returned r)
                         | (inl e, w') =>
                             (onFailure opts b2 (now_settle c) (now_reopen c), w', Rethrown e)
                         end)))).
  { intros b2 (Hf2 & Hs2 & Hc2 & Hh2) Hno.
    destruct (fn a w) as [[e|r] w']; simpl.
    - unfold onFailure. destruct (state b2) eqn:Hst; simpl.
      + destruct (failureThreshold opts <=? failures b2 + 1) eqn:Hle;
          repeat split; simpl; try done; try lia.
      + done.
      + repeat split; simpl; try done; lia.
    - unfold onSuccess. destruct (state b2) eqn:Hst.
      + repeat split; simpl; try done; try lia. intros _. specialize (Hc2 eq_refl). lia.
      + done.
      + destruct (successThreshold opts <=? successes b2 + 1) eqn:Hle;
          repeat split; simpl; try done; try lia.
        }
  destruct (state b1) eqn:Hst.
  - apply Hpass; [exact H1 | congruence].
  - destruct (now_gate c <? nextAttempt b1); [exact H1|].
    apply Hpass; [|done]. destruct H1 as (Hf & Hs & Hc & Hh).
    unfold toHalfOpen. repeat split; simpl; try done; lia.
  - apply Hpass; [exact H1 | congruence].
Qed.

Lemma below_act b w x :
  1 <= failureThreshold opts -> 1 <= successThreshold opts ->
  below_thresholds opts b -> below_thresholds opts (fst (act fn opts b w x)).
Proof.
  intros HN HS Hb. destruct x as [c a|requested now|]; simpl.
  - pose proof (below_execute b c a w HN HS Hb) as H.
    destruct (exec b c a w) as [[b' w'] o]. exact H.
  - destruct Hb as (Hf & Hs & _ & _). repeat split; simpl; done.
  - repeat split; simpl; try done; lia.
Qed.

(** X1. Whatever is done with a breaker whose thresholds are at least 1,
    starting from a fresh one: calls that resolve, reject or fail fast, at
    any times, and forced openings and closings.  Its counters are never
    negative, a closed circuit never holds [failureThreshold] counted
    failures, and a half-open circuit never holds [successThreshold] counted
    successes. *)
Theorem counters_below_thresholds (xs : list (action (T := T))) (w : W) :
  1 <= failureThreshold opts -> 1 <= successThreshold opts ->
  below_thresholds opts (fst (acts fn opts new w xs)).
Proof.
  intros HN HS.
  assert (H : forall xs b w, below_thresholds opts b ->
                below_thresholds opts (fst (acts fn opts b w xs))).
  { clear xs w. induction xs as [|x xs IH]; intros b w Hb; [done|].
    simpl. pose proof (below_act b w x HN HS Hb) as H.
    destruct (act fn opts b w x) as [b' w']. by apply IH. }
  apply H. repeat split; simpl; try done; lia.
Qed.

(** Every call is counted once, and once more as a success or as a failure
    unless it failed fast. *)
Lemma execute_counts b c a w :
  let '(b', _, o) := exec b c a w in
  totalCalls b' = totalCalls b + 1
  /\ totalSuccesses b' = totalSuccesses b + (if isReturned o then 1 else 0)
  /\ totalFailures b' = totalFailures b + (if isRethrown o then 1 else 0).
Proof.
  unfold execute, before_try.
  assert (Hc : forall b0 now,
            totalCalls (cleanupOldFailures opts b0 now) = totalCalls b0
            /\ totalSuccesses (cleanupOldFailures opts b0 now) = totalSuccesses b0
            /\ totalFailures (cleanupOldFailures opts b0 now) = totalFailures b0).
  { intros b0 now. unfold cleanupOldFailures.
    destruct (lastFailureTime b0) as [t|]; [|done].
    by destruct (negb (t =? 0) && (t <? now - monitoringPeriod opts)). }
  destruct (Hc (countCall b) (now_cleanup c)) as (H1 & H2 & H3).
  set (b1 := cleanupOldFailures opts (countCall b) (now_cleanup c)) in *.
  simpl in H1, H2, H3.
  assert (Hs : forall b2 now,
            totalCalls (onSuccess opts b2 now) = totalCalls b2
            /\ totalSuccesses (onSuccess opts b2 now) = totalSuccesses b2 + 1
            /\ totalFailures (onSuccess opts b2 now) = totalFailures b2).
  { intros b2 now. unfold onSuccess.
    destruct (state b2); [done | done |].
    by destruct (successThreshold opts <=? successes b2 + 1). }
  assert (Hpass : forall b2,
            totalCalls b2 = totalCalls b + 1 ->
            totalSuccesses b2 = totalSuccesses b ->
            totalFailures b2 = totalFailures b ->
            let '(b', _, o) :=
              match fn a w with
              | (inr r, w') => (onSuccess opts b2 (now_settle c), w', Returned r)
              | (inl e, w') =>
                  (onFailure opts b2 (now_settle c) (now_reopen c), w', Rethrown e)
              end in
            totalCalls b' = totalCalls b + 1
            /\ totalSuccesses b' = totalSuccesses b + (if isReturned o then 1 else 0)
            /\ totalFailures b' = totalFailures b + (if isRethrown o then 1 else 0)).
  { intros b2 E1 E2 E3. destruct (fn a w) as [[e|r] w'].
    - simpl. lia.
    - destruct (Hs b2 (now_settle c)) as (S1 & S2 & S3). simpl. lia. }
  destruct (state b1) eqn:Hst.
  - by apply Hpass.
  - destruct (now_gate c <? nextAttempt b1).
    + simpl. lia.
    + by apply Hpass.
  - by apply Hpass.
Qed.

(** X2. The counters that [getStats] reports account for every call:
    [totalCalls] grows by the number of calls made, [totalSuccesses] by the
    number that returned and [totalFailures] by the number whose error was
    rethrown, so the calls that failed fast are those counted in neither. *)
Theorem calls_accounted (calls : list (clock * T)) (b : breaker) (w : W) :
  let b' := fst (runs b w calls) in
  let os := outcomes fn opts b w calls in
  length os = length calls
  /\ totalCalls b' = totalCalls b + Z.of_nat (length calls)
  /\ totalSuccesses b' = totalSuccesses b + Z.of_nat (length (filter isReturned os))
  /\ totalFailures b' = totalFailures b + Z.of_nat (length (filter isRethrown os))
  /\ totalCalls b' - totalSuccesses b' - totalFailures b'
     = totalCalls b - totalSuccesses b - totalFailures b
       + Z.of_nat (length (filter isFailFast os)).
Proof.
  revert b w. induction calls as [|[c a] rest IH]; intros b w.
  - simpl. repeat split; lia.
  - cbn [run outcomes].
    pose proof (execute_counts b c a w) as Hstep.
    destruct (exec b c a w) as [[b1 w1] o].
    destruct Hstep as (H1 & H2 & H3).
    specialize (IH b1 w1). cbv zeta in IH.
    destruct IH as (I0 & I1 & I2 & I3 & I4).
    cbv zeta.
    rewrite !filter_cons.
    destruct o; simpl in *; repeat split; lia.
Qed.

(** X3. After [forceOpen] at time [now], every call whose clock reads
    before [now + wait] fails fast with the CIRCUIT_OPEN error and the
    wrapped function is not invoked; the first call at or after that time is
    let through half open.  The wait is the requested time, or the time of
    the options when none or 0 is requested. *)
Theorem forced_open_fails_fast (b : breaker) (requested : option Z) (now : Z) :
  let wait := match requested with
              | Some 0 | None => timeout opts
              | Some t => t
              end in
  let b0 := forceOpen opts b requested now in
  isHealthy b0 = false
  /\ (forall c a w,
        now_gate c < now + wait ->
        exists b', exec b0 c a w = (b', w, FailFast CIRCUIT_OPEN)
                   /\ state b' = OPEN /\ nextAttempt b' = now + wait)
  /\ (forall c,
        now + wait <= now_gate c ->
        exists b1, before_try opts b0 c = (b1, true)
                   /\ state b1 = HALF_OPEN /\ successes b1 = 0).
Proof.
  intros wait b0.
  assert (Hn : nextAttempt b0 = now + wait).
  { subst b0 wait. unfold forceOpen. simpl.
    destruct requested as [t|]; [|done]. destruct t; done. }
  split; [done|]. split.
  - intros c a w Hgate.
    destruct (CircuitBreakerFacts.open_fail_fast fn opts b0 c a w)
      as (b' & Hex & Hst & Hna); [done | lia |].
    exists b'. rewrite Hna. done.
  - intros c Hgate.
    apply (CircuitBreakerFacts.probe_passes opts 0 b0 c).
    right. split; [done|]. split; [lia | done].
Qed.

(** X4. [forceClosed] makes the breaker healthy and starts the count of
    failures afresh, whatever the state before: from there it again takes
    [failureThreshold] consecutive rejected calls inside one monitoring
    window to open the circuit, and the breaker stays healthy until the last
    of them. *)
Theorem forced_closed_counts_afresh (b : breaker) (w : W) t0
    (calls : list (clock * T)) :
  1 <= failureThreshold opts ->
  Z.of_nat (length calls) = failureThreshold opts ->
  Forall (fun ca => in_window opts t0 (fst ca)) calls ->
  all_reject fn w calls ->
  isHealthy (forceClosed b) = true
  /\ isHealthy (fst (runs (forceClosed b) w calls)) = false
  /\ state (fst (runs (forceClosed b) w calls)) = OPEN
  /\ forall j, (j < length calls)%nat ->
       isHealthy (fst (runs (forceClosed b) w (firstn j calls))) = true.
Proof.
  intros HN Hlen Hwin Hrej.
  assert (Hc : counting t0 0 (forceClosed b)) by (repeat split; by left).
  assert (Hopen : state (fst (runs (forceClosed b) w calls)) = OPEN).
  { refine (proj2 (CircuitBreakerFacts.reject_run fn opts t0 calls 0
                     (forceClosed b) w Hc _ Hwin Hrej) _ _); [lia | | lia].
    intros ->. simpl in Hlen. lia. }
  split; [done|]. split; [|split; [done|]].
  - unfold isHealthy. by rewrite Hopen.
  - intros j Hj.
    assert (Hcount : counting t0 (0 + Z.of_nat (length (firstn j calls)))
                       (fst (runs (forceClosed b) w (firstn j calls)))).
    { refine (proj1 (CircuitBreakerFacts.reject_run fn opts t0 (firstn j calls) 0
                       (forceClosed b) w Hc _ _ _) _); [lia | | |].
      - by apply Forall_take.
      - by apply CircuitBreakerFacts.all_reject_firstn.
      - rewrite length_firstn. lia. }
    destruct Hcount as (Hst & _). unfold isHealthy. by rewrite Hst.
Qed.

End Control.
End CircuitBreakerControl.

(** ** The context monitor: sessions and totals *)

Module ContextMonitorSessions.
Import ContextMonitor ContextMonitorFacts.

(** X5. [cleanupInactiveSessions] keeps exactly the sessions whose last
    activity is at most [maxInactiveMs] old, unchanged, and returns the number
    of sessions it removed: the sessions idle for longer.  It returns 0 exactly
    when it changes nothing. *)
Theorem cleanup_removes_idle
    (sessions : gmap string SessionStats) (maxInactiveMs now : Z) :
  let out := cleanupInactiveSessions sessions maxInactiveMs now in
  let idle :=
    filter (fun kv : string * SessionStats =>
              now - lastActivity kv.2 > maxInactiveMs) sessions in
  (forall sid st,
     fst out !! sid = Some st
     <-> sessions !! sid = Some st /\ now - lastActivity st <= maxInactiveMs)
  /\ snd out = Z.of_nat (size idle)
  /\ Z.of_nat (size (fst out)) + snd out = Z.of_nat (size sessions)
  /\ (snd out = 0 <-> fst out = sessions).
Proof.
  intros out idle. subst out. unfold cleanupInactiveSessions. cbn [fst snd].
  pose (P := fun kv : string * SessionStats => now - lastActivity kv.2 > maxInactiveMs).
  set (kept := filter _ sessions).
  assert (Hsize : size sessions = (size idle + size kept)%nat).
  { pose proof (map_size_disj_union _ _ (map_disjoint_filter_complement P sessions)) as H.
    rewrite map_filter_union_complement in H. exact H. }
  split; [|split; [|split]].
  - intros sid st. subst kept. rewrite map_lookup_filter_Some. simpl.
    split; intros [H1 H2]; (split; [done | lia]).
  - lia.
  - lia.
  - split.
    + intros H0. apply map_subseteq_size_eq; [apply map_filter_subseteq | lia].
    + intros ->. lia.
Qed.

Lemma estimateTokens_nonneg content : 0 <= estimateTokens content.
Proof.
  pose proof (estimateTokens_ceiling content) as H. simpl in H. lia.
Qed.

Lemma consistent_blank now date :
  consistent {| usage := 0; estimatedTokens := 0; messages := 0;
                turnCount := 0; lastActivity := now; lastUpdate := date |}.
Proof. repeat split; simpl; try lia. Qed.

Lemma consistent_added st tokens role now date :
  consistent st -> 0 <= tokens ->
  consistent
    {| usage := Qmin (inject_Z (estimatedTokens st + tokens) / inject_Z CONTEXT_LIMIT) 1;
       estimatedTokens := estimatedTokens st + tokens;
       messages := messages st + 1;
       turnCount := match role with
                    | Some user => turnCount st + 1
                    | _ => turnCount st
                    end;
       lastActivity := now; lastUpdate := date |}.
Proof.
  intros (He & Ht & Hu) Htok. repeat split; simpl; try lia.
  - destruct role as [[]|]; lia.
  - destruct role as [[]|]; lia.
Qed.

Lemma all_consistent_sweep sessions maxInactiveMs now :
  all_consistent sessions ->
  all_consistent (fst (cleanupInactiveSessions sessions maxInactiveMs now)).
Proof.
  intros H sid st. unfold cleanupInactiveSessions. cbn [fst].
  rewrite map_lookup_filter_Some. intros [Hs _]. by apply (H sid).
Qed.

Lemma all_consistent_step toFixed1 sessions x :
  all_consistent sessions -> all_consistent (apply_step toFixed1 sessions x).
Proof.
  intros H. destruct x as [k|sid0 now date|sid0|maxInactiveMs now]; simpl.
  - unfold addMessage', addMessage. cbv zeta. cbn [fst].
    set (st0 := match sessions !! call_session k with
                | Some st => st
                | None => _
                end).
    assert (H0 : consistent st0).
    { subst st0. destruct (sessions !! call_session k) as [st|] eqn:Hs.
      - by apply (H (call_session k)).
      - apply consistent_blank. }
    set (st' := {| usage := _ |}).
    assert (H' : consistent st').
    { apply consistent_added; [done | apply estimateTokens_nonneg]. }
    assert (Hins : all_consistent (<[call_session k := st']> sessions)).
    { intros sid st. destruct (decide (sid = call_session k)) as [->|Hne].
      - rewrite lookup_insert_eq. by intros [= <-].
      - rewrite lookup_insert_ne by done. apply H. }
    destruct (100 <? size (<[call_session k := st']> sessions))%nat.
    + by apply all_consistent_sweep.
    + done.
  - intros sid st. unfold resetSession. rewrite lookup_alter_Some.
    intros [(-> & st1 & Hs & ->)|(Hne & Hs)].
    + apply consistent_blank.
    + by apply (H sid).
  - intros sid st. unfold clearSession. rewrite lookup_delete_Some.
    intros [_ Hs]. by apply (H sid).
  - by apply all_consistent_sweep.
Qed.

(** X8. Whatever is done with a monitor, starting from an empty one
    (messages added for any sessions at any times, sessions reset, removed or
    swept), every record it holds is consistent: the estimate and the
    counters are not negative, no more turns than messages are counted, and
    the usage is the ratio of the estimate to the limit of 200000, capped at
    1; so the usage lies between 0 and 1. *)
Theorem stats_stay_consistent toFixed1 (xs : list step) sid st :
  apply_steps toFixed1 ∅ xs !! sid = Some st ->
  consistent st /\ (0 <= usage st)%Q /\ (usage st <= 1)%Q.
Proof.
  assert (H : forall xs sessions, all_consistent sessions ->
                all_consistent (apply_steps toFixed1 sessions xs)).
  { clear. induction xs as [|x xs IH]; intros sessions Hc; [done|].
    simpl. apply IH. by apply all_consistent_step. }
  intros Hs.
  assert (Hc : consistent st).
  { assert (He : all_consistent (∅ : gmap string SessionStats)).
    { intros sid0 st0. by rewrite lookup_empty. }
    exact (H xs ∅ He sid st Hs). }
  split; [done|]. destruct Hc as (He & _ & Hu). rewrite Hu. split.
  - apply Q.min_glb.
    + apply Qle_shift_div_l; [reflexivity|]. rewrite Qmult_0_l.
      unfold Qle. simpl. lia.
    + discriminate.
  - apply Q.le_min_r.
Qed.

(** X7. A message added for a session, when the sweep of that call does not
    evict the session: the record counts one message more, one turn more
    exactly when the role is "user", and takes the time of the call as its
    last activity.  A session the monitor does not know starts from 0. *)
Theorem addMessage_counts
    (toFixed1 : Q -> string) (sessions : gmap string SessionStats)
    (sid content : string) (role : option Role) (c : clock) :
  now_sweep c - now_activity c <= 30 * 60 * 1000 ->
  let before st := match getStats sessions sid with
                   | Some old => st old
                   | None => 0
                   end in
  exists st,
    getStats (fst (addMessage toFixed1 sessions sid content role c)) sid = Some st
    /\ messages st = before messages + 1
    /\ turnCount st = before turnCount + match role with Some user => 1 | _ => 0 end
    /\ lastActivity st = now_activity c.
Proof.
  intros Hsweep before. unfold addMessage, getStats. cbv zeta. cbn [fst].
  set (st' := {| usage := _ |}).
  assert (Hst : messages st' = before messages + 1
                /\ turnCount st' = before turnCount
                                   + match role with Some user => 1 | _ => 0 end
                /\ lastActivity st' = now_activity c).
  { subst st' before. unfold getStats. simpl.
    destruct (sessions !! sid); destruct role as [[]|]; simpl; repeat split; lia. }
  exists st'. split; [|done].
  destruct (100 <? size (<[sid:=st']> sessions))%nat.
  - apply cleanup_keeps; [apply lookup_insert_eq|].
    destruct Hst as (_ & _ & ->). exact Hsweep.
  - apply lookup_insert_eq.
Qed.

(** X6. [resetSession] keeps the record of the session and zeroes it, and
    touches no other session; for a session the monitor does not know it does
    nothing.  The next message of a session that was reset is accounted for
    like the first message of a session that was removed: the same estimate,
    the same warning. *)
Theorem reset_starts_afresh
    (toFixed1 : Q -> string) (sessions : gmap string SessionStats)
    (sid : string) (now date : Z) :
  let reset := resetSession sessions sid now date in
  (is_Some (getStats reset sid) <-> is_Some (getStats sessions sid))
  /\ estimate reset sid = 0
  /\ (forall other, other <> sid -> getStats reset other = getStats sessions other)
  /\ (getStats sessions sid = None -> reset = sessions)
  /\ (forall content role c,
        snd (addMessage toFixed1 reset sid content role c)
        = snd (addMessage toFixed1 (clearSession sessions sid) sid content role c)
        /\ (now_sweep c - now_activity c <= 30 * 60 * 1000 ->
            estimate (fst (addMessage toFixed1 reset sid content role c)) sid
            = estimateTokens content
            /\ estimate (fst (addMessage toFixed1 (clearSession sessions sid)
                                sid content role c)) sid
               = estimateTokens content)).
Proof.
  intros reset. subst reset. unfold getStats, resetSession, clearSession.
  split; [|split; [|split; [|split]]].
  - rewrite <- !not_eq_None_Some, lookup_alter_None. done.
  - unfold estimate. rewrite lookup_alter_eq. by destruct (sessions !! sid).
  - intros other Hne. by rewrite lookup_alter_ne.
  - intros Hnone. by apply alter_id'.
  - intros content role c. split.
    + unfold addMessage. cbv zeta. cbn [snd].
      rewrite lookup_alter_eq, lookup_delete_eq.
      by destruct (sessions !! sid).
    + intros Hsweep. split.
      * destruct (addMessage_stored toFixed1
                    (alter (fun _ => {| usage := 0; estimatedTokens := 0;
                                        messages := 0; turnCount := 0;
                                        lastActivity := now; lastUpdate := date |})
                       sid sessions) sid content role c Hsweep)
          as ((st & Hl & He & _) & _).
        unfold estimate at 1. rewrite Hl, He.
        unfold estimate. rewrite lookup_alter_eq.
        destruct (sessions !! sid); simpl; lia.
      * destruct (addMessage_stored toFixed1 (delete sid sessions) sid content
                    role c Hsweep) as ((st & Hl & He & _) & _).
        unfold estimate at 1. rewrite Hl, He.
        unfold estimate. rewrite lookup_delete_eq. lia.
Qed.

(** The sum of a field over the records of a monitor. *)
Lemma total_insert (field : SessionStats -> Z)
    (sessions : gmap string SessionStats) sid st :
  map_fold (fun _ st acc => acc + field st) 0 (<[sid := st]> sessions)
  = map_fold (fun _ st acc => acc + field st) 0 sessions
    - match sessions !! sid with Some old => field old | None => 0 end
    + field st.
Proof.
  destruct (sessions !! sid) as [old|] eqn:Hs.
  - rewrite <- insert_delete_eq.
    rewrite (map_fold_insert_L (fun _ st acc => acc + field st));
      [| intros; lia | apply lookup_delete_eq].
    rewrite (map_fold_delete_L (fun _ st acc => acc + field st) 0 sid old sessions);
      [| intros; lia | done].
    lia.
  - rewrite (map_fold_insert_L (fun _ st acc => acc + field st));
      [| intros; lia | done].
    lia.
Qed.

(** X9. While the monitor holds at most 100 sessions, so that no sweep runs,
    a message added for any session raises the totals [getMemoryStats]
    reports by one message and by the estimate of its content, and the number
    of active sessions by one exactly when the session is new. *)
Theorem memory_stats_add
    (toFixed1 : Q -> string) (sessions : gmap string SessionStats)
    (sid content : string) (role : option Role) (c : clock) :
  let new := if decide (is_Some (getStats sessions sid)) then 0 else 1 in
  Z.of_nat (size sessions) + new <= 100 ->
  let before := getMemoryStats sessions in
  let after := getMemoryStats (fst (addMessage toFixed1 sessions sid content role c)) in
  totalMessages after = totalMessages before + 1
  /\ totalTokens after = totalTokens before + estimateTokens content
  /\ activeSessions after = activeSessions before + new.
Proof.
  intros new Hsize before after. subst before after.
  unfold addMessage. cbv zeta. cbn [fst].
  set (st' := {| usage := _ |}).
  assert (Hsz : Z.of_nat (size (<[sid := st']> sessions))
                = Z.of_nat (size sessions) + new).
  { rewrite map_size_insert. subst new. unfold getStats.
    destruct (sessions !! sid) as [old|] eqn:Hs; simpl; lia. }
  assert ((100 <? size (<[sid := st']> sessions))%nat = false) as ->.
  { apply Nat.ltb_ge. lia. }
  unfold getMemoryStats. cbn [totalMessages totalTokens activeSessions].
  rewrite !total_insert, Hsz.
  subst st'. simpl.
  destruct (sessions !! sid) as [old|] eqn:Hs; repeat split; simpl; lia.
Qed.

End ContextMonitorSessions.

(** ** Strings, and the connection: requests, framing, files *)

Module ConnectionFacts.
Import Js Protocol JsStrings ProtocolFacts.

Section Connection.

Context {A : Type}.
Variable handler :
  json -> option json -> connection A -> (thrown + option json) * connection A.
Variable JSON_parse : string -> thrown + json.

Local Abbreviation lines_of := (processLines handler JSON_parse).
Local Abbreviation chunk := (receiveChunk handler JSON_parse).
Local Abbreviation recv := (receive handler JSON_parse).

Lemma removelast_app_cons {X} (l : list X) x l' :
  removelast (l ++ x :: l') = (l ++ removelast (x :: l'))%list.
Proof. by rewrite removelast_app. Qed.

Lemma last_app_cons {X} (l : list X) x l' d :
  List.last (l ++ x :: l') d = List.last (x :: l') d.
Proof.
  induction l as [|y l IH]; [done|].
  change (List.last (y :: (l ++ x :: l')) d = List.last (x :: l') d).
  rewrite <- IH. destruct (l ++ x :: l')%list eqn:E; [by destruct l | done].
Qed.

(** Two chunks, one after the other, are received like the one chunk made
    of both. *)
Lemma receiveChunk_app content c1 c2 (c : connection A) :
  chunk content (c1 ++ c2) c
  = chunk (fst (chunk content c1 c)) c2 (snd (chunk content c1 c)).
Proof.
  unfold receiveChunk. cbn [fst snd].
  set (lines1 := split EOL (content ++ c1)).
  set (content1 := List.last lines1 EmptyString).
  assert (H2 : split EOL (content1 ++ c2)
               = (content1 ++ hd EmptyString (split EOL c2)) :: tl (split EOL c2)).
  { rewrite split_app, (split_free EOL content1) by apply last_split_free. done. }
  assert (H : split EOL (content ++ c1 ++ c2)
              = (removelast lines1 ++ split EOL (content1 ++ c2))%list).
  { rewrite <- append_assoc, split_app. fold lines1 content1. by rewrite H2. }
  rewrite H, H2.
  rewrite removelast_app_cons, last_app_cons, processLines_app. done.
Qed.

(** X12. The framing does not depend on where the transport cuts the byte
    stream: as long as the connection is not destroyed while the first of
    two chunks is processed, receiving them one after the other leaves the
    connection, and the text kept for the next chunk, as receiving the one
    chunk made of both does. *)
Theorem receive_chunking content c1 c2 rest (c : connection A) :
  isDestroyed (snd (chunk content c1 c)) = false ->
  recv content (c1 :: c2 :: rest) c = recv content ((c1 ++ c2) :: rest) c.
Proof.
  intros Hlive. cbn [receive].
  destruct (isDestroyed c) eqn:Hc; [done|].
  rewrite (receiveChunk_app content c1 c2 c).
  destruct (chunk content c1 c) as [content1 c'] eqn:H1.
  cbn [fst snd] in *. by rewrite Hlive.
Qed.

(** X14. No received text is lost or made up by the framing: after a
    chunk, what was kept before followed by the chunk is the lines processed,
    each followed by a line feed, followed by the text that is kept for the
    next chunk; and the text kept holds no line feed. *)
Theorem received_text_kept content c1 (c : connection A) :
  free_of EOL (fst (chunk content c1 c)) = true
  /\ content ++ c1
     = join (String EOL EmptyString)
         (removelast (split EOL (content ++ c1)) ++ [fst (chunk content c1 c)])
  /\ snd (chunk content c1 c)
     = lines_of (removelast (split EOL (content ++ c1))) c.
Proof.
  unfold receiveChunk. cbn [fst snd]. split; [apply last_split_free|].
  split; [|done].
  destruct (split_cons EOL (content ++ c1)) as (p & ps & Hs).
  rewrite <- app_removelast_last by (rewrite Hs; done).
  by rewrite join_split.
Qed.

(** X13. Lines of white space only are skipped: no handler runs for them,
    nothing is parsed and nothing is written, on any connection. *)
Theorem blank_lines_skipped (lines : list string) (c : connection A) :
  Forall (fun line => every isWhiteSpace line = true) lines ->
  lines_of lines c = c.
Proof.
  induction 1 as [|line lines Hline _ IH]; [done|].
  unfold processLines in *. simpl. unfold processLine at 2.
  apply trim_empty in Hline. rewrite Hline. exact IH.
Qed.

Lemma numbered_fresh (c : connection A) :
  numbered c -> inl (nextRequestId c) ∉ pendingResponses c.
Proof. intros H Hin. destruct (H _ Hin) as (n & [= <-] & Hlt). lia. Qed.

(** X10. A request sent on a live connection takes the next number as its
    identifier and is pending; its frame is not written yet, it is chained on
    the write queue.  When the queue runs while the connection is alive, the
    frame is written, after the frames chained before it.  When the
    connection is destroyed first, the queue writes nothing and the request
    is rejected with "Connection destroyed".  After the write, the response
    that carries the number settles the request, with the result or with the
    error, and takes it out of the pending requests again; a second response
    with the same number, and a response whose identifier is a string,
    change nothing. *)
Theorem request_response_round_trip method params (c : connection A) :
  isDestroyed c = false -> numbered c ->
  let id := nextRequestId c in
  let frame := Request (JNum id) method params in
  let c1 := snd (sendRequest method params c) in
  let sent := drain c1 in
  fst (sendRequest method params c) = inr id
  /\ writeQueue c1 = (writeQueue c ++ [frame])%list
  /\ written c1 = written c
  /\ pendingResponses c1 = {[ inl id ]} ∪ pendingResponses c
  /\ numbered c1
  /\ sent = with_written (with_writeQueue c1 [])
              (written c ++ writeQueue c ++ [frame])
  /\ (written (drain (destroy c1)) = written c
      /\ writeQueue (drain (destroy c1)) = []
      /\ exists e,
           (inl id, rejected (JObj e)) ∈ settlements (drain (destroy c1))
           /\ e !! "message" = Some (JStr "Connection destroyed"))
  /\ (forall fields,
        fields !! "id" = Some (JNum id) ->
        let c2 := handleResponse fields sent in
        pendingResponses c2 = pendingResponses c
        /\ settlements c2
           = (settlements c
              ++ match fields !! "result", fields !! "error" with
                 | Some v, _ => [(inl id, resolved v)]
                 | None, Some e => [(inl id, rejected e)]
                 | None, None => []
                 end)%list
        /\ written c2 = written sent
        /\ handleResponse fields c2 = c2)
  /\ (forall fields s,
        fields !! "id" = Some (JStr s) -> handleResponse fields sent = sent).
Proof.
  intros Hlive Hnum id frame c1 sent.
  assert (Hfresh : inl id ∉ pendingResponses c) by (by apply numbered_fresh).
  assert (Hsend : sendRequest method params c
                  = (inr id,
                     {| pendingResponses := {[ inl id ]} ∪ pendingResponses c;
                        settlements := settlements c;
                        nextRequestId := id + 1; isDestroyed := false;
                        writeQueue := writeQueue c ++ [frame];
                        written := written c;
                        app := app c |})).
  { unfold sendRequest, sendMessage. rewrite Hlive. done. }
  assert (Hsent : sent = with_written (with_writeQueue c1 [])
                           (written c ++ writeQueue c ++ [frame])).
  { subst sent c1. rewrite Hsend. cbn [snd]. by rewrite drain_live. }
  rewrite Hsent. clear Hsent sent.
  subst c1. rewrite Hsend. cbn [fst snd].
  split; [done|]. split; [done|]. split; [done|]. split; [done|].
  split; [|split; [done|split; [|split]]].
  - unfold numbered. intros k Hk. cbn in Hk. apply elem_of_union in Hk as [Hk|Hk].
    + apply elem_of_singleton in Hk as ->. exists id. split; [done | cbn; lia].
    + destruct (Hnum k Hk) as (n & -> & Hlt). exists n. split; [done | cbn; lia].
  - rewrite drain_destroyed by done. cbn.
    split; [done|]. split; [done|].
    eexists. split.
    + apply elem_of_app. right. apply list_elem_of_In, in_map_iff.
      exists (inl id). split; [reflexivity|].
      apply list_elem_of_In, elem_of_elements, elem_of_union. left.
      by apply elem_of_singleton.
    + rewrite lookup_insert_ne by done. by rewrite lookup_insert_eq.
  - intros fields Hid. unfold handleResponse. rewrite Hid.
    cbn [mbind option_bind key_of pendingResponses with_written with_writeQueue].
    assert (Hin : inl id ∈ ({[inl id]} ∪ pendingResponses c : gset (Z + string))).
    { apply elem_of_union. left. by apply elem_of_singleton. }
    assert (Hback : ({[inl id]} ∪ pendingResponses c) ∖ {[inl id]}
                    = pendingResponses c).
    { apply set_eq. intros k.
      rewrite elem_of_difference, elem_of_union, elem_of_singleton.
      split; [by intros [[->|H] Hn] | intros H; split; [by right | by intros ->]]. }
    rewrite decide_True by done.
    cbn [pendingResponses settlements written].
    rewrite Hback. split; [done|]. split; [done|]. split; [done|].
    by rewrite decide_False.
  - intros fields s Hid. unfold handleResponse. rewrite Hid.
    cbn [mbind option_bind key_of pendingResponses with_written with_writeQueue].
    rewrite decide_False; [done|].
    intros Hin. apply elem_of_union in Hin as [Hin|Hin].
    + by apply elem_of_singleton in Hin.
    + by destruct (Hnum _ Hin) as (n & [=] & _).
Qed.

(** X11. [destroy] rejects every pending request, once, with the error
    -32003 "Connection destroyed", and settles nothing else; no request is
    pending afterwards and nothing is written.  On a destroyed connection a
    request throws without taking a number, a notification is dropped, and
    destroying again changes nothing. *)
Theorem destroy_rejects_pending (c : connection A) :
  let c' := destroy c in
  isDestroyed c' = true /\ pendingResponses c' = ∅ /\ written c' = written c
  /\ (exists news,
        settlements c' = (settlements c ++ news)%list
        /\ NoDup (map fst news)
        /\ (forall k, k ∈ map fst news <-> k ∈ pendingResponses c)
        /\ (forall k s, (k, s) ∈ news ->
              exists e, s = rejected (JObj e)
                /\ e !! "code" = Some (JNum (-32003))
                /\ e !! "message" = Some (JStr "Connection destroyed")))
  /\ (forall method params,
        sendRequest method params c' = (inl (Error "Connection is destroyed"), c')
        /\ sendNotification method params c' = c')
  /\ destroy c' = c'.
Proof.
  intros c'. subst c'. unfold destroy. cbn [isDestroyed pendingResponses written settlements].
  split; [done|]. split; [done|]. split; [done|]. split; [|split].
  - eexists. split; [reflexivity|].
    rewrite map_map. cbn [fst]. rewrite map_id.
    split; [apply NoDup_elements|]. split.
    + intros k. apply elem_of_elements.
    + intros k s Hin.
      apply list_elem_of_In, in_map_iff in Hin as (k' & [= <- <-] & _).
      eexists. split; [reflexivity|]. split; [done|].
      rewrite lookup_insert_ne by done. by rewrite lookup_insert_eq.
  - intros method params. by unfold sendRequest, sendNotification.
  - rewrite elements_empty. simpl. by rewrite app_nil_r.
Qed.

End Connection.

(** X15. The window [#handleReadTextFile] returns for positive [limit] and
    [line]: the first [limit] lines of the file, followed by the line
    "... (truncated)" when the file has more; from these the lines before
    [line] are dropped, so that the added line counts as a line of the file.
    When the file has no more than [limit] lines and [line] is 1, or neither
    is given, the content is returned as it is. *)
Theorem read_window (content : string) (limit line : Z) :
  0 < limit -> 0 < line ->
  let lines := split LF content in
  let shown :=
    (take (Z.to_nat limit) lines
     ++ (if limit <? Z.of_nat (length lines) then [TRUNCATED] else []))%list in
  processedContent content (Some limit) (Some line)
  = join (String LF EmptyString) (drop (Z.to_nat (line - 1)) shown)
  /\ processedContent content (Some limit) None = join (String LF EmptyString) shown
  /\ processedContent content None (Some line)
     = join (String LF EmptyString) (drop (Z.to_nat (line - 1)) lines)
  /\ processedContent content None None = content
  /\ (Z.of_nat (length lines) <= limit ->
      processedContent content (Some limit) (Some 1) = content).
Proof.
  intros Hlimit Hline lines shown.
  assert (Hl : (0 <? limit) = true) by (by apply Z.ltb_lt).
  assert (Hn : (0 <? line) = true) by (by apply Z.ltb_lt).
  assert (Hmax : Z.max 0 (line - 1) = line - 1) by lia.
  destruct (split_cons LF content) as (p & ps & Hs).
  assert (Htake : take (Z.to_nat limit) lines <> []).
  { subst lines. rewrite Hs. destruct (Z.to_nat limit) eqn:E; [lia | done]. }
  assert (Hfree : Forall (fun p => free_of LF p = true) shown).
  { subst shown. apply Forall_app. split.
    - apply Forall_take, split_pieces_free.
    - destruct (limit <? Z.of_nat (length lines)); by repeat constructor. }
  assert (Hshown : shown <> []).
  { subst shown. intros [H _]%app_eq_nil. done. }
  assert (Hfirst : processedContent content (Some limit) None
                   = join (String LF EmptyString) shown).
  { unfold processedContent. rewrite Hl. fold lines. subst shown.
    destruct (limit <? Z.of_nat (length lines)).
    - by rewrite join_snoc.
    - by rewrite app_nil_r. }
  split; [|split; [|split; [|split]]].
  - unfold processedContent in *. rewrite Hl in *. rewrite Hn. fold lines in Hfirst |- *.
    cbv zeta in Hfirst. rewrite Hfirst, Hmax. by rewrite split_join.
  - exact Hfirst.
  - unfold processedContent. rewrite Hn, Hmax. done.
  - done.
  - intros Hall. unfold processedContent. rewrite Hl. fold lines.
    assert ((limit <? Z.of_nat (length lines)) = false) as -> by (apply Z.ltb_ge; lia).
    rewrite take_ge by lia. subst lines. rewrite join_split.
    change (0 <? 1) with true. cbv iota.
    change (Z.to_nat (Z.max 0 (1 - 1))) with 0%nat.
    rewrite drop_0. apply join_split.
Qed.

End ConnectionFacts.

(** ** The outcomes of a turn *)

Module TurnOutcomes.
Import Js Agent JsFacts TurnFacts.

Section Turn.

Context {W : Type}.
Variable cfg : Config.
Variable query : QueryArgs -> W -> (thrown + Stream) * W.
Variable handleMessage : string -> gmap string json -> M W unit.
Variable toFixed1 : Q -> string.
Variable roundPercent : Q -> Z.

Local Open Scope agent_scope.

Local Abbreviation run_turn :=
  (executePrompt cfg query handleMessage toFixed1 roundPercent).
Local Abbreviation run_prompt :=
  (prompt_ cfg query handleMessage toFixed1 roundPercent).

(** A turn never throws, and its [finally] block leaves the session idle. *)
Lemma executePrompt_returns params sid env (a : agent W) :
  exists r a',
    run_turn params sid env a = (inr r, a')
    /\ pendingPrompt (session_of sid a') = false
    /\ abortController (session_of sid a') = None.
Proof.
  unfold executePrompt, try_finally, try_catch.
  assert (Hidle : forall a1 : agent W,
            pendingPrompt (session_of sid (executePrompt_finally sid a1)) = false
            /\ abortController (session_of sid (executePrompt_finally sid a1)) = None).
  { intros a1. unfold session_of, executePrompt_finally. simpl.
    rewrite lookup_alter_eq. by destruct (sessions a1 !! sid). }
  destruct (executePrompt_try _ _ _ _ _ _ _ _ a) as [[e|r] a1].
  - unfold executePrompt_catch, bind, read.
    destruct (aborted (session_of sid a1)); simpl; eexists _, _; (split; [reflexivity|]);
      apply Hidle.
  - eexists _, _. split; [reflexivity|]. apply Hidle.
Qed.

(** X16. A turn never ends with a method error: whatever the prompt, the
    SDK and the handling of its messages do, [executePrompt] returns a stop
    reason.  It leaves the session without a pending prompt and without an
    abort controller, so that the next prompt of the session, if the session
    is still there and an operation slot is free, is not refused as busy but
    runs and returns a stop reason too. *)
Theorem turn_always_settles params sid env (a : agent W) :
  exists r a',
    run_turn params sid env a = (inr r, a')
    /\ pendingPrompt (session_of sid a') = false
    /\ abortController (session_of sid a') = None
    /\ forall params' env',
         prompt_sessionId params' = sid ->
         is_Some (sessions a' !! sid) ->
         prompt_slot env' = true ->
         exists r' a'', run_prompt params' env' a' = (inr r', a'').
Proof.
  destruct (executePrompt_returns params sid env a) as (r & a' & Hrun & Hp & Hc).
  exists r, a'. split; [done|]. split; [done|]. split; [done|].
  intros params' env' Hsid [s' Hs'] Hslot.
  unfold session_of in Hp, Hc. rewrite Hs' in Hp, Hc. simpl in Hp, Hc.
  unfold prompt_, bind, getSession. rewrite Hsid, Hs', Hp, Hc, Hslot.
  unfold ret, write, modify.
  destruct (executePrompt_returns params' sid env'
              (with_sessions (alter (set_abortController (Some false)) sid (sessions a')) a'))
    as (r' & a'' & Hrun' & _).
  by exists r', a''.
Qed.

Lemma cancel_fires sid (a : agent W) s f :
  sessions a !! sid = Some s -> abortController s = Some f ->
  cancel sid a
  = (inr tt,
     with_sessions
       (alter (fun s => set_pendingPrompt false (set_abortController (Some true) s))
          sid (sessions a)) a).
Proof. intros Hs Hf. unfold cancel. by rewrite Hs, Hf. Qed.

(** X17. Cancellation.  [cancel] for a session that is not known, or that
    has no turn running, does nothing, and [cancel] never throws.  While a
    turn consumes the stream of the SDK, a cancel handled before a message
    (or while the stream was started) ends the loop with [cancelled]: the
    message and those after it are not handled, nothing is sent to the host,
    and the SDK, the breaker and the monitor are left as they are.  If the
    [try] block throws after the cancel, the turn still ends with
    [cancelled] and no error text is sent. *)
Theorem cancelled_turn sid (a : agent W) :
  ((sessions a !! sid = None
    \/ exists s, sessions a !! sid = Some s /\ abortController s = None) ->
   cancel sid a = (inr tt, a))
  /\ (exists a', cancel sid a = (inr tt, a')
        /\ outbox a' = outbox a /\ same_backend a a'
        /\ forall other, other <> sid -> sessions a' !! other = sessions a !! other)
  /\ (forall s f piece rest cancel_at_end ending,
        sessions a !! sid = Some s -> abortController s = Some f ->
        cancel_before piece = true \/ f = true ->
        exists a',
          consume handleMessage sid (piece :: rest) cancel_at_end ending a
          = (inr cancelled, a')
          /\ a' = (if cancel_before piece then snd (cancel sid a) else a)
          /\ outbox a' = outbox a /\ same_backend a a')
  /\ (forall params env e a1,
        executePrompt_try cfg query handleMessage toFixed1 roundPercent
          params sid env a = (inl e, a1) ->
        aborted (session_of sid a1) = true ->
        run_turn params sid env a = (inr cancelled, executePrompt_finally sid a1)
        /\ outbox (executePrompt_finally sid a1) = outbox a1).
Proof.
  assert (Hcancel : exists a', cancel sid a = (inr tt, a')
            /\ outbox a' = outbox a /\ same_backend a a'
            /\ forall other, other <> sid -> sessions a' !! other = sessions a !! other).
  { unfold cancel. destruct (sessions a !! sid) as [s|] eqn:Hs.
    - destruct (abortController s).
      + eexists. split; [reflexivity|]. repeat split.
        intros other Hne. simpl. by rewrite lookup_alter_ne.
      + by exists a.
    - by exists a. }
  split; [|split; [|split]].
  - intros [Hnone|(s & Hs & Hno)]; unfold cancel.
    + by rewrite Hnone.
    + by rewrite Hs, Hno.
  - exact Hcancel.
  - intros s f piece rest cancel_at_end ending Hs Hf Hwhy.
    cbn [consume]. unfold bind, when.
    destruct (cancel_before piece) eqn:Hcb.
    + rewrite (cancel_fires sid a s f Hs Hf). unfold read. cbn [snd].
      set (a1 := with_sessions _ a).
      assert (Hfired : aborted (session_of sid a1) = true).
      { unfold session_of, aborted. subst a1. simpl.
        by rewrite lookup_alter_eq, Hs. }
      rewrite Hfired. unfold saveSessionState, ret.
      eexists. split; [reflexivity|]. repeat split.
    + destruct Hwhy as [[=]| ->]. unfold ret, read.
      assert (Hfired : aborted (session_of sid a) = true).
      { unfold session_of, aborted. rewrite Hs. simpl. by rewrite Hf. }
      rewrite Hfired. unfold saveSessionState, ret.
      eexists. split; [reflexivity|]. repeat split.
  - intros params env e a1 Htry Hfired. split; [|done].
    unfold executePrompt, try_finally, try_catch. rewrite Htry.
    unfold executePrompt_catch, bind, read. by rewrite Hfired.
Qed.

(** X18. The refusals of [prompt].  For a session it does not know and for
    a known, idle session when no operation slot is free, [prompt] throws a
    plain [Error]; the first leaves the agent as it is, the second leaves
    only a fresh abort controller in the session.  The connection reports a
    plain [Error] as -32603 "Internal error" with the message in
    [data.details]. *)
Theorem prompt_refusals params env (a : agent W) :
  let sid := prompt_sessionId params in
  (sessions a !! sid = None ->
   run_prompt params env a = (inl (Error ("Session " ++ sid ++ " not found")), a))
  /\ (forall s,
        sessions a !! sid = Some s -> pendingPrompt s = false ->
        prompt_slot env = false ->
        run_prompt params env a
        = (inl (Error "System resources exhausted - cannot process prompt"),
           with_sessions (<[sid := set_abortController (Some false) s]> (sessions a)) a))
  /\ (forall m,
        Protocol.caught (Error m)
        = Protocol.error
            {| code := -32603; message := "Internal error";
               data := if truthy_string m
                       then Some (JObj {[ "details" := JStr m ]}) else None |}).
Proof.
  intros sid. split; [|split].
  - intros Hnone. unfold prompt_, bind, getSession. fold sid. by rewrite Hnone.
  - intros s Hs Hidle Hslot. unfold prompt_, bind, getSession. fold sid.
    rewrite Hs, Hidle, Hslot.
    assert (Hset : forall a0 : agent W,
              sessions a0 !! sid = Some s ->
              alter (set_abortController (Some false)) sid
                (alter (set_abortController (Some true)) sid (sessions a0))
              = <[sid := set_abortController (Some false) s]> (sessions a0)).
    { intros a0 H0. apply map_eq. intros k.
      destruct (decide (k = sid)) as [->|Hne].
      - by rewrite !lookup_alter_eq, lookup_insert_eq, H0.
      - by rewrite !lookup_alter_ne, lookup_insert_ne. }
    assert (Hset' : alter (set_abortController (Some false)) sid (sessions a)
                    = <[sid := set_abortController (Some false) s]> (sessions a)).
    { apply map_eq. intros k.
      destruct (decide (k = sid)) as [->|Hne].
      - by rewrite lookup_alter_eq, lookup_insert_eq, Hs.
      - by rewrite lookup_alter_ne, lookup_insert_ne. }
    destruct (abortController s); unfold write, modify, ret, throw; simpl.
    + by rewrite Hset.
    + by rewrite Hset'.
  - intros m. unfold Protocol.caught, Protocol.toResult, Protocol.internalError,
      Protocol.newRequestError. done.
Qed.

End Turn.
End TurnOutcomes.

(** ** The start of a turn *)

Module TurnStart.
Import Js Agent JsFacts TurnFacts.

Section Turn.

Context {W : Type}.
Variable cfg : Config.
Variable query : QueryArgs -> W -> (thrown + Stream) * W.
Variable handleMessage : string -> gmap string json -> M W unit.
Variable toFixed1 : Q -> string.
Variable roundPercent : Q -> Z.

Local Open Scope agent_scope.

Local Abbreviation run_turn :=
  (executePrompt cfg query handleMessage toFixed1 roundPercent).

Lemma during_outbox sid s a mode (a' : agent W) v :
  during sid s a mode a' -> during sid s a mode (with_outbox v a').
Proof. done. Qed.

Lemma during_write sid s a mode mode' f (a' : agent W) :
  (forall s', permissionMode s' = mode -> kept s s' ->
              permissionMode (f s') = mode' /\ kept s (f s')) ->
  during sid s a mode a' ->
  during sid s a mode' (with_sessions (alter f sid (sessions a')) a').
Proof.
  intros Hf ((s' & Hs' & Hm & Hk) & Hb & Hw & Hp & Ho).
  destruct (Hf s' Hm Hk) as (Hm' & Hk').
  split; [|split; [done|split; [done|split; [done|]]]].
  - exists (f s'). simpl. by rewrite lookup_alter_eq, Hs'.
  - intros other Hne. simpl. rewrite lookup_alter_ne by done. by apply Ho.
Qed.

Lemma during_session_of sid s a mode (a' : agent W) :
  during sid s a mode a' ->
  permissionMode (session_of sid a') = mode
  /\ claudeSessionId (session_of sid a') = claudeSessionId s.
Proof.
  intros ((s' & Hs' & Hm & Hk) & _). unfold session_of. rewrite Hs'. simpl.
  split; [done|]. apply Hk.
Qed.

Lemma generateAndSendPlan_during sid c s a mode (a' : agent W) :
  during sid s a mode a' ->
  returns (generateAndSendPlan cfg sid c) a' (fun _ a'' => during sid s a mode a'').
Proof.
  intros Hd. unfold generateAndSendPlan.
  destruct Hd as ((s' & Hs' & Hm & Hk) & Hrest).
  apply returns_bind; eapply returns_getSession; [exact Hs'|].
  apply returns_bind, returns_modify.
  set (a1 := with_sessions _ a').
  assert (H1 : during sid s a mode a1).
  { apply (during_write sid s a mode mode); [done|]. split; [by exists s' | done]. }
  unfold sendPlanUpdate. apply returns_bind.
  destruct H1 as ((s1 & Hs1 & Hm1 & Hk1) & Hrest1).
  assert (Hind : forall t, returns (addModeIndicators cfg sid t) a1
                   (fun _ a'' => a'' = a1)).
  { intros t. unfold addModeIndicators.
    apply returns_bind; eapply returns_getSession; [exact Hs1|].
    destruct t as [t|]; [|by apply returns_ret].
    destruct (truthy_string t); [|by apply returns_ret].
    destruct (existsb _ _); by apply returns_ret. }
  destruct (synthesizePlan (summary c) (estimatedSteps c)) as [|first rest].
  - apply returns_ret. apply returns_modify. split; [by exists s1 | done].
  - apply returns_bind. destruct (Hind (title first)) as (t & a'' & Ht & ->).
    exists t, a1. split; [done|]. apply returns_ret, returns_modify.
    split; [by exists s1 | done].
Qed.

(** The pre-flight of a turn in full: it returns when the session exists,
    with the arguments of the query; it sets the mode of the session and
    leaves the breaker, the SDK and the other sessions alone. *)
Lemma preflight_during params sid env (a : agent W) s :
  sessions a !! sid = Some s ->
  let text := promptTextOf (prompt params) in
  let mode := parsePromptPermissionMode (defaultPermissionMode cfg) text
                (permissionMode s) in
  returns (preflight cfg toFixed1 roundPercent params sid env) a
    (fun args a0 =>
       during sid s a (Some mode) a0
       /\ args = {| query_prompt := text;
                    query_options :=
                      {| query_permissionMode := Some mode;
                         query_executable := pathToClaudeCodeExecutable cfg;
                         resume := claudeSessionId s;
                         query_maxTurns :=
                           if 0 <? maxTurns cfg then Some (maxTurns cfg)
                           else None |} |}).
Proof.
  intros Hs text mode. unfold preflight. fold text.
  apply returns_bind, returns_addMessage. intros m w.
  set (a1 := with_contextMonitor m a).
  assert (H1 : during sid s a (permissionMode s) a1).
  { split; [by exists s | done]. }
  apply returns_bind.
  assert (Hw : returns
            match w with
            | Some w0 => sendContextWarning roundPercent sid w0
            | None => ret tt
            end a1 (fun _ a' => during sid s a (permissionMode s) a')).
  { destruct w; [apply returns_modify | apply returns_ret]; done. }
  destruct Hw as ([] & a2 & Hw & H2). exists tt, a2. split; [exact Hw|].
  apply returns_bind, returns_read.
  rewrite (proj1 (during_session_of _ _ _ _ _ H2)).
  apply returns_bind, returns_modify.
  set (a3 := with_sessions _ a2).
  assert (H3 : during sid s a (Some mode) a3).
  { apply (during_write sid s a (permissionMode s)); [done | done]. }
  apply returns_bind, returns_read.
  rewrite (proj1 (during_session_of _ _ _ _ _ H3)).
  apply returns_bind.
  set (report := match Some mode, permissionMode s with
                 | Some bypassPermissions, Some bypassPermissions => false
                 | Some bypassPermissions, _ => true
                 | _, _ => false
                 end).
  assert (Hr : returns (when report (reportBypassMode sid)) a3
                 (fun _ a' => during sid s a (Some mode) a')).
  { apply returns_when; intros _; [apply returns_modify|]; done. }
  destruct Hr as ([] & a4 & Hr & H4). exists tt, a4. split; [exact Hr|].
  apply returns_bind, returns_read.
  rewrite (proj2 (during_session_of _ _ _ _ _ H4)).
  apply returns_bind, returns_modify.
  set (a5 := with_sessions _ a4).
  assert (H5 : during sid s a (Some mode) a5).
  { apply (during_write sid s a (Some mode)); [done | done]. }
  apply returns_bind, returns_read.
  apply returns_bind.
  match goal with
  | |- returns (when ?b ?m) _ _ =>
      assert (Ht : returns (when b m) a5 (fun _ a' => during sid s a (Some mode) a'))
  end.
  { apply returns_when; intros _; [apply returns_modify|]; done. }
  destruct Ht as ([] & a6 & Ht & H6). exists tt, a6. split; [exact Ht|].
  apply returns_bind.
  match goal with
  | |- returns (when ?b ?m) _ _ =>
      assert (Hp : returns (when b m) a6 (fun _ a' => during sid s a (Some mode) a'))
  end.
  { apply returns_when; intros _; [by apply generateAndSendPlan_during | done]. }
  destruct Hp as ([] & a7 & Hp & H7). exists tt, a7. split; [exact Hp|].
  apply returns_ret. done.
Qed.

(** X19. What a turn asks of the SDK.  The query carries the text blocks
    of the prompt, joined; the mode the prompt selects; the identifier of the
    SDK session recorded for the session, to resume it; the path of the
    executable; and the limit of turns, which is left out when the configured
    limit is 0.  Getting there, the turn touches neither the breaker nor the
    SDK nor any other session, and asks no permission. *)
Theorem query_of_turn params sid env (a : agent W) s :
  sessions a !! sid = Some s ->
  exists args a0,
    preflight cfg toFixed1 roundPercent params sid env a = (inr args, a0)
    /\ query_prompt args = promptTextOf (prompt params)
    /\ query_permissionMode (query_options args)
       = Some (parsePromptPermissionMode (defaultPermissionMode cfg)
                 (promptTextOf (prompt params)) (permissionMode s))
    /\ resume (query_options args) = claudeSessionId s
    /\ query_executable (query_options args) = pathToClaudeCodeExecutable cfg
    /\ (maxTurns cfg <= 0 -> query_maxTurns (query_options args) = None)
    /\ (0 < maxTurns cfg -> query_maxTurns (query_options args) = Some (maxTurns cfg))
    /\ claudeSDKCircuitBreaker a0 = claudeSDKCircuitBreaker a
    /\ sdk a0 = sdk a
    /\ permissionRequests a0 = permissionRequests a
    /\ forall other, other <> sid -> sessions a0 !! other = sessions a !! other.
Proof.
  intros Hs.
  destruct (preflight_during params sid env a s Hs)
    as (args & a0 & Hrun & (_ & Hb & Hw & Hp & Ho) & ->).
  eexists _, a0. split; [exact Hrun|]. cbn.
  repeat split; try done.
  - intros H. by assert ((0 <? maxTurns cfg) = false) as -> by (apply Z.ltb_ge; lia).
  - intros H. by assert ((0 <? maxTurns cfg) = true) as -> by (apply Z.ltb_lt; lia).
Qed.

(** X20. When no operation slot is free for the query, the turn does not
    reach the SDK: the breaker counts no call and the state of the SDK is as
    before.  The refusal is shown in-band, as the text "[ERROR] Error: System
    resources exhausted - cannot execute Claude query", and the turn ends
    with [end_turn]; it ends with [cancelled], and shows nothing, when the
    session was cancelled meanwhile. *)
Theorem query_slot_refused params sid env (a : agent W) s :
  sessions a !! sid = Some s ->
  query_slot env = false ->
  let refusal := Error "System resources exhausted - cannot execute Claude query" in
  exists a0,
    executePrompt_try cfg query handleMessage toFixed1 roundPercent params sid env a
    = (inl refusal, a0)
    /\ claudeSDKCircuitBreaker a0 = claudeSDKCircuitBreaker a
    /\ sdk a0 = sdk a
    /\ run_turn params sid env a
       = (if aborted s then (inr cancelled, executePrompt_finally sid a0)
          else (inr end_turn, in_band sid refusal a0))
    /\ errorText refusal
       = "[ERROR] Error: System resources exhausted - cannot execute Claude query".
Proof.
  intros Hs Hslot refusal.
  destruct (preflight_during params sid env a s Hs)
    as (args & a0 & Hrun & ((s' & Hs' & _ & (_ & Hab & _)) & Hb & Hw & _) & _).
  exists a0.
  assert (Htry : executePrompt_try cfg query handleMessage toFixed1 roundPercent
                   params sid env a = (inl refusal, a0)).
  { unfold executePrompt_try, bind. rewrite Hrun.
    unfold stream_turn, bind. by rewrite Hslot. }
  split; [exact Htry|]. split; [done|]. split; [done|]. split; [|done].
  assert (Hfired : aborted (session_of sid a0) = aborted s).
  { unfold session_of, aborted. rewrite Hs'. simpl. by rewrite Hab. }
  destruct (aborted s) eqn:Ha.
  - unfold executePrompt, try_finally, try_catch. rewrite Htry.
    unfold executePrompt_catch, bind, read. by rewrite Hfired.
  - by apply caught_in_band.
Qed.

End Turn.
End TurnStart.

(** ** The plan of a session *)

Module PlanFacts.
Import Js Agent.

Lemma advancePlan_length entries :
  length (fst (advancePlan entries)) = length entries
  /\ map content (fst (advancePlan entries)) = map content entries
  /\ map priority (fst (advancePlan entries)) = map priority entries
  /\ map title (fst (advancePlan entries)) = map title entries.
Proof.
  induction entries as [|entry rest IH]; [done|].
  simpl. destruct (status entry).
  - destruct (advancePlan rest) as [rest' updated]. simpl in *.
    destruct IH as (-> & -> & -> & ->). done.
  - destruct rest as [|next rest']; [done|].
    destruct (status next); done.
  - destruct (advancePlan rest) as [rest' updated]. simpl in *.
    destruct IH as (-> & -> & -> & ->). done.
  - destruct (advancePlan rest) as [rest' updated]. simpl in *.
    destruct IH as (-> & -> & -> & ->). done.
Qed.

Lemma count_status_cons v e l :
  count_status v (e :: l)
  = ((match status e, v with
      | pending, pending | in_progress, in_progress
      | completed, completed | failed, failed => 1
      | _, _ => 0
      end) + count_status v l)%nat.
Proof. unfold count_status. simpl. by destruct (status e), v. Qed.

Lemma advancePlan_counts entries :
  let out := advancePlan entries in
  (snd out = false ->
     fst out = entries /\ count_status in_progress entries = 0%nat)
  /\ (snd out = true ->
        (0 < count_status in_progress entries)%nat
        /\ count_status completed (fst out) = S (count_status completed entries)
        /\ (count_status in_progress (fst out) <= count_status in_progress entries)%nat
        /\ count_status failed (fst out) = count_status failed entries).
Proof.
  induction entries as [|entry rest IH]; [done|].
  cbv zeta in *. cbn [advancePlan].
  assert (Hskip : status entry <> in_progress ->
            let out := advancePlan rest in
            (snd out = false ->
               entry :: fst out = entry :: rest
               /\ count_status in_progress (entry :: rest) = 0%nat)
            /\ (snd out = true ->
                  (0 < count_status in_progress (entry :: rest))%nat
                  /\ count_status completed (entry :: fst out)
                     = S (count_status completed (entry :: rest))
                  /\ (count_status in_progress (entry :: fst out)
                      <= count_status in_progress (entry :: rest))%nat
                  /\ count_status failed (entry :: fst out)
                     = count_status failed (entry :: rest))).
  { intros Hne. cbv zeta. rewrite !count_status_cons.
    destruct IH as [IH0 IH1]. split.
    - intros H. destruct (IH0 H) as [-> ->]. split; [done|].
      by destruct (status entry).
    - intros H. destruct (IH1 H) as (? & ? & ? & ?). repeat split; lia. }
  destruct (status entry) eqn:Hst.
  - destruct (advancePlan rest) as [rest' updated]. by apply Hskip.
  - cbn [fst snd]. split; [done|]. intros _.
    rewrite !count_status_cons, Hst. cbn [status set_status].
    destruct rest as [|next rest']; [repeat split; simpl; lia|].
    rewrite !count_status_cons.
    destruct (status next) eqn:Hn; rewrite ?count_status_cons; cbn [status set_status];
      rewrite ?Hn; repeat split; lia.
  - destruct (advancePlan rest) as [rest' updated]. by apply Hskip.
  - destruct (advancePlan rest) as [rest' updated]. by apply Hskip.
Qed.

Lemma advancePlan_sequential (done_ : list PlanEntry) entry rest :
  Forall (fun e => status e = completed) done_ ->
  status entry = in_progress ->
  advancePlan (done_ ++ entry :: rest)
  = ((done_ ++ set_status completed entry
        :: match rest with
           | next :: rest' =>
               match status next with
               | pending => set_status in_progress next :: rest'
               | _ => next :: rest'
               end
           | [] => []
           end)%list, true).
Proof.
  intros Hdone Hentry. induction Hdone as [|e done_ He _ IH].
  - simpl. by rewrite Hentry.
  - simpl. rewrite He, IH. done.
Qed.

(** X21. A tool that completes advances the plan of the session by one
    step: the first entry that is in progress becomes completed and the
    entry after it, if it is pending, goes in progress; no other entry
    changes, and nothing changes in a plan with no entry in progress.  So a
    plan never gains an entry in progress; and in a plan worked from the
    front (completed entries, then one in progress, then pending ones) each
    completion moves the mark by one. *)
Theorem plan_advances (entries : list PlanEntry) :
  let out := advancePlan entries in
  length (fst out) = length entries
  /\ map content (fst out) = map content entries
  /\ map priority (fst out) = map priority entries
  /\ (snd out = false <-> count_status in_progress entries = 0%nat)
  /\ (snd out = false -> fst out = entries)
  /\ (snd out = true ->
        count_status completed (fst out) = S (count_status completed entries)
        /\ (count_status in_progress (fst out) <= count_status in_progress entries)%nat)
  /\ (forall done_ entry todo,
        entries = (done_ ++ entry :: todo)%list ->
        Forall (fun e => status e = completed) done_ ->
        status entry = in_progress ->
        Forall (fun e => status e = pending) todo ->
        snd out = true
        /\ map status (fst out)
           = (map status done_ ++ completed
                :: match todo with
                   | [] => []
                   | _ :: todo' => in_progress :: map status todo'
                   end)%list).
Proof.
  intros out. subst out.
  destruct (advancePlan_length entries) as (Hlen & Hc & Hp & _).
  destruct (advancePlan_counts entries) as (H0 & H1). cbv zeta in H0, H1.
  split; [done|]. split; [done|]. split; [done|]. split; [|split; [|split]].
  - split; [by intros H; apply H0|].
    intros Hnone. destruct (snd (advancePlan entries)); [|done].
    destruct (H1 eq_refl) as (Hpos & _). lia.
  - by intros H; apply H0.
  - intros H. destruct (H1 H) as (_ & ? & ? & _). done.
  - intros done_ entry todo -> Hdone Hentry Htodo.
    rewrite (advancePlan_sequential done_ entry todo Hdone Hentry). cbn [fst snd].
    split; [done|]. rewrite map_app. f_equal. simpl. f_equal.
    destruct todo as [|next todo']; [done|].
    inversion Htodo as [|? ? Hn _]; subst. rewrite Hn. done.
Qed.

Section Method.

Context {W : Type}.

(** X22. [updatePlanForToolCompletion] throws for a session that is not
    known (the lookup of the session throws), changes nothing and schedules
    no plan update for a session without a plan, and otherwise stores the
    advanced plan in the session; a plan update is scheduled exactly when the
    plan had an entry in progress.  Nothing is sent to the host by the call
    itself. *)
Theorem plan_update_on_completion sid (a : agent W) :
  (sessions a !! sid = None ->
   updatePlanForToolCompletion sid a
   = (inl (Error ("Session " ++ sid ++ " not found")), a))
  /\ (forall s, sessions a !! sid = Some s -> currentPlan s = None ->
        updatePlanForToolCompletion sid a = (inr false, a))
  /\ (forall s entries,
        sessions a !! sid = Some s -> currentPlan s = Some entries ->
        exists a',
          updatePlanForToolCompletion sid a
          = (inr (snd (advancePlan entries)), a')
          /\ currentPlan (session_of sid a') = Some (fst (advancePlan entries))
          /\ outbox a' = outbox a
          /\ (snd (advancePlan entries) = true
              <-> exists e, In e entries /\ status e = in_progress)).
Proof.
  split; [|split].
  - intros Hnone. unfold updatePlanForToolCompletion, bind, getSession.
    by rewrite Hnone.
  - intros s Hs Hplan. unfold updatePlanForToolCompletion, bind, getSession.
    by rewrite Hs, Hplan.
  - intros s entries Hs Hplan.
    unfold updatePlanForToolCompletion, bind, getSession. rewrite Hs, Hplan.
    destruct (advancePlan entries) as [entries' updated] eqn:Hadv.
    unfold write, modify, ret. cbn [fst snd].
    eexists. split; [reflexivity|]. split; [|split; [done|]].
    + unfold session_of. simpl. by rewrite lookup_alter_eq, Hs.
    + assert (Hex : forall l, snd (advancePlan l) = true
                      <-> exists e, In e l /\ status e = in_progress).
      { clear. induction l as [|e l IH]; simpl.
        - split; [done | by intros (e & [] & _)].
        - destruct (status e) eqn:Hst.
          + destruct (advancePlan l) as [l' u]. simpl in *. rewrite IH.
            split; [intros (e' & Hin & He'); exists e'; by split; [right|]|].
            intros (e' & [<-|Hin] & He'); [congruence | by exists e'].
          + split; [intros _; exists e; by split; [left|] | done].
          + destruct (advancePlan l) as [l' u]. simpl in *. rewrite IH.
            split; [intros (e' & Hin & He'); exists e'; by split; [right|]|].
            intros (e' & [<-|Hin] & He'); [congruence | by exists e'].
          + destruct (advancePlan l) as [l' u]. simpl in *. rewrite IH.
            split; [intros (e' & Hin & He'); exists e'; by split; [right|]|].
            intros (e' & [<-|Hin] & He'); [congruence | by exists e']. }
      rewrite <- Hex, Hadv. done.
Qed.

End Method.
End PlanFacts.

(** ** Tool calls *)

Module ToolFacts.
Import Js Agent ToolEnhancer.

Lemma existsb_eqb (x : string) seen : existsb (String.eqb x) seen = true <-> x ∈ seen.
Proof.
  rewrite existsb_exists, list_elem_of_In. split.
  - by intros (y & Hin & ->%String.eqb_eq).
  - intros Hin. exists x. split; [done | apply String.eqb_refl].
Qed.

Lemma unique_spec files : forall seen,
  NoDup (unique seen files)
  /\ forall x, x ∈ unique seen files <-> x ∈ files /\ x ∉ seen.
Proof.
  induction files as [|f rest IH]; intros seen.
  - split; [constructor|]. intros x. simpl. split; [by intros ?%elem_of_nil|].
    by intros [?%elem_of_nil _].
  - simpl. destruct (existsb (String.eqb f) seen) eqn:Hf.
    + apply existsb_eqb in Hf. destruct (IH seen) as [Hnd Hin].
      split; [done|]. intros x. rewrite Hin, elem_of_cons.
      split; [intros [? ?]; split; [by right | done]|].
      intros [[->|?] Hno]; [done | by split].
    + assert (Hnot : f ∉ seen).
      { intros Hin%existsb_eqb. congruence. }
      destruct (IH (f :: seen)) as [Hnd Hin]. split.
      * constructor; [|done]. rewrite Hin. intros [_ Hno]. apply Hno. by left.
      * intros x. rewrite !elem_of_cons, Hin, elem_of_cons.
        split.
        -- intros [->|[Hx Hno]]; [by split; [left|] |].
           split; [by right|]. intros Hs. apply Hno. by right.
        -- intros [[->|Hx] Hno]; [by left|].
           destruct (decide (x = f)) as [->|Hne]; [by left|].
           right. split; [done|]. by intros [?|?].
Qed.

(** X23. The locations reported for a tool call.  [analyzeToolOperation]
    collects the strings found in the file properties of the input and in
    its file arrays; the affected files are these strings without
    duplicates, or none at all when there is no such string or the input is
    not an object, never an empty list.  [extractToolLocations] reports one
    location for each affected file, in the same order, so no path twice, and
    gives every location the same line, the one found in the input. *)
Theorem locations_of_tool_call (toolName : string) (input : option json) :
  let context := analyzeToolOperation toolName input in
  let locations := extractToolLocations context in
  map path locations = default [] (affectedFiles context)
  /\ NoDup (map path locations)
  /\ Forall (fun l => line l = extractLineNumber input) locations
  /\ affectedFiles context <> Some []
  /\ (forall f, f ∈ map path locations
        <-> exists inputObj, input = Some (JObj inputObj) /\ f ∈ collectFiles inputObj)
  /\ (isValidInput input = false -> locations = []).
Proof.
  intros context locations. subst locations context.
  unfold extractToolLocations, analyzeToolOperation. cbn [affectedFiles Agent.input].
  assert (Hmap : forall files,
            map path (map (fun filePath =>
                             {| path := filePath; line := extractLineNumber input |})
                        files) = files).
  { intros files. rewrite map_map. apply map_id. }
  assert (Hnone : ~ exists inputObj, input = Some (JObj inputObj)
                                     /\ False) by (by intros (? & _ & [])).
  unfold extractAffectedFiles.
  destruct input as [[| | | | |inputObj]|];
    try (cbn; repeat split; try done; try constructor;
         [by intros ?%elem_of_nil | by intros (? & [=] & _)]).
  remember (collectFiles inputObj) as files eqn:Hfiles.
  assert (Hiff : forall f : string,
            (exists inputObj0, Some (JObj inputObj) = Some (JObj inputObj0)
                               /\ f ∈ collectFiles inputObj0) <-> f ∈ files).
  { intros f. split; [by intros (? & [= <-] & Hf); subst | intros Hf].
    exists inputObj. by subst. }
  clear Hfiles.
  destruct (0 <? length files)%nat eqn:Hlen.
  - destruct (unique_spec files []) as [Hnd Hin].
    cbn [default]. rewrite Hmap.
    split; [done|]. split; [done|]. split; [|split; [|split]].
    + apply Forall_forall. intros l Hl%list_elem_of_In.
      apply in_map_iff in Hl as (x & <- & _). done.
    + intros [= Hempty]. apply Nat.ltb_lt in Hlen.
      destruct files as [|f rest] eqn:Hc; [simpl in Hlen; lia|].
      assert (Hf : f ∈ unique [] (f :: rest)).
      { apply Hin. split; [by left | by intros ?%elem_of_nil]. }
      rewrite Hempty in Hf. by apply elem_of_nil in Hf.
    + intros f. rewrite Hin, Hiff. split; [by intros [? _]|].
      intros Hf. split; [done | by intros ?%elem_of_nil].
    + done.
  - cbn [default map]. split; [done|]. split; [constructor|]. split; [constructor|].
    split; [done|]. split; [|done].
    intros f. rewrite Hiff. apply Nat.ltb_ge in Hlen.
    destruct files; [done | simpl in Hlen; lia].
Qed.

(** X24. The kind of a tool call and the type of its operation are read off
    the same lower-cased tool name and agree on it: the kind is "read",
    "edit" or "delete" only for operations of that type, and every read and
    edit operation has that kind.  When the name holds neither "rm" nor
    "mv", which only the operation type looks for, the kind names the type
    of every operation that is not of type other, and the operations of type
    other are those of kind "fetch", "think" or "other".  No operation is of
    type create. *)
Theorem kind_matches_operation (toolName : string) :
  let kind := mapToolKind toolName in
  let type := inferOperationType toolName in
  let toolLower := toLowerCase toolName in
  (kind = "read" <-> type = op_read)
  /\ (kind = "edit" <-> type = op_edit)
  /\ (kind = "delete" -> type = op_delete)
  /\ type <> op_create
  /\ (includes "rm" toolLower = false -> includes "mv" toolLower = false ->
      (type <> op_other -> kind = kindOf type)
      /\ (type = op_other -> kind = "fetch" \/ kind = "think" \/ kind = "other")).
Proof.
  intros kind type toolLower. subst kind type.
  unfold mapToolKind, inferOperationType. fold toolLower.
  generalize toolLower. clear toolLower. intros l.
  split; [|split; [|split; [|split]]].
  - decide_includes l; split; (done || discriminate).
  - decide_includes l; split; (done || discriminate).
  - decide_includes l; (done || discriminate).
  - decide_includes l; discriminate.
  - intros Hrm Hmv.
    decide_includes l; (split; [intros Hne; try done; by destruct Hne | intros Hoth; try discriminate; auto]).
Qed.

End ToolFacts.

(** ** Resources, configuration and the estimate of a prompt *)

Module ResourceFacts.
Import ResourceManager.

Section Limits.

Variable limits : ResourceLimits.

Lemma size_add (x : string) (X : gset string) :
  (size ({[ x ]} ∪ X) <= S (size X))%nat
  /\ (x ∈ X -> {[ x ]} ∪ X = X).
Proof.
  destruct (decide (x ∈ X)) as [Hin|Hout].
  - assert (H : {[ x ]} ∪ X = X).
    { apply set_eq. intros y. rewrite elem_of_union, elem_of_singleton.
      split; [by intros [->|?] | by right]. }
    rewrite H. split; [lia | done].
  - split; [|done]. rewrite size_union.
    + rewrite size_singleton. lia.
    + intros y Hy%elem_of_singleton Hy'. by subst.
Qed.

Lemma size_remove (x : string) (X : gset string) :
  (size (X ∖ {[ x ]}) <= size X)%nat
  /\ (x ∈ X -> size (X ∖ {[ x ]}) = pred (size X))
  /\ (x ∉ X -> X ∖ {[ x ]} = X).
Proof.
  split; [|split].
  - apply subseteq_size. intros y Hy%elem_of_difference. tauto.
  - intros Hin. rewrite size_difference.
    + rewrite size_singleton. lia.
    + intros y Hy%elem_of_singleton. by subst.
  - intros Hout. apply set_eq. intros y.
    rewrite elem_of_difference, elem_of_singleton.
    split; [tauto|]. intros Hy. split; [done|]. by intros ->.
Qed.

Lemma within_limits_act m x :
  within_limits limits m -> within_limits limits (act limits m x).
Proof.
  intros [Ho Hs]. destruct x as [id mem|id|id|id|]; simpl.
  - unfold startOperation. destruct (canStartOperation limits m mem) eqn:Hcan; [|done].
    split; [|done]. simpl.
    unfold canStartOperation in Hcan.
    apply andb_true_iff in Hcan as [[_ Hlt]%andb_true_iff _].
    apply Z.ltb_lt in Hlt.
    pose proof (proj1 (size_add id (concurrentOperations m))). lia.
  - split; [|done]. cbn [finishOperation concurrentOperations].
    pose proof (proj1 (size_remove id (concurrentOperations m))). lia.
  - unfold addSession.
    destruct (maxConcurrentSessions limits <=? Z.of_nat (size (activeSessions m)))
      eqn:Hfull; [done|].
    split; [done|]. simpl. apply Z.leb_gt in Hfull.
    pose proof (proj1 (size_add id (activeSessions m))). lia.
  - split; [done|]. cbn [removeSession activeSessions].
    pose proof (proj1 (size_remove id (activeSessions m))). lia.
  - split; unfold destroy, new; cbn [concurrentOperations activeSessions];
      rewrite size_empty; lia.
Qed.

Lemma acts_within_limits (xs : list action) :
  within_limits limits (acts limits new xs).
Proof.
  assert (H : forall xs m, within_limits limits m ->
                within_limits limits (acts limits m xs)).
  { clear xs. induction xs as [|x xs IH]; intros m Hm; [done|].
    simpl. apply IH. by apply within_limits_act. }
  apply H. split; unfold new; cbn [concurrentOperations activeSessions];
    rewrite size_empty; lia.
Qed.

(** X25. Whatever operations and sessions are started, finished, added and
    removed, in any order and at any memory use, a resource manager never
    holds more operations than [maxConcurrentOperations] nor more sessions
    than [maxConcurrentSessions]; and what it refuses it does not take: a
    refused operation or session leaves the manager as it was. *)
Theorem limits_are_kept (xs : list action) :
  let m := acts limits new xs in
  within_limits limits m
  /\ (forall operationId memoryUsageMB,
        fst (startOperation limits m operationId memoryUsageMB) = false ->
        snd (startOperation limits m operationId memoryUsageMB) = m)
  /\ (forall sessionId,
        fst (addSession limits m sessionId) = false ->
        snd (addSession limits m sessionId) = m
        /\ maxConcurrentSessions limits <= Z.of_nat (size (activeSessions m))).
Proof.
  intros m. split; [apply acts_within_limits|]. split.
  - intros operationId memoryUsageMB. unfold startOperation.
    by destruct (negb (canStartOperation limits m memoryUsageMB)).
  - intros sessionId. unfold addSession.
    destruct (maxConcurrentSessions limits <=? Z.of_nat (size (activeSessions m)))
      eqn:Hfull; [|done].
    intros _. split; [done|]. by apply Z.leb_le.
Qed.

(** X26. Operation slots.  With [maxConcurrentOperations] operations
    active, [startOperation] refuses and changes nothing, whatever the
    memory use.  [finishOperation] of an active operation gives its slot
    back: when the memory use is not critical and the limit of file
    descriptors leaves room for all operations and sessions, the next
    [startOperation] succeeds.  [finishOperation] of an operation that is
    not active changes nothing, and starting an operation that is already
    active takes no second slot. *)
Theorem operation_slots (m : manager) (operationId : string) (memoryUsageMB : Z) :
  (maxConcurrentOperations limits <= Z.of_nat (size (concurrentOperations m)) ->
   startOperation limits m operationId memoryUsageMB = (false, m))
  /\ (forall finished,
        finished ∈ concurrentOperations m ->
        Z.of_nat (size (concurrentOperations m)) <= maxConcurrentOperations limits ->
        memoryUsageMB <= memoryCriticalThresholdMB limits ->
        activeFileDescriptors m <= maxFileDescriptors limits ->
        fst (startOperation limits (finishOperation m finished) operationId
               memoryUsageMB) = true)
  /\ (operationId ∉ concurrentOperations m -> finishOperation m operationId = m)
  /\ (operationId ∈ concurrentOperations m ->
      canStartOperation limits m memoryUsageMB = true ->
      startOperation limits m operationId memoryUsageMB = (true, m)).
Proof.
  split; [|split; [|split]].
  - intros Hfull. unfold startOperation, canStartOperation.
    assert ((Z.of_nat (size (concurrentOperations m))
             <? maxConcurrentOperations limits) = false) as ->
      by (apply Z.ltb_ge; lia).
    by rewrite andb_false_r.
  - intros finished Hin Hsize Hmem Hfds.
    unfold startOperation, canStartOperation, activeFileDescriptors in *.
    cbn [finishOperation concurrentOperations activeSessions].
    destruct (size_remove finished (concurrentOperations m)) as (_ & Hpred & _).
    rewrite (Hpred Hin).
    assert (Hpos : (0 < size (concurrentOperations m))%nat).
    { destruct (decide (size (concurrentOperations m) = 0%nat)) as [H0|]; [|lia].
      apply size_empty_inv in H0. apply leibniz_equiv in H0. rewrite H0 in Hin.
      by apply elem_of_empty in Hin. }
    assert ((memoryUsageMB <=? memoryCriticalThresholdMB limits) = true) as ->
      by (apply Z.leb_le; lia).
    assert ((Z.of_nat (pred (size (concurrentOperations m)))
             <? maxConcurrentOperations limits) = true) as ->
      by (apply Z.ltb_lt; lia).
    assert ((Z.of_nat (pred (size (concurrentOperations m))) * 2
             + Z.of_nat (size (activeSessions m)) + 10
             <? maxFileDescriptors limits) = true) as ->
      by (apply Z.ltb_lt; lia).
    done.
  - intros Hout. unfold finishOperation.
    rewrite (proj2 (proj2 (size_remove operationId (concurrentOperations m))) Hout).
    by destruct m.
  - intros Hin Hcan. unfold startOperation. rewrite Hcan. simpl.
    rewrite (proj2 (size_add operationId (concurrentOperations m)) Hin).
    by destruct m.
Qed.

End Limits.

(** X27. Under the default limits (50 operations, 100 sessions, 1000 file
    descriptors, 768 MB) the estimate of file descriptors never refuses an
    operation: for a manager within its limits, an operation can start
    exactly when the memory use is at most 768 MB and fewer than 50
    operations are active. *)
Theorem default_limits_admission (xs : list action) (memoryUsageMB : Z) :
  let m := acts defaultLimits new xs in
  canStartOperation defaultLimits m memoryUsageMB
  = (memoryUsageMB <=? 768)
    && (Z.of_nat (size (concurrentOperations m)) <? 50).
Proof.
  intros m. destruct (acts_within_limits defaultLimits xs) as [Ho Hs].
  fold m in Ho, Hs. simpl in Ho, Hs.
  unfold canStartOperation, activeFileDescriptors. simpl.
  destruct (Z.of_nat (size (concurrentOperations m)) <? 50) eqn:Hlt.
  - assert ((Z.of_nat (size (concurrentOperations m)) * 2
             + Z.of_nat (size (activeSessions m)) + 10 <? 1000) = true) as ->
      by (apply Z.ltb_lt; lia).
    by rewrite andb_true_r.
  - by rewrite andb_false_r.
Qed.

End ResourceFacts.

Module ConfigFacts.
Import Js Agent JsStrings.

Lemma digit_not_space c : isDigit c = true -> isWhiteSpace c = false.
Proof. destruct c as [[] [] [] [] [] [] [] []]; done. Qed.

Lemma digit_not_sign c :
  isDigit c = true -> c <> "-"%char /\ c <> "+"%char /\ 0 <= digitValue c <= 9.
Proof. destruct c as [[] [] [] [] [] [] [] []]; try done; repeat split; try done; cbv; congruence. Qed.

Lemma digitsPrefix_digits s : forall acc,
  every isDigit s = true ->
  digitsPrefix s acc true
  = Some (fold_left (fun acc c => 10 * acc + digitValue c) (list_ascii_of_string s) acc).
Proof.
  induction s as [|c s IH]; intros acc; [done|].
  simpl. intros [Hc Hs]%andb_true_iff. rewrite Hc. by apply IH.
Qed.

Lemma fold_digits_nonneg s : forall acc,
  every isDigit s = true -> 0 <= acc ->
  0 <= fold_left (fun acc c => 10 * acc + digitValue c) (list_ascii_of_string s) acc.
Proof.
  induction s as [|c s IH]; intros acc; [done|].
  simpl. intros [Hc Hs]%andb_true_iff Hacc. apply IH; [done|].
  destruct (digit_not_sign c Hc) as (_ & _ & Hv). lia.
Qed.

(** Below 2^53 every integer is a double. *)
Lemma toDouble_exact n : Z.abs n < 2 ^ 53 -> toDouble n = Finite n.
Proof.
  intros H. unfold toDouble.
  by assert ((Z.abs n <? 2 ^ 53) = true) as -> by (by apply Z.ltb_lt).
Qed.

(** From 2^53 on, the double for [n] is a significand of 53 bits times the
    power of two that [n] has beyond them, no further from [n] than half
    that power, and with an even significand when it is that far. *)
Lemma toDouble_rounds n m :
  2 ^ 53 <= n -> toDouble n = Finite m ->
  let e := Z.log2 n - 52 in
  exists q, m = q * 2 ^ e /\ 2 ^ 52 <= q <= 2 ^ 53
            /\ 2 * Z.abs (m - n) <= 2 ^ e
            /\ (2 * Z.abs (m - n) = 2 ^ e -> Z.even q = true).
Proof.
  intros Hn Hm e. unfold toDouble in Hm.
  assert (H53 : 0 < 2 ^ 53) by done.
  assert (Habs : Z.abs n = n) by lia. rewrite Habs in Hm.
  assert ((n <? 2 ^ 53) = false) as Hbig by (apply Z.ltb_ge; lia).
  rewrite Hbig in Hm. fold e in Hm. cbv zeta in Hm.
  pose proof (Z.log2_spec n ltac:(lia)) as [Hlo Hhi].
  assert (Hlog : 53 <= Z.log2 n).
  { apply Z.log2_le_pow2; lia. }
  assert (He : 1 <= e) by (subst e; lia).
  assert (Hpow : 2 ^ Z.log2 n = 2 ^ 52 * 2 ^ e).
  { rewrite <- Z.pow_add_r by lia. f_equal. subst e. lia. }
  assert (Hpow' : 2 ^ Z.succ (Z.log2 n) = 2 ^ 53 * 2 ^ e).
  { rewrite <- Z.pow_add_r by lia. f_equal. subst e. lia. }
  assert (Hhalf : 2 ^ e = 2 * 2 ^ (e - 1)).
  { rewrite <- (Z.pow_succ_r 2 (e - 1)) by lia. f_equal. lia. }
  assert (Hpos : 0 < 2 ^ (e - 1)) by (apply Z.pow_pos_nonneg; lia).
  rewrite Z.shiftr_div_pow2 in Hm by lia.
  rewrite !Z.shiftl_mul_pow2 in Hm by lia.
  set (q := n / 2 ^ e) in *. set (half := 2 ^ (e - 1)) in *.
  pose proof (Z.div_mod n (2 ^ e) ltac:(lia)) as Hdiv.
  pose proof (Z.mod_pos_bound n (2 ^ e) ltac:(lia)) as Hmod.
  fold q in Hdiv.
  set (r := n - q * 2 ^ e) in *.
  assert (Hr : 0 <= r < 2 * half) by (subst r; lia).
  assert (Hq : 2 ^ 52 <= q < 2 ^ 53).
  { split.
    - subst q. apply Z.div_le_lower_bound; lia.
    - subst q. apply Z.div_lt_upper_bound; lia. }
  destruct ((half <? r) || (r =? half) && Z.odd q) eqn:Hup.
  - destruct (2 ^ 1024 <=? (q + 1) * 2 ^ e); [by destruct (n <? 0)|].
    injection Hm as <-. exists (q + 1).
    assert (Hsgn : Z.sgn n = 1) by lia. rewrite Hsgn, Z.mul_1_l.
    split; [done|]. split; [lia|].
    assert (Hge : half <= r).
    { apply orb_true_iff in Hup as [H|H]; [apply Z.ltb_lt in H; lia|].
      apply andb_true_iff in H as [H _]. apply Z.eqb_eq in H. lia. }
    assert (Hdist : (q + 1) * 2 ^ e - n = 2 * half - r) by (subst r; lia).
    split; [lia|].
    intros Htie. assert (Hrh : r = half) by lia.
    apply orb_true_iff in Hup as [H|H]; [apply Z.ltb_lt in H; lia|].
    apply andb_true_iff in H as [_ Hodd].
    rewrite Z.even_add, <- Z.negb_odd, Hodd. done.
  - destruct (2 ^ 1024 <=? q * 2 ^ e); [by destruct (n <? 0)|].
    injection Hm as <-. exists q.
    assert (Hsgn : Z.sgn n = 1) by lia. rewrite Hsgn, Z.mul_1_l.
    split; [done|]. split; [lia|].
    apply orb_false_iff in Hup as [Hlt Htie]. apply Z.ltb_ge in Hlt.
    assert (Hdist : q * 2 ^ e - n = - r) by (subst r; lia).
    split; [lia|].
    intros H. assert (Hrh : r = half) by lia.
    apply andb_false_iff in Htie as [Hne|Hodd]; [apply Z.eqb_neq in Hne; lia|].
    by rewrite <- Z.negb_odd, Hodd.
Qed.

(** The double for a number that is not negative is not negative. *)
Lemma toDouble_nonneg n :
  0 <= n -> isNaN (toDouble n) = false /\ negative (toDouble n) = false.
Proof.
  intros Hn. unfold toDouble.
  destruct (Z.abs n <? 2 ^ 53) eqn:Hsmall; [split; [done|]; simpl; by apply Z.ltb_ge|].
  cbv zeta. destruct (2 ^ 1024 <=? _).
  - by assert ((n <? 0) = false) as -> by (apply Z.ltb_ge; lia).
  - split; [done|]. simpl. apply Z.ltb_ge.
    apply Z.mul_nonneg_nonneg; [lia|].
    apply Z.shiftl_nonneg.
    assert (0 <= Z.shiftr (Z.abs n) (Z.log2 (Z.abs n) - 52))
      by (apply Z.shiftr_nonneg; lia).
    destruct (_ || _); lia.
Qed.

(** [parseInt] of a string of digits is the double for the number the
    digits denote. *)
Lemma parseInt_digits s :
  truthy_string s = true -> every isDigit s = true ->
  parseInt s = toDouble (decimal s) /\ 0 <= decimal s.
Proof.
  intros Hs Hd. split; [|by apply fold_digits_nonneg].
  destruct s as [|c s]; [done|].
  simpl in Hd. apply andb_true_iff in Hd as [Hc Hd].
  unfold parseInt. cbn [trimStart]. rewrite (digit_not_space c Hc).
  destruct (digit_not_sign c Hc) as (Hminus & Hplus & _).
  assert (Hgo : digitsPrefix (String c s) 0 false = Some (decimal (String c s))).
  { simpl. rewrite Hc. by rewrite digitsPrefix_digits. }
  destruct c as [[] [] [] [] [] [] [] []]; try done;
    cbv beta zeta iota; by rewrite Hgo.
Qed.

(** X28. The configuration read from the environment.  The constructor
    accepts it exactly when ACP_MAX_TURNS is not set, is empty or consists of
    decimal digits, and ACP_PERMISSION_MODE is not set, is empty or names one
    of the four modes.  Then the limit of turns is the double for the number
    the digits denote, and 100 when the variable is not set or empty: below
    2^53 it is that number ("0" gives 0, for no limit); from 2^53 on it is a
    significand of 53 bits times a power of two, no further from the number
    than half that power, or infinity.  It is neither NaN nor negative: the
    test of [parseMaxTurns] never fails once [validateConfig] has passed.
    The default mode is the mode named, and "default" when the variable is
    not set or empty. *)
Theorem configuration_accepted (env : Environment) :
  let turns := default EmptyString (ACP_MAX_TURNS env) in
  let mode := default EmptyString (ACP_PERMISSION_MODE env) in
  let turns_ok := negb (truthy_string turns) || every isDigit turns in
  let mode_ok := negb (truthy_string mode)
                 || match modeNamed mode with Some _ => true | None => false end in
  let limit := if truthy_string turns then decimal turns else 100 in
  (validateConfig env = inr tt <-> turns_ok && mode_ok = true)
  /\ (turns_ok && mode_ok = true ->
      exists st,
        configure env = inr st
        /\ settings_maxTurns st = toDouble limit
        /\ 0 <= limit
        /\ isNaN (settings_maxTurns st) = false
        /\ negative (settings_maxTurns st) = false
        /\ (limit < 2 ^ 53 ->
            settings_maxTurns st = Finite limit
            /\ exists cfg, config_of env st = Some cfg /\ maxTurns cfg = limit)
        /\ (forall m,
              2 ^ 53 <= limit -> settings_maxTurns st = Finite m ->
              exists q, m = q * 2 ^ (Z.log2 limit - 52)
                        /\ 2 ^ 52 <= q <= 2 ^ 53
                        /\ 2 * Z.abs (m - limit) <= 2 ^ (Z.log2 limit - 52))
        /\ settings_defaultPermissionMode st
           = (if truthy_string mode then default default_mode (modeNamed mode)
              else default_mode))
  /\ (turns_ok && mode_ok = false -> exists m, configure env = inl (Error m)).
Proof.
  intros turns mode turns_ok mode_ok limit.
  assert (Hval : validateConfig env
                 = if turns_ok && mode_ok then inr tt
                   else validateConfig env).
  { subst turns_ok mode_ok. unfold validateConfig. fold turns mode.
    destruct (truthy_string turns) eqn:Ht; simpl.
    - destruct (every isDigit turns); simpl; [|done].
      destruct (truthy_string mode); simpl; [|done].
      by destruct (modeNamed mode).
    - destruct (truthy_string mode); simpl; [|done].
      by destruct (modeNamed mode). }
  assert (Hbad : turns_ok && mode_ok = false -> exists m, validateConfig env = inl (Error m)).
  { subst turns_ok mode_ok. unfold validateConfig. fold turns mode.
    destruct (truthy_string turns) eqn:Ht; simpl.
    - destruct (every isDigit turns); simpl; [|by eexists].
      destruct (truthy_string mode); simpl; [|done].
      destruct (modeNamed mode); [done | by eexists].
    - destruct (truthy_string mode); simpl; [|done].
      destruct (modeNamed mode); [done | by eexists]. }
  split; [|split].
  - split.
    + intros Hok. destruct (turns_ok && mode_ok) eqn:H; [done|].
      destruct (Hbad eq_refl) as (m & Hm). congruence.
    + intros Hok. by rewrite Hval, Hok.
  - intros Hok. unfold configure. rewrite Hval, Hok.
    apply andb_true_iff in Hok as [Hturns Hmode].
    assert (Hlimit : 0 <= limit).
    { subst limit turns_ok. destruct (truthy_string turns) eqn:Ht; [|lia].
      simpl in Hturns. by apply fold_digits_nonneg. }
    assert (Hparsed : parseMaxTurns env = inr (toDouble limit)).
    { unfold parseMaxTurns. fold turns. subst limit turns_ok.
      destruct (truthy_string turns) eqn:Ht; simpl in *; [|done].
      destruct (parseInt_digits turns Ht Hturns) as [-> Hpos].
      destruct (toDouble_nonneg (decimal turns) Hpos) as [-> ->]. done. }
    rewrite Hparsed.
    destruct (toDouble_nonneg limit Hlimit) as [Hnan Hneg].
    eexists. split; [reflexivity|].
    cbn [settings_maxTurns settings_defaultPermissionMode].
    split; [done|]. split; [done|]. split; [done|]. split; [done|].
    split; [|split].
    + intros Hsmall. rewrite toDouble_exact by lia. split; [done|].
      unfold config_of. cbn [settings_maxTurns]. by eexists.
    + intros m Hbig Hm.
      destruct (toDouble_rounds limit m Hbig Hm) as (q & H1 & H2 & H3 & _).
      by exists q.
    + clear Hval Hbad Hparsed. subst mode_ok.
      unfold parsePermissionMode. subst mode.
      destruct (ACP_PERMISSION_MODE env) as [v|]; simpl; [|done].
      by destruct (truthy_string v) eqn:Hv; [|destruct v].
  - intros Hno. destruct (Hbad Hno) as (m & Hm). exists m.
    unfold configure. by rewrite Hm.
Qed.

End ConfigFacts.

Module PromptFacts.
Import Js Agent.

Lemma existsb_filter {X} (f : X -> bool) l :
  (0 < length (List.filter f l))%nat -> existsb f l = true.
Proof.
  induction l as [|x l IH]; simpl; [lia|].
  destruct (f x); [done|]. exact IH.
Qed.

(** X29. The estimate of a prompt.  Between 1 and 5 steps are estimated.  A
    prompt gets a plan only if it is complex.  At least three steps are
    estimated exactly when the prompt holds a multi-step indicator, or holds
    a complex keyword and is longer than 200 code units; every such prompt
    gets a plan, the one of three entries.  Any other prompt that gets a plan
    is estimated at two steps and gets the plan of one entry.  A prompt that
    is not complex is estimated at one step and summarized as "Processing
    simple request". *)
Theorem prompt_estimate (prompt : string) :
  let c := analyzePromptComplexity prompt in
  let lowerPrompt := toLowerCase prompt in
  let keyword := existsb (fun kw => includes kw lowerPrompt) complexKeywords in
  let indicator := existsb (fun ind => includes ind lowerPrompt) multiStepIndicators in
  let long := (PROMPT_COMPLEXITY_THRESHOLD <? String.length prompt)%nat in
  1 <= estimatedSteps c <= 5
  /\ (needsPlan c = true -> isComplex c = true)
  /\ (3 <= estimatedSteps c <-> indicator || keyword && long = true)
  /\ (3 <= estimatedSteps c ->
      needsPlan c = true
      /\ length (synthesizePlan (summary c) (estimatedSteps c)) = 3%nat)
  /\ (needsPlan c = true -> estimatedSteps c < 3 ->
      estimatedSteps c = 2
      /\ length (synthesizePlan (summary c) (estimatedSteps c)) = 1%nat)
  /\ (isComplex c = false ->
      estimatedSteps c = 1 /\ summary c = "Processing simple request"
      /\ needsPlan c = false).
Proof.
  intros c lowerPrompt keyword indicator long. subst c.
  unfold analyzePromptComplexity. fold lowerPrompt.
  cbn [estimatedSteps needsPlan isComplex summary].
  fold keyword indicator long.
  set (many := (1 <? length (List.filter (fun kw => includes kw lowerPrompt)
                               complexKeywords))%nat).
  assert (Hmany : many = true -> keyword = true).
  { subst many keyword. intros H%Nat.ltb_lt. apply existsb_filter. lia. }
  unfold synthesizePlan.
  destruct keyword, indicator, long, many; simpl;
    try (specialize (Hmany eq_refl); discriminate);
    repeat split; try done; try lia; intros; try done; try lia.
Qed.

End PromptFacts.

(** ** Titles *)

Module TitleFacts.
Import Js Agent JsFacts JsStrings.

Section Titles.

Context {W : Type}.
Variable cfg : Config.

Lemma join_head sep x l : exists tail, join sep (x :: l) = x ++ tail.
Proof.
  destruct l as [|y l]; [exists EmptyString; by rewrite append_nil_r|].
  by eexists.
Qed.

(** A title that starts with the indicator of plan mode is taken as
    decorated. *)
Lemma decorated more tail :
  let title := join " " ("⏸ plan mode" :: more) ++ tail in
  truthy_string title = true
  /\ startsWith "⏸ plan mode" title = true
  /\ existsb (fun indicator => includes (secondWord indicator) title)
       ("⏸ plan mode" :: more) = true.
Proof.
  intros title. subst title.
  destruct (join_head " " "⏸ plan mode" more) as (rest & ->).
  rewrite append_assoc. split; [done|]. split.
  - apply startsWith_spec. by eexists.
  - cbn [existsb]. apply orb_true_iff. left.
    change (secondWord "⏸ plan mode") with "plan".
    change (includes "plan"
              ("⏸ " ++ "plan" ++ (" mode" ++ (rest ++ tail))) = true).
    apply includes_append.
Qed.

(** X30. [addModeIndicators] decorates a title once.  For a session that is
    known it returns, changes nothing and sends nothing.  A title that is
    missing or empty becomes the indicators alone, joined by spaces.  A
    title that holds the second word of one of the indicators is returned as
    it is; so is every title that holds the word "plan", as the indicator of
    plan mode is always among the indicators.  Any other title is put after
    the indicators and " - ".  What is returned holds the second word of
    one of the indicators, and is returned unchanged when it is passed in
    again. *)
Theorem mode_indicators_once sid title (a : agent W) s :
  sessions a !! sid = Some s ->
  let indicators := modeIndicators cfg s in
  exists t,
    addModeIndicators cfg sid title a = (inr t, a)
    /\ (truthy_string (default EmptyString title) = false ->
        t = join " " indicators)
    /\ (forall t0 indicator,
          title = Some t0 -> truthy_string t0 = true ->
          In indicator indicators ->
          includes (secondWord indicator) t0 = true ->
          t = t0)
    /\ (forall t0, title = Some t0 -> includes "plan" t0 = true -> t = t0)
    /\ (forall t0,
          title = Some t0 -> truthy_string t0 = true ->
          (forall indicator,
             In indicator indicators ->
             includes (secondWord indicator) t0 = false) ->
          t = join " " indicators ++ " - " ++ t0)
    /\ startsWith "⏸ plan mode" (join " " indicators) = true
    /\ (exists indicator,
          In indicator indicators /\ includes (secondWord indicator) t = true)
    /\ addModeIndicators cfg sid (Some t) a = (inr t, a).
Proof.
  intros Hs indicators.
  assert (Hrun : forall title,
            addModeIndicators cfg sid title a
            = (inr match title with
                   | Some t0 =>
                       if truthy_string t0 then
                         if existsb (fun indicator =>
                                       includes (secondWord indicator) t0)
                              indicators
                         then t0
                         else join " " indicators ++ " - " ++ t0
                       else join " " indicators
                   | None => join " " indicators
                   end, a)).
  { intros title'. unfold addModeIndicators, bind, getSession. rewrite Hs.
    fold (modeIndicators cfg s). fold indicators.
    destruct title' as [t0|]; [|done].
    destruct (truthy_string t0); [|done].
    by destruct (existsb _ indicators). }
  assert (Hplan : In "⏸ plan mode" indicators) by (by left).
  assert (Hword : secondWord "⏸ plan mode" = "plan") by done.
  assert (Hkept : forall t0,
            includes "plan" t0 = true ->
            truthy_string t0 = true
            /\ existsb (fun indicator => includes (secondWord indicator) t0)
                 indicators = true).
  { intros t0 Hin. split; [by destruct t0|].
    apply existsb_exists. exists "⏸ plan mode". by rewrite Hword. }
  subst indicators. unfold modeIndicators in *. cbn [app] in *.
  set (more := ((if debug cfg then _ else _) ++ _)%list) in *.
  destruct (decorated more EmptyString) as (Ht0 & Hs0 & He0).
  rewrite append_nil_r in Ht0, Hs0, He0.
  assert (Hbare : includes "plan" (join " " ("⏸ plan mode" :: more)) = true).
  { destruct (join_head " " "⏸ plan mode" more) as (rest & ->).
    change (includes "plan" ("⏸ " ++ "plan" ++ (" mode" ++ rest)) = true).
    apply includes_append. }
  eexists. split; [apply Hrun|].
  split; [|split; [|split; [|split; [|split; [done|]]]]].
  - intros Hempty. destruct title as [t0|]; [|done].
    cbn [default from_option id] in Hempty. by rewrite Hempty.
  - intros t0 indicator -> Htruthy Hin Hinc. rewrite Htruthy.
    assert (existsb (fun indicator => includes (secondWord indicator) t0)
              ("⏸ plan mode" :: more) = true) as ->; [|done].
    apply existsb_exists. by exists indicator.
  - intros t0 -> Hin. by destruct (Hkept t0 Hin) as [-> ->].
  - intros t0 -> Htruthy Hnone. rewrite Htruthy.
    assert (existsb (fun indicator => includes (secondWord indicator) t0)
              ("⏸ plan mode" :: more) = false) as ->; [|done].
    apply not_true_is_false. intros (indicator & Hin & Hinc)%existsb_exists.
    by rewrite (Hnone indicator Hin) in Hinc.
  - assert (Hres :
      let t := match title with
               | Some t0 =>
                   if truthy_string t0 then
                     if existsb (fun indicator =>
                                   includes (secondWord indicator) t0)
                          ("⏸ plan mode" :: more)
                     then t0
                     else join " " ("⏸ plan mode" :: more) ++ " - " ++ t0
                   else join " " ("⏸ plan mode" :: more)
               | None => join " " ("⏸ plan mode" :: more)
               end in
      truthy_string t = true
      /\ existsb (fun indicator => includes (secondWord indicator) t)
           ("⏸ plan mode" :: more) = true).
    { destruct title as [t0|]; [|by apply Hkept].
      destruct (truthy_string t0) eqn:Htruthy; [|by apply Hkept].
      destruct (existsb (fun indicator => includes (secondWord indicator) t0) _)
        eqn:Hhas; [done|].
      destruct (decorated more (" - " ++ t0)) as (H1 & _ & H2). done. }
    cbv zeta in Hres. destruct Hres as [Htruthy Hhas].
    split.
    + apply existsb_exists in Hhas as (indicator & Hin & Hinc).
      by exists indicator.
    + rewrite Hrun. by rewrite Htruthy, Hhas.
Qed.

End Titles.
End TitleFacts.

(** ** Examples *)

Module Examples.
Import Js Agent Scenario.

Lemma counters_below_thresholds_witness :
  CircuitBreaker.below_thresholds two_strikes
    (fst (CircuitBreaker.acts rejecting two_strikes CircuitBreaker.new 0%nat
            fail_force_close)).
Proof.
  apply (CircuitBreakerControl.counters_below_thresholds rejecting two_strikes);
    simpl; lia.
Defined.

Lemma forced_closed_counts_afresh_witness :
  CircuitBreaker.isHealthy
    (fst (CircuitBreaker.run rejecting two_strikes
            (CircuitBreaker.forceClosed CircuitBreaker.new) 0%nat two_rejections))
  = false.
Proof.
  destruct (CircuitBreakerControl.forced_closed_counts_afresh rejecting two_strikes
              CircuitBreaker.new 0%nat 10 two_rejections) as (_ & Hopen & _);
    [simpl; lia | reflexivity | repeat constructor; simpl; lia | exact I |].
  exact Hopen.
Defined.

Lemma stats_stay_consistent_witness :
  ContextMonitor.consistent
    {| ContextMonitor.usage := 0; ContextMonitor.estimatedTokens := 0;
       ContextMonitor.messages := 0; ContextMonitor.turnCount := 0;
       ContextMonitor.lastActivity := 2000; ContextMonitor.lastUpdate := 2000 |}.
Proof.
  apply (ContextMonitorSessions.stats_stay_consistent plain add_then_reset "S").
  vm_compute. reflexivity.
Defined.

Lemma addMessage_counts_witness :
  exists st,
    ContextMonitor.getStats
      (fst (ContextMonitor.addMessage plain ∅ "S" "Hello world"
              (Some ContextMonitor.user) noon)) "S" = Some st
    /\ ContextMonitor.messages st = 1
    /\ ContextMonitor.turnCount st = 1.
Proof.
  destruct (ContextMonitorSessions.addMessage_counts plain ∅ "S" "Hello world"
              (Some ContextMonitor.user) noon) as (st & Hst & Hm & Ht & _);
    [simpl; lia|].
  exists st. split; [exact Hst|]. split; [exact Hm | exact Ht].
Defined.

Lemma memory_stats_add_witness :
  ContextMonitor.totalMessages
    (ContextMonitor.getMemoryStats
       (fst (ContextMonitor.addMessage plain ∅ "S" "Hello world"
               (Some ContextMonitor.user) noon)))
  = ContextMonitor.totalMessages (ContextMonitor.getMemoryStats ∅) + 1.
Proof.
  destruct (ContextMonitorSessions.memory_stats_add plain ∅ "S" "Hello world"
              (Some ContextMonitor.user) noon) as (Hm & _);
    [vm_compute; discriminate|].
  exact Hm.
Defined.

Lemma receive_chunking_witness :
  Protocol.receive mute strict EmptyString [first_half; second_half] fresh
  = Protocol.receive mute strict EmptyString [first_half ++ second_half] fresh.
Proof.
  apply (ConnectionFacts.receive_chunking mute strict EmptyString first_half
           second_half [] fresh).
  reflexivity.
Defined.

Lemma blank_lines_skipped_witness :
  Protocol.processLines mute strict ["   "; EmptyString] fresh = fresh.
Proof.
  apply (ConnectionFacts.blank_lines_skipped mute strict ["   "; EmptyString] fresh).
  repeat constructor.
Defined.

Lemma request_response_round_trip_witness :
  let c1 := snd (Protocol.sendRequest "session/request_permission" None fresh) in
  Protocol.written c1 = []
  /\ Protocol.written (Protocol.drain c1)
     = [Protocol.Request (JNum 0) "session/request_permission" None]
  /\ Protocol.written (Protocol.drain (Protocol.destroy c1)) = [].
Proof.
  destruct (ConnectionFacts.request_response_round_trip
              "session/request_permission" None fresh)
    as (_ & _ & Hqueued & _ & _ & Hsent & (Hdead & _) & _);
    [reflexivity | intros k Hk; by apply elem_of_empty in Hk |].
  split; [exact Hqueued|]. split; [|exact Hdead].
  rewrite Hsent. reflexivity.
Defined.

(** From 2^53 on the limit of turns is rounded as a double is: 2^53 + 1 is
    read as 2^53. *)
Lemma max_turns_rounded :
  parseMaxTurns generous = inr (Finite 9007199254740992).
Proof. vm_compute. reflexivity. Qed.

Lemma read_window_witness :
  Protocol.processedContent three_lines (Some 2) (Some 2)
  = "b" ++ String Protocol.LF Protocol.TRUNCATED.
Proof.
  destruct (ConnectionFacts.read_window three_lines 2 2) as (Hboth & _);
    [lia | lia |].
  exact Hboth.
Defined.

Lemma query_of_turn_witness :
  exists args a0,
    preflight settings plain whole hi "S" calm idle = (inr args, a0)
    /\ resume (query_options args) = None
    /\ query_maxTurns (query_options args) = Some 100.
Proof.
  destruct (TurnStart.query_of_turn settings plain whole hi "S" calm idle
              (createSession default_mode 0))
    as (args & a0 & Hrun & _ & _ & Hresume & _ & _ & Hturns & _);
    [reflexivity|].
  exists args, a0. split; [exact Hrun|]. split; [exact Hresume|].
  apply Hturns. simpl. lia.
Defined.

Lemma query_slot_refused_witness :
  fst (executePrompt settings down silent plain whole hi "S" crowded idle)
  = inr end_turn.
Proof.
  destruct (TurnStart.query_slot_refused settings down silent plain whole hi "S"
              crowded idle (createSession default_mode 0))
    as (a0 & _ & _ & _ & Hrun & _); [reflexivity | reflexivity |].
  rewrite Hrun. reflexivity.
Defined.

Lemma mode_indicators_once_witness :
  exists t,
    addModeIndicators settings "S" (Some "Fix the parser") idle = (inr t, idle)
    /\ t = "⏸ plan mode [TURNS] max-turns:100 - Fix the parser".
Proof.
  destruct (TitleFacts.mode_indicators_once settings "S" (Some "Fix the parser")
              idle (createSession default_mode 0))
    as (t & Hrun & _ & _ & _ & Hdecorated & _);
    [reflexivity|].
  exists t. split; [exact Hrun|].
  apply (Hdecorated "Fix the parser"); [reflexivity | reflexivity |].
  intros indicator [<- | [<- | []]]; reflexivity.
Defined.

End Examples.
